(** * nofx: the multi-exchange trading execution gateway

  A shallow embedding of the trader package (the decision sequencer and
  the [AutoTrader] of [auto_trader.go], the Aster, Binance and Hyperliquid
  backends, the decision engine that reads the answer of the model) and of
  the retrying client of [mcp/client.go], with the properties of its
  specification and further properties of the code.

  Part I holds the definitions, one module per source unit; Part II the
  lemmas and theorems about them. *)

From Stdlib Require Import ZArith Floats Reals Lra Lia Ascii String.
From stdpp Require Import gmap strings list sorting pretty.

Set Warnings "-inexact-float,-clear-no-such-hyp".

(* ===================================================================== *)
(** * Part I: definitions                                                 *)
(* ===================================================================== *)

(** ** decision.Decision and the sequencer of [auto_trader.go] *)

Module Sequencer.

(** [decision.Decision]; Go's [float64] fields are binary64 floats. *)
Record Decision := mkDecision {
  Symbol : string;
  Action : string;
  Leverage : Z;
  PositionSizeUSD : float;
  StopLoss : float;
  TakeProfit : float;
  Confidence : Z;
  RiskUSD : float;
  Reasoning : string
}.

(** The closure [getActionPriority] of [sortDecisionsByPriority]. *)
Definition getActionPriority (action : string) : Z :=
  if (action =? "close_long")%string || (action =? "close_short")%string then 1
  else if (action =? "open_long")%string || (action =? "open_short")%string then 2
  else if (action =? "hold")%string || (action =? "wait")%string then 3
  else 999.

Definition priority (d : Decision) : Z := getActionPriority (Action d).

(** The body of the inner loop:
    [if prio(sorted[i]) > prio(sorted[j]) { sorted[i], sorted[j] = sorted[j], sorted[i] }].
    An index out of range panics in Go; the loops below never produce one,
    and the model leaves the slice alone there. *)
Definition swap_if_greater (i j : nat) (sorted : list Decision) : list Decision :=
  match sorted !! i, sorted !! j with
  | Some di, Some dj =>
      if (priority dj <? priority di)%Z
      then <[j:=di]> (<[i:=dj]> sorted)
      else sorted
  | _, _ => sorted
  end.

(** [for j := i + 1; j < len(sorted); j++]: [n] counts the iterations left,
    [len(sorted) - j]. *)
Fixpoint inner_loop (i j n : nat) (sorted : list Decision) : list Decision :=
  match n with
  | O => sorted
  | S n' => inner_loop i (S j) n' (swap_if_greater i j sorted)
  end.

(** [for i := 0; i < len(sorted)-1; i++]: [n] counts the iterations left. *)
Fixpoint outer_loop (i n : nat) (sorted : list Decision) : list Decision :=
  match n with
  | O => sorted
  | S n' =>
      outer_loop (S i) n' (inner_loop i (S i) (length sorted - S i) sorted)
  end.

Definition sortDecisionsByPriority (decisions : list Decision) : list Decision :=
  if (length decisions <=? 1)%nat then decisions
  else outer_loop 0 (length decisions - 1) decisions.

(** The priority classes, by the action names of the [switch]. *)
Definition is_close (d : Decision) : Prop :=
  Action d = "close_long" \/ Action d = "close_short".
Definition is_open (d : Decision) : Prop :=
  Action d = "open_long" \/ Action d = "open_short".
Definition is_hold_wait (d : Decision) : Prop :=
  Action d = "hold" \/ Action d = "wait".
Definition is_unknown (d : Decision) : Prop :=
  ~ is_close d /\ ~ is_open d /\ ~ is_hold_wait d.

Definition is_closeb (d : Decision) : bool :=
  (Action d =? "close_long")%string || (Action d =? "close_short")%string.
Definition same_classb (a b : Decision) : bool := (priority a =? priority b)%Z.

(** Every [P] decision of [l] stands before every [Q] decision of [l]. *)
Definition all_before (P Q : Decision -> Prop) (l : list Decision) : Prop :=
  forall i j a b, l !! i = Some a -> l !! j = Some b -> P a -> Q b -> (i < j)%nat.

(** A batch already in priority order. *)
Definition in_priority_order (l : list Decision) : Prop :=
  forall i j a b, l !! i = Some a -> l !! j = Some b -> (i < j)%nat ->
                  (priority a <= priority b)%Z.

Definition by_priority (a b : Decision) : Prop := (priority a <= priority b)%Z.

(** A decision that only names a symbol and an action. *)
Definition intent (action symbol : string) : Decision :=
  mkDecision symbol action 0 0%float 0%float 0%float 0 0%float "".

(** The selection performed by one pass of the inner loop, on the
    element at position [i] and the elements after it: a proof device,
    shown equal to [inner_loop] below. *)
Fixpoint select (x : Decision) (rest : list Decision) : Decision * list Decision :=
  match rest with
  | [] => (x, [])
  | y :: rest' =>
      if (priority y <? priority x)%Z
      then let (m, r) := select y rest' in (m, x :: r)
      else let (m, r) := select x rest' in (m, y :: r)
  end.

Fixpoint selection_passes (n : nat) (l : list Decision) : list Decision :=
  match n, l with
  | S n', x :: rest => let (m, r) := select x rest in m :: selection_passes n' r
  | _, _ => l
  end.

End Sequencer.

(** ** Go's [float64]

    The arithmetic the gateway uses, as an interface with two instances:
    [Binary64], IEEE 754 binary64 on the kernel's primitive floats, is the
    arithmetic the program runs on; [Exact], the real numbers, is the same
    program with no rounding error. Every definition below that computes
    with prices or quantities is written once, over the interface. *)

Class Float64 (F : Type) : Type := {
  f_int : Z -> F;               (* [float64(n)] and the integer constants *)
  f_add : F -> F -> F;
  f_mul : F -> F -> F;
  f_div : F -> F -> F;
  f_neg : F -> F;
  f_eqb : F -> F -> bool;
  f_ltb : F -> F -> bool;
  f_leb : F -> F -> bool;
  f_trunc : F -> option Z;      (* [int(x)]: toward zero; [None] where Go leaves the value open *)
  math_Round : F -> F;          (* nearest integer, halves away from zero *)
  math_Pow10 : Z -> F
}.

Declare Scope f64_scope.
Delimit Scope f64_scope with f64.
Notation "x + y" := (f_add x y) : f64_scope.
Notation "x * y" := (f_mul x y) : f64_scope.
Notation "x / y" := (f_div x y) : f64_scope.
Notation "- x" := (f_neg x) : f64_scope.
Notation "x =? y" := (f_eqb x y) : f64_scope.
Notation "x <? y" := (f_ltb x y) : f64_scope.
Notation "x <=? y" := (f_leb x y) : f64_scope.
Notation "x >? y" := (f_ltb y x) : f64_scope.
Notation "x >=? y" := (f_leb y x) : f64_scope.

(** The decimal constant [n / 10^k], e.g. [0.5 = f_dec 5 1]. On binary64
    the quotient of two integers below [2^53] is rounded once, to the
    float nearest to the decimal, as Go reads the constant. *)
Definition f_dec `{Float64 F} (n : Z) (k : nat) : F :=
  (f_int n / f_int (10 ^ Z.of_nat k))%f64.

(** *** The binary64 instance *)

Definition int64_range (z : Z) : bool := ((- 2 ^ 63 <=? z) && (z <? 2 ^ 63))%Z.

(** [float64(n)]: the integer, rounded to the nearest float (ties to even). *)
Definition b64_of_Z (z : Z) : float := SF2Prim (binary_normalize prec emax z 0 false).

(** [int(x)]: the integer part of a finite [x]; the Go specification leaves
    the result open when it does not fit ([NaN], infinities, overflow). *)
Definition b64_trunc (x : float) : option Z :=
  match Prim2SF x with
  | S754_zero _ => Some 0%Z
  | S754_finite s m e =>
      let a := if (0 <=? e)%Z then (Z.pos m * 2 ^ e)%Z else (Z.pos m / 2 ^ (- e))%Z in
      let z := if s then (- a)%Z else a in
      if int64_range z then Some z else None
  | _ => None
  end.

(** [math.Round]: zeros, infinities and NaN are returned as they are; a
    finite [m * 2^e] with [e < 0] is rounded half away from zero, keeping
    the sign (so [Round(-0.3) = -0]). *)
Definition b64_Round (x : float) : float :=
  match Prim2SF x with
  | S754_finite s m e =>
      if (0 <=? e)%Z then x
      else
        let d := (2 ^ (- e))%Z in
        let q := (Z.pos m / d)%Z in
        let r := (Z.pos m mod d)%Z in
        let n := if (d <=? 2 * r)%Z then (q + 1)%Z else q in
        if s then (- b64_of_Z n)%float else b64_of_Z n
  | _ => x
  end.

(** [math.Pow10], by the tables of Go's [math/pow10.go]. *)
Definition pow10tab (i : Z) : float := b64_of_Z (10 ^ i).
Definition pow10postab32 (i : Z) : float := b64_of_Z (10 ^ (32 * i)).
Definition pow10negtab32 (i : Z) : float :=
  nth (Z.to_nat i)
      [1; 1e-32; 1e-64; 1e-96; 1e-128; 1e-160; 1e-192; 1e-224; 1e-256; 1e-288; 1e-320]%float
      0%float.
Definition b64_Pow10 (n : Z) : float :=
  if ((0 <=? n) && (n <=? 308))%Z then (pow10postab32 (n / 32) * pow10tab (n mod 32))%float
  else if ((-323 <=? n) && (n <=? 0))%Z
       then (pow10negtab32 (- n / 32) / pow10tab (- n mod 32))%float
       else if (0 <? n)%Z then infinity else 0%float.

#[export] Instance Binary64 : Float64 float := {
  f_int := b64_of_Z;
  f_add := PrimFloat.add;
  f_mul := PrimFloat.mul;
  f_div := PrimFloat.div;
  f_neg := PrimFloat.opp;
  f_eqb := PrimFloat.eqb;
  f_ltb := PrimFloat.ltb;
  f_leb := PrimFloat.leb;
  f_trunc := b64_trunc;
  math_Round := b64_Round;
  math_Pow10 := b64_Pow10
}.

Definition b64_is_nan (x : float) : bool :=
  match Prim2SF x with S754_nan => true | _ => false end.

(** *** The exact instance *)

Definition R_eqb (x y : R) : bool := if Req_dec_T x y then true else false.
Definition R_ltb (x y : R) : bool := if Rlt_dec x y then true else false.
Definition R_leb (x y : R) : bool := if Rle_dec x y then true else false.

(** The integer part toward zero. *)
Definition R_trunc_Z (x : R) : Z :=
  if Rle_dec 0 x then Int_part x else (- Int_part (- x))%Z.
Definition R_trunc (x : R) : option Z :=
  let z := R_trunc_Z x in if int64_range z then Some z else None.
Definition R_Round (x : R) : R :=
  IZR (if Rle_dec 0 x then Int_part (x + / 2) else (- Int_part (- x + / 2))%Z).

#[export] Instance Exact : Float64 R := {
  f_int := IZR;
  f_add := Rplus;
  f_mul := Rmult;
  f_div := Rdiv;
  f_neg := Ropp;
  f_eqb := R_eqb;
  f_ltb := R_ltb;
  f_leb := R_leb;
  f_trunc := R_trunc;
  math_Round := R_Round;
  math_Pow10 := powerRZ 10
}.

(** ** Rounding: [roundToTickSize] of [aster_trader.go] and
    [roundPriceToSigfigs] of the Hyperliquid trader *)

(** A computation that may not end ([Diverges]: the loop outlived the fuel)
    or may reach a conversion Go leaves open ([Unspecified]). *)
Inductive run (A : Type) : Type :=
| Returns (a : A)
| Diverges
| Unspecified.
Arguments Returns {A} a.
Arguments Diverges {A}.
Arguments Unspecified {A}.

Section Rounding.
Context {F : Type} `{Float64 F}.
Local Open Scope f64_scope.

(** [roundToTickSize], together with the divisions it performs, as
    (dividend, divisor) pairs. *)
Definition roundToTickSize_traced (value tickSize : F) : F * list (F * F) :=
  if tickSize <=? f_int 0 then (value, [])
  else
    let steps := value / tickSize in
    let roundedSteps := math_Round steps in
    (roundedSteps * tickSize, [(value, tickSize)]).

Definition roundToTickSize (value tickSize : F) : F :=
  (roundToTickSize_traced value tickSize).1.

(** [for magnitude >= 10 { magnitude /= 10; multiplier /= 10 }] *)
Fixpoint scale_down (fuel : nat) (magnitude multiplier : F) : option (F * F) :=
  match fuel with
  | O => None
  | S fuel' =>
      if magnitude >=? f_int 10
      then scale_down fuel' (magnitude / f_int 10) (multiplier / f_int 10)
      else Some (magnitude, multiplier)
  end.

(** [for magnitude < 1 { magnitude *= 10; multiplier *= 10 }] *)
Fixpoint scale_up (fuel : nat) (magnitude multiplier : F) : option (F * F) :=
  match fuel with
  | O => None
  | S fuel' =>
      if magnitude <? f_int 1
      then scale_up fuel' (magnitude * f_int 10) (multiplier * f_int 10)
      else Some (magnitude, multiplier)
  end.

(** [for i := 0; i < sigfigs-1; i++ { multiplier *= 10 }] *)
Fixpoint apply_sigfigs (n : nat) (multiplier : F) : F :=
  match n with
  | O => multiplier
  | S n' => apply_sigfigs n' (multiplier * f_int 10)
  end.

Definition sigfigs : nat := 5.

(** The two normalising loops of [roundPriceToSigfigs], from the magnitude
    of the price: the mantissa and the multiplier they end with. [fuel]
    bounds the iterations of each loop. *)
Definition normalise (fuel : nat) (price : F) : option (F * F) :=
  let magnitude := if price <? f_int 0 then - price else price in
  match scale_down fuel magnitude (f_int 1) with
  | None => None
  | Some (magnitude, multiplier) => scale_up fuel magnitude multiplier
  end.

(** [roundPriceToSigfigs]. *)
Definition roundPriceToSigfigs (fuel : nat) (price : F) : run F :=
  if price =? f_int 0 then Returns (f_int 0)
  else
    match normalise fuel price with
    | None => Diverges
    | Some (magnitude, multiplier) =>
        let multiplier := apply_sigfigs (sigfigs - 1) multiplier in
        match f_trunc (price * multiplier + f_dec 5 1) with
        | None => Unspecified
        | Some n => Returns (f_int n / multiplier)
        end
    end.

(** [absFloat]. *)
Definition absFloat (x : F) : F := if x <? f_int 0 then - x else x.

End Rounding.

(** ** Values, errors and effects shared by the three backends *)

(** What a [map[string]interface{}] of the gateway holds. *)
Inductive value : Type :=
| VStr (s : string)
| VInt (z : Z)
| VNum (x : float)
| VBool (b : bool)
| VNil.

(** A Go call returns a value, returns an error (its message), or panics. *)
Inductive result (A : Type) : Type :=
| Ok (a : A)
| Err (msg : string)
| Panic.
Arguments Ok {A} a.
Arguments Err {A} msg.
Arguments Panic {A}.

(** State passing with errors: an error or a panic ends the computation
    where it stands, with the state reached. *)
Definition M (S A : Type) : Type := S -> result A * S.

#[export] Instance M_ret {S} : MRet (M S) := fun A a s => (Ok a, s).
#[export] Instance M_bind {S} : MBind (M S) := fun A B f m s =>
  match m s with
  | (Ok a, s') => f a s'
  | (Err e, s') => (Err e, s')
  | (Panic, s') => (Panic, s')
  end.

Definition gets {S A} (f : S -> A) : M S A := fun s => (Ok (f s), s).
Definition fail {S A} (msg : string) : M S A := fun s => (Err msg, s).
Definition panic {S A} : M S A := fun s => (Panic, s).

(** [v, err := f()] where the caller goes on to inspect [err]. *)
Definition try {S A} (m : M S A) : M S (string + A) := fun s =>
  match m s with
  | (Ok a, s') => (Ok (inr a), s')
  | (Err e, s') => (Ok (inl e), s')
  | (Panic, s') => (Panic, s')
  end.

(** [strings.Contains]. *)
Fixpoint strings_Contains (s substr : string) : bool :=
  String.prefix substr s ||
  match s with
  | EmptyString => false
  | String _ s' => strings_Contains s' substr
  end.

(** [strings.ToUpper], on the ASCII letters. *)
Definition upper_ascii (c : ascii) : ascii :=
  let n := nat_of_ascii c in
  if ((97 <=? n) && (n <=? 122))%nat then ascii_of_nat (n - 32) else c.
Fixpoint strings_ToUpper (s : string) : string :=
  match s with
  | EmptyString => EmptyString
  | String c s' => String (upper_ascii c) (strings_ToUpper s')
  end.

(** What an HTTP exchange comes back with: [client.Do] fails (the
    transport's error), or the venue answers with a status and a body. *)
Inductive HttpOutcome : Type :=
| TransportError (msg : string)
| Response (status : Z) (body : string).

(** [float64] to [int]/[int64]: the integer part; where the Go
    specification leaves the result open (it does not fit), the value the
    amd64 conversion gives. *)
Definition int_of_float (x : float) : Z := default (- 2 ^ 63)%Z (b64_trunc x).

(** A position as the specification wants it: side long or short, and a
    quantity that is strictly positive (for a NaN quantity, which no
    comparison places, only that it is not [<= 0]). *)
Definition normalized_position (m : gmap string value) : Prop :=
  exists side q,
    m !! "side" = Some (VStr side) /\ (side = "long" \/ side = "short") /\
    m !! "positionAmt" = Some (VNum q) /\
    (q <=? f_int 0)%f64 = false /\
    (b64_is_nan q = false -> (q >? f_int 0)%f64 = true).

(** A position in the signed convention: side long or short, and a non-zero
    quantity whose sign tells the side. *)
Definition signed_position (m : gmap string value) : Prop :=
  exists side x,
    m !! "side" = Some (VStr side) /\ (side = "long" \/ side = "short") /\
    m !! "positionAmt" = Some (VNum x) /\
    (x =? f_int 0)%f64 = false /\
    (side = "long" <-> (x >? f_int 0)%f64 = true).

(** ** The Aster backend, [aster_trader.go] *)

Module Aster.

Record SymbolPrecision := mkSymbolPrecision {
  PricePrecision : Z;
  QuantityPrecision : Z;
  TickSize : float;
  StepSize : float
}.

(** One symbol of the exchangeInfo answer. *)
Record SymbolInfo := mkSymbolInfo {
  info_Symbol : string;
  info_PricePrecision : Z;
  info_QuantityPrecision : Z;
  info_Filters : list (gmap string value)
}.

(** A reference to a [map[string]interface{}] on the heap. *)
Definition ref := nat.

(** What the trader does to the outside, in order. [Call] marks the entry
    of one logical signed call into [request]; the others are the effects
    themselves. *)
Inductive Event : Type :=
| Call (method endpoint : string) (params : gmap string value)
| Signing (nonce : Z) (paramsCopy : ref) (content : gmap string value)
| Http (method url : string) (payload : gmap string string)
| HttpGet (url : string)
| Sleep (microseconds : Z).

(** The trader's fields and its surroundings: the precision cache, the
    maps on the heap, the wall clock in microseconds, and the effects so far. *)
Record State := mkState {
  symbolPrecision : gmap string SymbolPrecision;
  heap : gmap ref (gmap string value);
  now : Z;
  trace : list Event
}.

(** Projections of a trace: the nonces signed, the pauses, the exchanges
    with the venue, the logical calls. *)
Definition nonces (tr : list Event) : list Z :=
  omap (fun ev => match ev with Signing n _ _ => Some n | _ => None end) tr.
Definition sleeps (tr : list Event) : list Z :=
  omap (fun ev => match ev with Sleep d => Some d | _ => None end) tr.
Definition exchanges (tr : list Event) : list (string * string * gmap string string) :=
  omap (fun ev => match ev with Http m u p => Some (m, u, p) | _ => None end) tr.
Definition calls (tr : list Event) : list (string * string * gmap string value) :=
  omap (fun ev => match ev with Call m e p => Some (m, e, p) | _ => None end) tr.

(** Every exchange of the trace comes right after a signing, and carries
    the nonce of that signing. *)
Fixpoint each_exchange_signed (tr : list Event) : Prop :=
  match tr with
  | [] => True
  | Signing n _ _ :: Http _ _ payload :: rest =>
      payload !! "nonce" = Some (pretty n) /\ is_Some (payload !! "signature") /\
      each_exchange_signed rest
  | Http _ _ _ :: _ => False
  | _ :: rest => each_exchange_signed rest
  end.

Definition baseURL : string := "https://fapi.asterdex.com".
Definition maxRetries : Z := 3.

(** The trader's wallet addresses and its surroundings: what the venue
    answers to the exchange that ends the trace, and how much time passes
    after the effect that ends the trace; and Go's libraries:
    [strconv.ParseFloat] (its error is dropped by every caller), the [%v]
    of a float, [json.Marshal] of the normalised parameters,
    [json.Unmarshal] at the two types the trader decodes, and the signing
    chain of [sign] after normalisation (ABI encoding, Keccak, the EIP-191
    prefix, ECDSA, the recovery id, hex), which gives the signature or the
    error. *)
Record Env := mkEnv {
  user : string;
  signer : string;
  venue : list Event -> HttpOutcome;
  elapse : list Event -> Z;
  ParseFloat : string -> float;
  fmt_float : float -> string;
  json_Marshal : gmap string string -> string;
  decode_exchangeInfo : string -> string + list SymbolInfo;
  decode_objects : string -> string + list (gmap string value);
  sign_digest : string -> string -> string -> Z -> string + string
}.

Section Trader.
Variable env : Env.

Definition duration (ev : Event) : Z :=
  match ev with Sleep d => d | _ => 0%Z end.

(** An effect: it joins the trace, and time moves on. *)
Definition emit (ev : Event) : M State unit := fun s =>
  let tr := trace s ++ [ev] in
  (Ok tt, mkState (symbolPrecision s) (heap s) (now s + duration ev + elapse env tr) tr).

Definition time_Sleep (microseconds : Z) : M State unit := emit (Sleep microseconds).

(** [t.client.Do(req)] and [t.client.Get(url)]. *)
Definition client_Do (method url : string) (payload : gmap string string) : M State HttpOutcome :=
  emit (Http method url payload);; gets (fun s => venue env (trace s)).
Definition client_Get (url : string) : M State HttpOutcome :=
  emit (HttpGet url);; gets (fun s => venue env (trace s)).

(** [make(map[string]interface{})] and the map literals. *)
Definition new_map (content : gmap string value) : M State ref := fun s =>
  let l := fresh (dom (heap s)) in
  (Ok l, mkState (symbolPrecision s) (<[l:=content]> (heap s)) (now s) (trace s)).
Definition read_map (l : ref) : M State (gmap string value) :=
  gets (fun s => default ∅ (heap s !! l)).
(** [m[k] = v]; a write to a nil map panics. *)
Definition map_set (l : ref) (k : string) (v : value) : M State unit := fun s =>
  match heap s !! l with
  | Some m => (Ok tt, mkState (symbolPrecision s) (<[l:=<[k:=v]> m]> (heap s)) (now s) (trace s))
  | None => (Panic, s)
  end.

(** [genNonce]: [uint64(time.Now().UnixMicro())]. *)
Definition genNonce : M State Z := gets (fun s => (now s mod 2 ^ 64)%Z).

(** [fmt.Sprintf("%v", v)], which is also what [normalize] makes of a scalar. *)
Definition render (v : value) : string :=
  match v with
  | VStr s => s
  | VInt z => pretty z
  | VNum x => fmt_float env x
  | VBool b => if b then "true" else "false"
  | VNil => "<nil>"
  end.

(** [normalizeAndStringify], on the flat maps the trader signs. *)
Definition normalizeAndStringify (params : gmap string value) : string :=
  json_Marshal env (render <$> params).

(** [sign]: it writes into the map it is given. *)
Definition sign (params : ref) (nonce : Z) : M State unit :=
  content ← read_map params;
  emit (Signing nonce params content);;
  map_set params "recvWindow" (VStr "50000");;
  ms ← gets (fun s => (now s / 1000)%Z);
  map_set params "timestamp" (VStr (pretty ms));;
  signing ← read_map params;
  match sign_digest env (normalizeAndStringify signing) (user env) (signer env) nonce with
  | inl e => fail e
  | inr sig =>
      map_set params "user" (VStr (user env));;
      map_set params "signer" (VStr (signer env));;
      map_set params "signature" (VStr sig);;
      map_set params "nonce" (VInt nonce)
  end.

(** The exchange of [doRequest], common to its two cases: [client.Do], then
    the status check. ([http.NewRequest] cannot fail on the trader's fixed
    methods and URLs; a failed read of the body is dropped as in the code.) *)
Definition exchange (method fullURL : string) (payload : gmap string string) : M State string :=
  resp ← client_Do method fullURL payload;
  match resp with
  | TransportError e => fail e
  | Response status body =>
      if (status =? 200)%Z then mret body
      else fail ("HTTP " ++ pretty status ++ ": " ++ body)%string
  end.

(** [doRequest]: the parameters go into the form body of a POST, into the
    query string of a GET or DELETE, each rendered with [%v]. *)
Definition doRequest (method endpoint : string) (params : ref) : M State string :=
  let fullURL := (baseURL ++ endpoint)%string in
  let method := strings_ToUpper method in
  if (method =? "POST")%string then
    content ← read_map params;
    exchange "POST" fullURL (render <$> content)
  else if ((method =? "GET") || (method =? "DELETE"))%string then
    content ← read_map params;
    exchange method fullURL (render <$> content)
  else fail ("不支持的HTTP方法: " ++ method)%string.

(** The test on [err.Error()] that decides a retry. *)
Definition retryable (err : string) : bool :=
  strings_Contains err "timeout" ||
  strings_Contains err "connection reset" ||
  strings_Contains err "EOF".

(** The loop of [request], [for attempt := 1; attempt <= maxRetries; attempt++];
    [n] counts the iterations left, and the statement after the loop is
    the case [n = 0]. *)
Fixpoint request_loop (n : nat) (attempt : Z) (method endpoint : string)
         (params : ref) (lastErr : string) : M State string :=
  match n with
  | O => fail ("請求失敗（已重試" ++ pretty maxRetries ++ "次）: " ++ lastErr)%string
  | S n' =>
      nonce ← genNonce;
      original ← read_map params;
      paramsCopy ← new_map ∅;
      map_fold (fun k v copy => copy;; map_set paramsCopy k v) (mret tt) original;;
      sign paramsCopy nonce;;
      r ← try (doRequest method endpoint paramsCopy);
      match r with
      | inr body => mret body
      | inl err =>
          if retryable err then
            if (attempt <? maxRetries)%Z
            then time_Sleep (attempt * 1000000);;
                 request_loop n' (attempt + 1)%Z method endpoint params err
            else fail err
          else fail err
      end
  end.

(** [request]. *)
Definition request (method endpoint : string) (params : ref) : M State string :=
  content ← read_map params;
  emit (Call method endpoint content);;
  request_loop (Z.to_nat maxRetries) 1 method endpoint params "".

(** One filter of the [for _, filter := range s.Filters] loop of [getPrecision]. *)
Definition apply_filter (prec : SymbolPrecision) (filter : gmap string value) : SymbolPrecision :=
  let filterType := match filter !! "filterType" with Some (VStr s) => s | _ => "" end in
  if (filterType =? "PRICE_FILTER")%string then
    match filter !! "tickSize" with
    | Some (VStr tickSizeStr) =>
        mkSymbolPrecision (PricePrecision prec) (QuantityPrecision prec)
                          (ParseFloat env tickSizeStr) (StepSize prec)
    | _ => prec
    end
  else if (filterType =? "LOT_SIZE")%string then
    match filter !! "stepSize" with
    | Some (VStr stepSizeStr) =>
        mkSymbolPrecision (PricePrecision prec) (QuantityPrecision prec)
                          (TickSize prec) (ParseFloat env stepSizeStr)
    | _ => prec
    end
  else prec.

(** One symbol of the [for _, s := range info.Symbols] loop. *)
Definition cache_symbol (cache : gmap string SymbolPrecision) (s : SymbolInfo)
  : gmap string SymbolPrecision :=
  <[info_Symbol s :=
      foldl apply_filter
            (mkSymbolPrecision (info_PricePrecision s) (info_QuantityPrecision s) 0%float 0%float)
            (info_Filters s)]> cache.

Definition set_symbolPrecision (cache : gmap string SymbolPrecision) : M State unit := fun s =>
  (Ok tt, mkState cache (heap s) (now s) (trace s)).

(** [getPrecision]. *)
Definition getPrecision (symbol : string) : M State SymbolPrecision :=
  cache ← gets symbolPrecision;
  match cache !! symbol with
  | Some prec => mret prec
  | None =>
      resp ← client_Get (baseURL ++ "/fapi/v3/exchangeInfo")%string;
      match resp with
      | TransportError e => fail e
      | Response _ body =>
          match decode_exchangeInfo env body with
          | inl e => fail e
          | inr info =>
              set_symbolPrecision (foldl cache_symbol cache info);;
              cache ← gets symbolPrecision;
              match cache !! symbol with
              | Some prec => mret prec
              | None => fail ("未找到交易對 " ++ symbol ++ " 的精度信息")%string
              end
          end
      end
  end.

(** [formatPrice]. *)
Definition formatPrice (symbol : string) (price : float) : M State float :=
  prec ← getPrecision symbol;
  if (TickSize prec >? f_int 0)%f64
  then mret (roundToTickSize price (TickSize prec))
  else
    let multiplier := math_Pow10 (PricePrecision prec) in
    mret (math_Round (price * multiplier) / multiplier)%f64.

(** [formatQuantity]. *)
Definition formatQuantity (symbol : string) (quantity : float) : M State float :=
  prec ← getPrecision symbol;
  if (StepSize prec >? f_int 0)%f64
  then mret (roundToTickSize quantity (StepSize prec))
  else
    let multiplier := math_Pow10 (QuantityPrecision prec) in
    mret (math_Round (quantity * multiplier) / multiplier)%f64.

(** [x.(string)] *)
Definition as_string (v : option value) : option string :=
  match v with Some (VStr s) => Some s | _ => None end.

(** The loop of [GetPositions] over the decoded answer; an unchecked
    [.(string)] on a field that is no string panics. *)
Fixpoint positions_loop (positions acc : list (gmap string value))
  : result (list (gmap string value)) :=
  match positions with
  | [] => Ok acc
  | pos :: rest =>
      match as_string (pos !! "positionAmt") with
      | None => positions_loop rest acc
      | Some posAmtStr =>
          let posAmt := ParseFloat env posAmtStr in
          if (posAmt =? f_int 0)%f64 then positions_loop rest acc
          else
            match as_string (pos !! "entryPrice"), as_string (pos !! "markPrice"),
                  as_string (pos !! "unRealizedProfit"), as_string (pos !! "leverage"),
                  as_string (pos !! "liquidationPrice") with
            | Some entryPrice, Some markPrice, Some unRealizedProfit,
              Some leverageVal, Some liquidationPrice =>
                let side := if (posAmt <? f_int 0)%f64 then "short" else "long" in
                let posAmt := if (posAmt <? f_int 0)%f64 then (- posAmt)%f64 else posAmt in
                positions_loop rest
                  (acc ++ [list_to_map
                     [("symbol", default VNil (pos !! "symbol"));
                      ("side", VStr side);
                      ("positionAmt", VNum posAmt);
                      ("entryPrice", VNum (ParseFloat env entryPrice));
                      ("markPrice", VNum (ParseFloat env markPrice));
                      ("unRealizedProfit", VNum (ParseFloat env unRealizedProfit));
                      ("leverage", VNum (ParseFloat env leverageVal));
                      ("liquidationPrice", VNum (ParseFloat env liquidationPrice))]])
            | _, _, _, _, _ => Panic
            end
      end
  end.

Definition lift {A} (r : result A) : M State A := fun s => (r, s).

(** [GetPositions]. *)
Definition GetPositions : M State (list (gmap string value)) :=
  params ← new_map ∅;
  body ← request "GET" "/fapi/v3/positionRisk" params;
  match decode_objects env body with
  | inl e => fail e
  | inr positions => lift (positions_loop positions [])
  end.

(** [SetLeverage]. *)
Definition SetLeverage (symbol : string) (leverage : Z) : M State unit :=
  params ← new_map (list_to_map [("symbol", VStr symbol); ("leverage", VInt leverage)]);
  request "POST" "/fapi/v3/leverage" params;;
  mret tt.

(** [CancelAllOrders]. *)
Definition CancelAllOrders (symbol : string) : M State unit :=
  params ← new_map (list_to_map [("symbol", VStr symbol)]);
  request "DELETE" "/fapi/v3/allOpenOrders" params;;
  mret tt.

Definition is_stop_type (orderType : string) : bool :=
  ((orderType =? "STOP_MARKET") || (orderType =? "TAKE_PROFIT_MARKET") ||
   (orderType =? "STOP") || (orderType =? "TAKE_PROFIT"))%string.

(** [orderType, _ := order["type"].(string)] and
    [orderID, _ := order["orderId"].(float64)]. *)
Definition orderType_of (order : gmap string value) : string :=
  match order !! "type" with Some (VStr s) => s | _ => "" end.
Definition orderID_of (order : gmap string value) : float :=
  match order !! "orderId" with Some (VNum x) => x | _ => 0%float end.

(** The parameters of the cancel call for one order. *)
Definition cancelParams_of (symbol : string) (order : gmap string value) : gmap string value :=
  list_to_map [("symbol", VStr symbol); ("orderId", VInt (int_of_float (orderID_of order)))].

(** The loop of [CancelStopOrders]; it carries [canceledCount]. *)
Fixpoint cancel_loop (symbol : string) (orders : list (gmap string value))
         (canceledCount : Z) : M State Z :=
  match orders with
  | [] => mret canceledCount
  | order :: rest =>
      if is_stop_type (orderType_of order) then
        cancelParams ← new_map (cancelParams_of symbol order);
        r ← try (request "DELETE" "/fapi/v3/order" cancelParams);
        match r with
        | inl _ => cancel_loop symbol rest canceledCount
        | inr _ => cancel_loop symbol rest (canceledCount + 1)%Z
        end
      else cancel_loop symbol rest canceledCount
  end.

(** [CancelStopOrders]. *)
Definition CancelStopOrders (symbol : string) : M State unit :=
  params ← new_map (list_to_map [("symbol", VStr symbol)]);
  r ← try (request "GET" "/fapi/v3/openOrders" params);
  match r with
  | inl e => fail ("獲取未完成訂單失敗: " ++ e)%string
  | inr body =>
      match decode_objects env body with
      | inl e => fail ("解析訂單數據失敗: " ++ e)%string
      | inr orders => cancel_loop symbol orders 0;; mret tt
      end
  end.

(** The open orders of [symbol] as [CancelStopOrders] comes to read them
    from state [s]: the decoded answer to its listing call, if there is one. *)
Definition open_orders_listed (symbol : string) (s : State)
  : option (list (gmap string value)) :=
  match (params ← new_map (list_to_map [("symbol", VStr symbol)]);
         request "GET" "/fapi/v3/openOrders" params) s with
  | (Ok body, _) =>
      match decode_objects env body with
      | inr orders => Some orders
      | inl _ => None
      end
  | _ => None
  end.

End Trader.

(** The orders [CancelStopOrders] cancels, and the logical call that
    cancels one. *)
Definition is_stop_order (order : gmap string value) : Prop :=
  is_stop_type (orderType_of order) = true.
Definition cancel_call (symbol : string) (order : gmap string value)
  : string * string * gmap string value :=
  ("DELETE", "/fapi/v3/order", cancelParams_of symbol order).

(** The order ids of the cancel calls among logical calls. *)
Definition cancel_id (call : string * string * gmap string value) : option Z :=
  let '(method, endpoint, params) := call in
  if ((method =? "DELETE") && (endpoint =? "/fapi/v3/order"))%string
  then match params !! "orderId" with Some (VInt id) => Some id | _ => None end
  else None.
Definition cancels (tr : list Event) : list Z := omap cancel_id (calls tr).

(** The wall clock never runs backwards. *)
Definition clock_monotone (env : Env) : Prop := forall tr, (0 <= elapse env tr)%Z.

(** A signing that starts from a map allocated after [h] was the heap,
    holding the caller's entries [original]. *)
Definition signing_of (h : gmap ref (gmap string value)) (original : gmap string value)
           (ev : Event) : Prop :=
  match ev with
  | Signing _ l c => c = original /\ l ∉ dom h
  | _ => True
  end.

(** A state with another heap. *)
Definition with_heap (s : State) (h : gmap ref (gmap string value)) : State :=
  mkState (symbolPrecision s) h (now s) (trace s).

(** The waits of a run of the loop that starts at [attempt]: [attempt] x 1 s,
    then [attempt + 1] x 1 s, and so on, none after the last attempt. *)
Definition backoff (attempt : Z) (waits : list Z) : Prop :=
  exists k : nat,
    waits = (fun a => a * 1000000)%Z <$> seqZ attempt (Z.of_nat k) /\
    (k = 0%nat \/ attempt + Z.of_nat k <= maxRetries)%Z.

(** What a run of the loop of [request] leaves behind. *)
Definition loop_post (env : Env) (p : ref) (original : gmap string value) (st st' : State)
           (r : result string) (new : list Event) (ts : list Z) : Prop :=
  trace st' = trace st ++ new /\
  heap st' !! p = Some original /\
  dom (heap st) ⊆ dom (heap st') /\
  nonces new = (fun t => t mod 2 ^ 64)%Z <$> ts /\
  calls new = [] /\
  Forall (signing_of (heap st) original) new /\
  each_exchange_signed new /\
  r <> Panic /\
  (clock_monotone env ->
   (now st <= now st')%Z /\ StronglySorted Z.lt ts /\
   Forall (fun t => now st <= t <= now st')%Z ts).

End Aster.

(** ** The Binance backend, [FuturesTrader] *)

Module Binance.

(** [futures.PositionRisk] and [futures.Order] of the SDK, the fields read. *)
Record PositionRisk := mkPositionRisk {
  pr_Symbol : string;
  pr_PositionAmt : string;
  pr_EntryPrice : string;
  pr_MarkPrice : string;
  pr_UnRealizedProfit : string;
  pr_Leverage : string;
  pr_LiquidationPrice : string
}.
Record Order := mkOrder {
  OrderID : Z;
  Type_ : string
}.

(** The SDK's order type constants. *)
Definition OrderTypeStopMarket : string := "STOP_MARKET".
Definition OrderTypeTakeProfitMarket : string := "TAKE_PROFIT_MARKET".
Definition OrderTypeStop : string := "STOP".
Definition OrderTypeTakeProfit : string := "TAKE_PROFIT".

(** The remote calls, and the pause after a leverage change. *)
Inductive Event : Type :=
| GetPositionRisk
| ChangeLeverage (symbol : string) (leverage : Z)
| ListOpenOrders (symbol : string)
| CancelOrder (symbol : string) (orderID : Z)
| Sleep (microseconds : Z).

Record State := mkState {
  cachedPositions : option (list (gmap string value));   (* [None]: the nil slice *)
  positionsCacheTime : Z;
  cacheDuration : Z;
  now : Z;
  trace : list Event
}.

(** The surroundings: what the venue answers to the call that ends the
    trace, by call, and how much time passes after an effect; and
    [strconv.ParseFloat]. *)
Record Env := mkEnv {
  positionRisk : list Event -> string + list PositionRisk;
  changeLeverage : list Event -> option string;
  listOpenOrders : list Event -> string + list Order;
  cancelOrder : list Event -> option string;
  elapse : list Event -> Z;
  ParseFloat : string -> float
}.

Section Trader.
Variable env : Env.

Definition duration (ev : Event) : Z :=
  match ev with Sleep d => d | _ => 0%Z end.

Definition emit (ev : Event) : M State unit := fun s =>
  let tr := trace s ++ [ev] in
  (Ok tt, mkState (cachedPositions s) (positionsCacheTime s) (cacheDuration s)
                  (now s + duration ev + elapse env tr) tr).

Definition of_sum {A} (r : string + A) : M State A :=
  match r with inl e => fail e | inr a => mret a end.
Definition of_error (r : option string) : M State unit :=
  match r with Some e => fail e | None => mret tt end.

(** One position of the loop of [GetPositions]. *)
Definition position_map (pos : PositionRisk) : option (gmap string value) :=
  let posAmt := ParseFloat env (pr_PositionAmt pos) in
  if (posAmt =? f_int 0)%f64 then None
  else Some (list_to_map
    [("symbol", VStr (pr_Symbol pos));
     ("positionAmt", VNum (ParseFloat env (pr_PositionAmt pos)));
     ("entryPrice", VNum (ParseFloat env (pr_EntryPrice pos)));
     ("markPrice", VNum (ParseFloat env (pr_MarkPrice pos)));
     ("unRealizedProfit", VNum (ParseFloat env (pr_UnRealizedProfit pos)));
     ("leverage", VNum (ParseFloat env (pr_Leverage pos)));
     ("liquidationPrice", VNum (ParseFloat env (pr_LiquidationPrice pos)));
     ("side", VStr (if (posAmt >? f_int 0)%f64 then "long" else "short"))]).

Definition set_cache (positions : list (gmap string value)) : M State unit := fun s =>
  (Ok tt, mkState (match positions with [] => None | _ => Some positions end)
                  (now s) (cacheDuration s) (now s) (trace s)).

(** [GetPositions], with its cache. *)
Definition GetPositions : M State (list (gmap string value)) :=
  cached ← gets cachedPositions;
  age ← gets (fun s => (now s - positionsCacheTime s)%Z);
  ttl ← gets cacheDuration;
  let fetch : M State (list (gmap string value)) :=
    emit GetPositionRisk;;
    answer ← gets (fun s => positionRisk env (trace s));
    match answer with
    | inl e => fail ("獲取持倉失敗: " ++ e)%string
    | inr positions =>
        let result := omap position_map positions in
        set_cache result;; mret result
    end in
  match cached with
  | Some positions => if (age <? ttl)%Z then mret positions else fetch
  | None => fetch
  end.

(** The loop of [SetLeverage] that reads the leverage of [symbol] off the
    position list. *)
Fixpoint currentLeverage_of (symbol : string) (positions : list (gmap string value)) : Z :=
  match positions with
  | [] => 0
  | pos :: rest =>
      match pos !! "symbol" with
      | Some (VStr s) =>
          if (s =? symbol)%string then
            match pos !! "leverage" with
            | Some (VNum lev) => int_of_float lev
            | _ => currentLeverage_of symbol rest
            end
          else currentLeverage_of symbol rest
      | _ => currentLeverage_of symbol rest
      end
  end.

(** The helper [contains]. *)
Definition contains (s substr : string) : bool :=
  (String.length substr <=? String.length s)%nat && strings_Contains s substr.

(** [SetLeverage]. *)
Definition SetLeverage (symbol : string) (leverage : Z) : M State unit :=
  r ← try GetPositions;
  let currentLeverage :=
    match r with
    | inr positions => currentLeverage_of symbol positions
    | inl _ => 0%Z
    end in
  if ((currentLeverage =? leverage) && (0 <? currentLeverage))%Z then mret tt
  else
    emit (ChangeLeverage symbol leverage);;
    answer ← gets (fun s => changeLeverage env (trace s));
    match answer with
    | Some e =>
        if contains e "No need to change" then mret tt
        else fail ("設置杠杆失敗: " ++ e)%string
    | None => emit (Sleep 5000000)
    end.

(** The leverage [SetLeverage] would read off the position list in state
    [s]: the last known leverage of [symbol], 0 when there is none. *)
Definition known_leverage (symbol : string) (s : State) : Z :=
  match (GetPositions s).1 with
  | Ok positions => currentLeverage_of symbol positions
  | _ => 0%Z
  end.

Definition is_stop_type (orderType : string) : bool :=
  ((orderType =? OrderTypeStopMarket) || (orderType =? OrderTypeTakeProfitMarket) ||
   (orderType =? OrderTypeStop) || (orderType =? OrderTypeTakeProfit))%string.

(** The loop of [CancelStopOrders]. *)
Fixpoint cancel_loop (symbol : string) (orders : list Order) (canceledCount : Z) : M State Z :=
  match orders with
  | [] => mret canceledCount
  | order :: rest =>
      if is_stop_type (Type_ order) then
        emit (CancelOrder symbol (OrderID order));;
        answer ← gets (fun s => cancelOrder env (trace s));
        match answer with
        | Some _ => cancel_loop symbol rest canceledCount
        | None => cancel_loop symbol rest (canceledCount + 1)%Z
        end
      else cancel_loop symbol rest canceledCount
  end.

(** [CancelStopOrders]. *)
Definition CancelStopOrders (symbol : string) : M State unit :=
  emit (ListOpenOrders symbol);;
  answer ← gets (fun s => listOpenOrders env (trace s));
  match answer with
  | inl e => fail ("獲取未完成訂單失敗: " ++ e)%string
  | inr orders => cancel_loop symbol orders 0;; mret tt
  end.

End Trader.

(** The orders [CancelStopOrders] cancels. *)
Definition is_stop_order (order : Order) : Prop := is_stop_type (Type_ order) = true.

(** The cache holds positions in the signed convention. *)
Definition cache_signed (st : State) : Prop :=
  forall ps, cachedPositions st = Some ps -> Forall signed_position ps.

(** The order ids of the cancel calls of a trace, and its leverage changes. *)
Definition cancels (tr : list Event) : list Z :=
  omap (fun ev => match ev with CancelOrder _ id => Some id | _ => None end) tr.
Definition leverage_changes (tr : list Event) : list (string * Z) :=
  omap (fun ev => match ev with ChangeLeverage s l => Some (s, l) | _ => None end) tr.

End Binance.

(** ** The Hyperliquid backend, [HyperliquidTrader] *)

Module Hyperliquid.

(** The position and open order of the SDK, the fields read. *)
Record Position := mkPosition {
  Coin : string;
  Szi : string;
  EntryPx : option string;
  LiquidationPx : option string;
  PositionValue : string;
  UnrealizedPnl : string;
  LeverageValue : Z
}.
Record OpenOrder := mkOpenOrder {
  order_Coin : string;
  Oid : Z
}.

Inductive Event : Type :=
| UserState
| UpdateLeverage (leverage : Z) (coin : string) (isCross : bool)
| OpenOrders
| Cancel (coin : string) (oid : Z).

Record State := mkState {
  trace : list Event
}.

(** The surroundings: what the venue answers to the call that ends the
    trace, by call; and [strconv.ParseFloat]. *)
Record Env := mkEnv {
  userState : list Event -> string + list Position;
  updateLeverage : list Event -> option string;
  openOrders : list Event -> string + list OpenOrder;
  ParseFloat : string -> float
}.

Section Trader.
Variable env : Env.

Definition emit (ev : Event) : M State unit := fun s =>
  (Ok tt, mkState (trace s ++ [ev])).

(** [convertSymbolToHyperliquid]. *)
Definition convertSymbolToHyperliquid (symbol : string) : string :=
  let n := String.length symbol in
  if ((4 <? n)%nat && (String.substring (n - 4) 4 symbol =? "USDT")%string)%bool
  then String.substring 0 (n - 4) symbol
  else symbol.

(** One position of the loop of [GetPositions]. *)
Definition position_map (position : Position) : option (gmap string value) :=
  let posAmt := ParseFloat env (Szi position) in
  if (posAmt =? f_int 0)%f64 then None
  else
    let entryPrice :=
      match EntryPx position with Some px => ParseFloat env px | None => f_int 0 end in
    let liquidationPx :=
      match LiquidationPx position with Some px => ParseFloat env px | None => f_int 0 end in
    let positionValue := ParseFloat env (PositionValue position) in
    let unrealizedPnl := ParseFloat env (UnrealizedPnl position) in
    let markPrice :=
      if (posAmt =? f_int 0)%f64 then f_int 0 else (positionValue / absFloat posAmt)%f64 in
    Some (list_to_map
      [("symbol", VStr (Coin position ++ "USDT"));
       ("side", VStr (if (posAmt >? f_int 0)%f64 then "long" else "short"));
       ("positionAmt", VNum (if (posAmt >? f_int 0)%f64 then posAmt else (- posAmt)%f64));
       ("entryPrice", VNum entryPrice);
       ("markPrice", VNum markPrice);
       ("unRealizedProfit", VNum unrealizedPnl);
       ("leverage", VNum (f_int (LeverageValue position)));
       ("liquidationPrice", VNum liquidationPx)]).

(** [GetPositions]. *)
Definition GetPositions : M State (list (gmap string value)) :=
  emit UserState;;
  answer ← gets (fun s => userState env (trace s));
  match answer with
  | inl e => fail ("獲取持倉失敗: " ++ e)%string
  | inr positions => mret (omap position_map positions)
  end.

(** [SetLeverage]. *)
Definition SetLeverage (symbol : string) (leverage : Z) : M State unit :=
  let coin := convertSymbolToHyperliquid symbol in
  emit (UpdateLeverage leverage coin false);;
  answer ← gets (fun s => updateLeverage env (trace s));
  match answer with
  | Some e => fail ("設置杠杆失敗: " ++ e)%string
  | None => mret tt
  end.

(** The loop of [CancelAllOrders]. *)
Fixpoint cancel_loop (coin : string) (orders : list OpenOrder) : M State unit :=
  match orders with
  | [] => mret tt
  | order :: rest =>
      if (order_Coin order =? coin)%string then
        emit (Cancel coin (Oid order));;
        cancel_loop coin rest
      else cancel_loop coin rest
  end.

(** [CancelAllOrders]. *)
Definition CancelAllOrders (symbol : string) : M State unit :=
  let coin := convertSymbolToHyperliquid symbol in
  emit OpenOrders;;
  answer ← gets (fun s => openOrders env (trace s));
  match answer with
  | inl e => fail ("獲取掛單失敗: " ++ e)%string
  | inr orders => cancel_loop coin orders
  end.

(** [CancelStopOrders]. *)
Definition CancelStopOrders (symbol : string) : M State unit :=
  CancelAllOrders symbol.

End Trader.

(** The orders of a coin. *)
Definition on_coin (coin : string) (order : OpenOrder) : Prop := order_Coin order = coin.

#[global] Instance on_coin_dec (coin : string) (order : OpenOrder) : Decision (on_coin coin order).
Proof. unfold on_coin. apply _. Defined.

(** The order ids of the cancel calls of a trace, and its leverage changes. *)
Definition cancels (tr : list Event) : list Z :=
  omap (fun ev => match ev with Cancel _ oid => Some oid | _ => None end) tr.
Definition leverage_changes (tr : list Event) : list (string * Z) :=
  omap (fun ev => match ev with UpdateLeverage l c _ => Some (c, l) | _ => None end) tr.

End Hyperliquid.

(** ** The result of rounding to five figures, and the scenarios *)

Section FiveFigures.
Local Open Scope R_scope.

(** What [roundPriceToSigfigs] makes of a positive price [p], without
    rounding error: for a multiplier [m] that is a power of ten and puts
    [p * m] in [[10^4, 10^5)] (the mantissa [p * m / 10^4] in [[1, 10)]), the
    result is [n / m] for the integer [n] nearest to [p * m], halves up;
    given fuel for the loops. *)
Definition five_figures_of (p : R) : Prop :=
  exists (fuel0 i j : nat) (m : R) (n : Z),
    m * 10 ^ j = 10 ^ i /\
    10 ^ 4 <= p * m < 10 ^ 5 /\
    (10 ^ 4 <= n <= 10 ^ 5)%Z /\
    p * m - / 2 < IZR n <= p * m + / 2 /\
    0 < IZR n / m /\
    10 ^ 4 / m <= IZR n / m <= 10 ^ 5 / m /\
    Rabs (IZR n / m - p) <= / 2 / m /\
    forall fuel, (fuel0 <= fuel)%nat ->
      normalise fuel p = Some (p * m / 10 ^ 4, m / 10 ^ 4) /\
      roundPriceToSigfigs fuel p = Returns (IZR n / m).

End FiveFigures.

Section Scenarios.

(** A venue whose every exchange dies in the transport with a timeout, a
    venue that answers every exchange with a 504 whose body speaks of a
    timeout, a venue that answers every exchange with a 400, and a trader
    that holds one parameter map. *)
Definition timing_out : Aster.Env :=
  Aster.mkEnv "0xUser" "0xSigner"
    (fun _ => TransportError "dial tcp: i/o timeout") (fun _ => 0%Z)
    (fun _ => 0%float) (fun _ => "") (fun _ => "{}")
    (fun _ => inl "unexpected end of JSON input")
    (fun _ => inl "unexpected end of JSON input")
    (fun _ _ _ _ => inr "0xsig").
Definition answering_504 : Aster.Env :=
  Aster.mkEnv "0xUser" "0xSigner"
    (fun _ => Response 504 "upstream request timeout") (fun _ => 0%Z)
    (fun _ => 0%float) (fun _ => "") (fun _ => "{}")
    (fun _ => inl "unexpected end of JSON input")
    (fun _ => inl "unexpected end of JSON input")
    (fun _ _ _ _ => inr "0xsig").
Definition answering_400 : Aster.Env :=
  Aster.mkEnv "0xUser" "0xSigner"
    (fun _ => Response 400 "bad request") (fun _ => 0%Z)
    (fun _ => 0%float) (fun _ => "") (fun _ => "{}")
    (fun _ => inl "unexpected end of JSON input")
    (fun _ => inl "unexpected end of JSON input")
    (fun _ _ _ _ => inr "0xsig").
Definition one_order : Aster.State :=
  Aster.mkState ∅ {[ 0%nat := list_to_map [("symbol", VStr "BTCUSDT")] ]}
                1700000000000000 [].

(** A Hyperliquid account with three open orders on BTC: a resting limit
    order (1), a stop-market order (2) and a take-profit-market order (3). *)
Definition three_open_orders : Hyperliquid.Env :=
  Hyperliquid.mkEnv
    (fun _ => inr [])
    (fun _ => None)
    (fun _ => inr [Hyperliquid.mkOpenOrder "BTC" 1; Hyperliquid.mkOpenOrder "BTC" 2;
                   Hyperliquid.mkOpenOrder "BTC" 3])
    (fun _ => 0%float).

(** [strconv.ParseFloat] on the few strings of the scenarios below. *)
Definition parse_few (s : string) : float :=
  if (s =? "0.1")%string then 0.1%float
  else if (s =? "-0.5")%string then (-0.5)%float
  else if (s =? "3")%string then 3%float
  else if (s =? "50000")%string then 50000%float
  else 0%float.

(** A Binance account that holds 0.1 BTCUSDT at leverage 3 and accepts
    every leverage change; the trader starts with an empty cache of 15 s. *)
Definition long_at_3 : Binance.Env :=
  Binance.mkEnv
    (fun _ => inr [Binance.mkPositionRisk "BTCUSDT" "0.1" "50000" "50000" "0" "3" "0"])
    (fun _ => None) (fun _ => inr []) (fun _ => None) (fun _ => 0%Z) parse_few.
Definition fresh_trader : Binance.State := Binance.mkState None 0 15000000 1000000000 [].

(** An Aster venue that answers every exchange with 200. *)
Definition answering_200 : Aster.Env :=
  Aster.mkEnv "0xUser" "0xSigner"
    (fun _ => Response 200 "{}") (fun _ => 0%Z)
    parse_few (fun _ => "") (fun _ => "{}")
    (fun _ => inl "unexpected end of JSON input")
    (fun _ => inl "unexpected end of JSON input")
    (fun _ _ _ _ => inr "0xsig").
Definition no_maps : Aster.State := Aster.mkState ∅ ∅ 1700000000000000 [].

(** A Binance account that is short 0.5 BTCUSDT. *)
Definition short_half : Binance.Env :=
  Binance.mkEnv
    (fun _ => inr [Binance.mkPositionRisk "BTCUSDT" "-0.5" "50000" "50000" "0" "3" "0"])
    (fun _ => None) (fun _ => inr []) (fun _ => None) (fun _ => 0%Z) parse_few.

End Scenarios.

(** ** Subtraction on the interface *)

(** [x - y] on the interface: on binary64, and on the reals, the sum of [x]
    and the opposite of [y]. *)
Definition f_sub `{Float64 F} (x y : F) : F := (x + - y)%f64.
Notation "x - y" := (f_sub x y) : f64_scope.

(** ** The precision helpers of [interface.go] *)

Module Precision.

(** [s[:len(s)-1]] and [s[len(s)-1]]. *)
Fixpoint drop_last (s : string) : string :=
  match s with
  | EmptyString => EmptyString
  | String c EmptyString => EmptyString
  | String c s' => String c (drop_last s')
  end.
Fixpoint last_byte (s : string) : option ascii :=
  match s with
  | EmptyString => None
  | String c EmptyString => Some c
  | String _ s' => last_byte s'
  end.

(** The loop of [stringContains], [for i := 0; i <= len(s)-len(substr); i++];
    [n] counts the iterations left. *)
Fixpoint stringContains_loop (n i : nat) (s substr : string) : bool :=
  match n with
  | O => false
  | S n' =>
      if (String.substring i (String.length substr) s =? substr)%string then true
      else stringContains_loop n' (S i) s substr
  end.

(** [stringContains]. *)
Definition stringContains (s substr : string) : bool :=
  stringContains_loop
    (Z.to_nat (Z.of_nat (String.length s) - Z.of_nat (String.length substr) + 1)) 0 s substr.

(** [for len(s) > 0 && s[len(s)-1] == '0' { s = s[:len(s)-1] }] *)
Fixpoint trim_zeros (fuel : nat) (s : string) : string :=
  match fuel with
  | O => s
  | S fuel' =>
      match last_byte s with
      | Some "0"%char => trim_zeros fuel' (drop_last s)
      | _ => s
      end
  end.

(** [trimTrailingZeros]. *)
Definition trimTrailingZeros (s : string) : string :=
  if negb (stringContains s ".") then s
  else
    let s := trim_zeros (String.length s) s in
    match last_byte s with
    | Some "."%char => drop_last s
    | _ => s
    end.

(** The loop of [calculatePrecision] that looks for the decimal point. *)
Fixpoint dotIndex_loop (n i : nat) (stepSize : string) : Z :=
  match n with
  | O => (-1)%Z
  | S n' =>
      match String.get i stepSize with
      | Some "."%char => Z.of_nat i
      | _ => dotIndex_loop n' (S i) stepSize
      end
  end.

(** [calculatePrecision]. *)
Definition calculatePrecision (stepSize : string) : Z :=
  let stepSize := trimTrailingZeros stepSize in
  let dotIndex := dotIndex_loop (String.length stepSize) 0 stepSize in
  if ((dotIndex =? -1) || (dotIndex =? Z.of_nat (String.length stepSize) - 1))%Z then 0%Z
  else (Z.of_nat (String.length stepSize) - dotIndex - 1)%Z.

End Precision.

(** A run of [k] zeros. *)
Fixpoint zeros (k : nat) : string :=
  match k with O => EmptyString | S k' => String "0" (zeros k') end.

(** [c] does not occur in [s]. *)
Fixpoint without (c : ascii) (s : string) : Prop :=
  match s with
  | EmptyString => True
  | String c' s' => c' <> c /\ without c s'
  end.

(** ** The decision engine: reading the answer of the model *)

Module Engine.

(** The loop of [findMatchingBracket], [for i := start; i < len(s); i++];
    [n] counts the iterations left. *)
Fixpoint bracket_loop (n i : nat) (depth : Z) (s : string) : Z :=
  match n with
  | O => (-1)%Z
  | S n' =>
      match String.get i s with
      | Some "["%char => bracket_loop n' (S i) (depth + 1)%Z s
      | Some "]"%char =>
          let depth := (depth - 1)%Z in
          if (depth =? 0)%Z then Z.of_nat i else bracket_loop n' (S i) depth s
      | _ => bracket_loop n' (S i) depth s
      end
  end.

(** [findMatchingBracket]; [s[start]] with a negative [start] panics. *)
Definition findMatchingBracket (s : string) (start : Z) : result Z :=
  if (Z.of_nat (String.length s) <=? start)%Z then Ok (-1)%Z
  else if (start <? 0)%Z then Panic
  else
    match String.get (Z.to_nat start) s with
    | Some "["%char =>
        Ok (bracket_loop (String.length s - Z.to_nat start) (Z.to_nat start) 0 s)
    | _ => Ok (-1)%Z
    end.

End Engine.

(** The opening brackets of [s] less its closing brackets. *)
Fixpoint depth_of (s : string) : Z :=
  match s with
  | EmptyString => 0
  | String "[" s' => 1 + depth_of s'
  | String "]" s' => -1 + depth_of s'
  | String _ s' => depth_of s'
  end.

Module Validation.

(** [decision.Decision], over the arithmetic [F]. *)
Record Decision (F : Type) := mkDecision {
  Symbol : string;
  Action : string;
  Leverage : Z;
  PositionSizeUSD : F;
  StopLoss : F;
  TakeProfit : F;
  Confidence : Z;
  RiskUSD : F;
  Reasoning : string
}.
Arguments mkDecision {F}.
Arguments Symbol {F}.
Arguments Action {F}.
Arguments Leverage {F}.
Arguments PositionSizeUSD {F}.
Arguments StopLoss {F}.
Arguments TakeProfit {F}.
Arguments Confidence {F}.
Arguments RiskUSD {F}.
Arguments Reasoning {F}.

(** The map literal [validActions] of [validateDecision]. *)
Definition validActions : gmap string bool :=
  list_to_map [("open_long", true); ("open_short", true); ("close_long", true);
               ("close_short", true); ("update_stop_loss", true);
               ("update_take_profit", true); ("hold", true); ("wait", true)].

Section Validate.
Context {F : Type} `{Float64 F}.
(** [fmt.Sprintf("%.Nf", x)]. *)
Variable fmt_f : nat -> F -> string.
Local Open Scope f64_scope.

(** [validateDecision]; [None] is the [nil] error. *)
Definition validateDecision (d : Decision F) (accountEquity : F)
           (btcEthLeverage altcoinLeverage : Z) : option string :=
  if negb (default false (validActions !! Action d)) then
    Some ("無效的action: " ++ Action d)%string
  else if ((Action d =? "update_stop_loss")%string && (StopLoss d <=? f_int 0)) then
    Some "更新止損時必須提供新的止損價格"
  else if ((Action d =? "update_take_profit")%string && (TakeProfit d <=? f_int 0)) then
    Some "更新止盈時必須提供新的止盈價格"
  else if ((Action d =? "open_long") || (Action d =? "open_short"))%string then
    let major := ((Symbol d =? "BTCUSDT") || (Symbol d =? "ETHUSDT"))%string in
    let maxLeverage := if major then btcEthLeverage else altcoinLeverage in
    let maxPositionValue :=
      if major then accountEquity * f_int 10 else accountEquity * f_dec 15 1 in
    if ((Leverage d <=? 0) || (maxLeverage <? Leverage d))%Z then
      Some ("杠杆必須在1-" ++ pretty maxLeverage ++ "之間（" ++ Symbol d
            ++ "，當前配置上限" ++ pretty maxLeverage ++ "倍）: " ++ pretty (Leverage d))%string
    else if PositionSizeUSD d <=? f_int 0 then
      Some ("倉位大小必須大於0: " ++ fmt_f 2 (PositionSizeUSD d))%string
    else
      let tolerance := maxPositionValue * f_dec 1 2 in
      if PositionSizeUSD d >? maxPositionValue + tolerance then
        if major then
          Some ("BTC/ETH單幣種倉位價值不能超過" ++ fmt_f 0 maxPositionValue
                ++ " USDT（10倍賬戶淨值），實際: " ++ fmt_f 0 (PositionSizeUSD d))%string
        else
          Some ("山寨幣單幣種倉位價值不能超過" ++ fmt_f 0 maxPositionValue
                ++ " USDT（1.5倍賬戶淨值），實際: " ++ fmt_f 0 (PositionSizeUSD d))%string
      else if (StopLoss d <=? f_int 0) || (TakeProfit d <=? f_int 0) then
        Some "止損和止盈必須大於0"
      else if ((Action d =? "open_long")%string && (StopLoss d >=? TakeProfit d)) then
        Some "做多時止損價必須小於止盈價"
      else if (negb (Action d =? "open_long")%string && (StopLoss d <=? TakeProfit d)) then
        Some "做空時止損價必須大於止盈價"
      else
        let entryPrice :=
          if (Action d =? "open_long")%string
          then StopLoss d + (TakeProfit d - StopLoss d) * f_dec 2 1
          else StopLoss d - (StopLoss d - TakeProfit d) * f_dec 2 1 in
        let riskPercent :=
          if (Action d =? "open_long")%string
          then (entryPrice - StopLoss d) / entryPrice * f_int 100
          else (StopLoss d - entryPrice) / entryPrice * f_int 100 in
        let rewardPercent :=
          if (Action d =? "open_long")%string
          then (TakeProfit d - entryPrice) / entryPrice * f_int 100
          else (entryPrice - TakeProfit d) / entryPrice * f_int 100 in
        let riskRewardRatio :=
          if riskPercent >? f_int 0 then rewardPercent / riskPercent else f_int 0 in
        if riskRewardRatio <? f_int 3 then
          Some ("風險回報比過低(" ++ fmt_f 2 riskRewardRatio ++ ":1)，必須≧3.0:1 [風險:"
                ++ fmt_f 2 riskPercent ++ "% 收益:" ++ fmt_f 2 rewardPercent
                ++ "%] [止損:" ++ fmt_f 2 (StopLoss d) ++ " 止盈:"
                ++ fmt_f 2 (TakeProfit d) ++ "]")%string
        else None
  else None.

(** The loop of [validateDecisions]; [i] is the index of the first
    decision of [decisions]. *)
Fixpoint validate_loop (i : Z) (decisions : list (Decision F)) (accountEquity : F)
         (btcEthLeverage altcoinLeverage : Z) : option string :=
  match decisions with
  | [] => None
  | decision :: rest =>
      match validateDecision decision accountEquity btcEthLeverage altcoinLeverage with
      | Some err => Some ("決策 #" ++ pretty (i + 1)%Z ++ " 驗證失敗: " ++ err)%string
      | None => validate_loop (i + 1) rest accountEquity btcEthLeverage altcoinLeverage
      end
  end.

(** [validateDecisions]. *)
Definition validateDecisions (decisions : list (Decision F)) (accountEquity : F)
           (btcEthLeverage altcoinLeverage : Z) : option string :=
  validate_loop 0 decisions accountEquity btcEthLeverage altcoinLeverage.

End Validate.
End Validation.

(** What [validateDecision] asks of a decision, in exact arithmetic. *)
Definition admissible (d : Validation.Decision R) (accountEquity : R)
           (btcEthLeverage altcoinLeverage : Z) : Prop :=
  let a := Validation.Action d in
  let major := Validation.Symbol d = "BTCUSDT" \/ Validation.Symbol d = "ETHUSDT" in
  (a = "close_long" \/ a = "close_short" \/ a = "hold" \/ a = "wait") \/
  (a = "update_stop_loss" /\ (0 < Validation.StopLoss d)%R) \/
  (a = "update_take_profit" /\ (0 < Validation.TakeProfit d)%R) \/
  ((a = "open_long" \/ a = "open_short") /\
   (exists maxLeverage cap,
       (major /\ maxLeverage = btcEthLeverage /\ cap = 10%R \/
        ~ major /\ maxLeverage = altcoinLeverage /\ cap = (15 / 10)%R) /\
       (1 <= Validation.Leverage d <= maxLeverage)%Z /\
       (0 < Validation.PositionSizeUSD d <= accountEquity * cap * (101 / 100))%R) /\
   (0 < Validation.StopLoss d)%R /\ (0 < Validation.TakeProfit d)%R /\
   (a = "open_long" -> (Validation.StopLoss d < Validation.TakeProfit d)%R) /\
   (a = "open_short" -> (Validation.TakeProfit d < Validation.StopLoss d)%R)).

(** [strings.Index]: the index of the first instance of [substr] in [s],
    [-1] when there is none. *)
Fixpoint strings_Index (s substr : string) : Z :=
  if String.prefix substr s then 0%Z
  else
    match s with
    | EmptyString => (-1)%Z
    | String _ s' =>
        let i := strings_Index s' substr in
        if (i <? 0)%Z then (-1)%Z else (i + 1)%Z
    end.

(** [strings.ReplaceAll] for a non-empty [old]: the instances of [old]
    found from left to right, none overlapping another, are replaced by
    [new]. [skip] counts the bytes of a replaced instance still to pass. *)
Fixpoint replace_from (skip : nat) (s old new : string) : string :=
  match s with
  | EmptyString => EmptyString
  | String c s' =>
      match skip with
      | S k => replace_from k s' old new
      | O =>
          if String.prefix old s
          then (new ++ replace_from (String.length old - 1) s' old new)%string
          else String c (replace_from 0 s' old new)
      end
  end.
Definition strings_ReplaceAll (s old new : string) : string := replace_from 0 s old new.

(** [strings.TrimSpace], as Go's library computes it: the ASCII white space
    at either end is cut; at the first byte of a multi-byte rune it hands
    over to the Unicode-aware [TrimFunc] and [TrimRightFunc]. *)
Definition asciiSpace (c : ascii) : bool :=
  ((c =? "009") || (c =? "010") || (c =? "011") || (c =? "012") || (c =? "013")
   || (c =? " "))%char.
Definition RuneSelf (c : ascii) : bool := (128 <=? nat_of_ascii c)%nat.

Section TrimSpace.
Variable TrimFunc_IsSpace TrimRightFunc_IsSpace : string -> string.

Fixpoint trim_stop (fuel : nat) (s : string) : string :=
  match fuel with
  | O => s
  | S fuel' =>
      match Precision.last_byte s with
      | None => s
      | Some c =>
          if RuneSelf c then TrimRightFunc_IsSpace s
          else if asciiSpace c then trim_stop fuel' (Precision.drop_last s)
               else s
      end
  end.

Fixpoint trim_start (s : string) : string :=
  match s with
  | EmptyString => EmptyString
  | String c s' =>
      if RuneSelf c then TrimFunc_IsSpace s
      else if asciiSpace c then trim_start s'
           else trim_stop (String.length s) s
  end.

Definition strings_TrimSpace (s : string) : string := trim_start s.

End TrimSpace.

Module Extraction_.

(** [fixMissingQuotes]: the curly quotes U+201C, U+201D, U+2018, U+2019
    (three bytes each in UTF-8) become the ASCII quotes. *)
Definition fixMissingQuotes (jsonStr : string) : string :=
  let jsonStr := strings_ReplaceAll jsonStr "“" (String "034" EmptyString) in
  let jsonStr := strings_ReplaceAll jsonStr "”" (String "034" EmptyString) in
  let jsonStr := strings_ReplaceAll jsonStr "‘" "'" in
  let jsonStr := strings_ReplaceAll jsonStr "’" "'" in
  jsonStr.

(** [decision.FullDecision], the fields [parseFullDecisionResponse] fills. *)
Record FullDecision (F : Type) := mkFullDecision {
  CoTTrace : string;
  Decisions : list (Validation.Decision F)
}.
Arguments mkFullDecision {F}.
Arguments CoTTrace {F}.
Arguments Decisions {F}.

Section Parse.
Context {F : Type} `{Float64 F}.
(** The Unicode branches of [strings.TrimSpace], [json.Unmarshal] into a
    [[]Decision] (the error's text, or the slice), and [%.Nf]. *)
Variable TrimFunc_IsSpace TrimRightFunc_IsSpace : string -> string.
Variable json_Unmarshal : string -> string + list (Validation.Decision F).
Variable fmt_f : nat -> F -> string.

Definition TrimSpace : string -> string :=
  strings_TrimSpace TrimFunc_IsSpace TrimRightFunc_IsSpace.

(** [extractCoTTrace]. *)
Definition extractCoTTrace (response : string) : string :=
  let jsonStart := strings_Index response "[" in
  if (0 <? jsonStart)%Z
  then TrimSpace (String.substring 0 (Z.to_nat jsonStart) response)
  else TrimSpace response.

(** [extractDecisions]. *)
Definition extractDecisions (response : string) : result (list (Validation.Decision F)) :=
  let arrayStart := strings_Index response "[" in
  if (arrayStart =? -1)%Z then Err "無法找到JSON數組起始"
  else
    match Engine.findMatchingBracket response arrayStart with
    | Ok arrayEnd =>
        if (arrayEnd =? -1)%Z then Err "無法找到JSON數組結束"
        else
          let jsonContent :=
            TrimSpace (String.substring (Z.to_nat arrayStart)
                                        (Z.to_nat (arrayEnd + 1 - arrayStart)) response) in
          let jsonContent := fixMissingQuotes jsonContent in
          match json_Unmarshal jsonContent with
          | inl err => Err ("JSON解析失敗: " ++ err ++ "
JSON內容: " ++ jsonContent)%string
          | inr decisions => Ok decisions
          end
    | Err e => Err e
    | Panic => Panic
    end.

(** [parseFullDecisionResponse]: the decision it returns, and its error. *)
Definition parseFullDecisionResponse (aiResponse : string) (accountEquity : F)
           (btcEthLeverage altcoinLeverage : Z) : result (FullDecision F * option string) :=
  let cotTrace := extractCoTTrace aiResponse in
  match extractDecisions aiResponse with
  | Panic => Panic
  | Err err =>
      Ok (mkFullDecision cotTrace [],
          Some ("提取決策失敗: " ++ err ++ "

=== AI思維鏈分析 ===
" ++ cotTrace)%string)
  | Ok decisions =>
      match Validation.validateDecisions fmt_f decisions accountEquity
                                         btcEthLeverage altcoinLeverage with
      | Some err =>
          Ok (mkFullDecision cotTrace decisions,
              Some ("決策驗證失敗: " ++ err ++ "

=== AI思維鏈分析 ===
" ++ cotTrace)%string)
      | None => Ok (mkFullDecision cotTrace decisions, None)
      end
  end.

End Parse.

End Extraction_.

(** The three bytes of a curly quote. *)
Definition three (a b c : ascii) : string := String a (String b (String c EmptyString)).

(** ** What the callers of the backends share *)

(** [pos[key].(string)] and [pos[key].(float64)]: a panic when the value is
    of another type. *)
Definition must_string (pos : gmap string value) (key : string) : result string :=
  match pos !! key with Some (VStr s) => Ok s | _ => Panic end.
Definition must_float (pos : gmap string value) (key : string) : result float :=
  match pos !! key with Some (VNum x) => Ok x | _ => Panic end.

(** [pos[key] == s], an interface compared with a string. *)
Definition holds (pos : gmap string value) (key s : string) : bool :=
  match pos !! key with Some (VStr s') => (s' =? s)%string | _ => false end.

(** A value computed without the state; a panic among them. *)
Definition lift_result {St A} (r : result A) : M St A := fun s => (r, s).

(** ** The [AutoTrader] of [auto_trader.go] *)

Module Auto.

(** What the backends put under a key of an order map: a [string], an
    [int], an [int64], a [float64], a [bool], or nothing. *)
Inductive any : Type :=
| AString (s : string)
| AInt (z : Z)
| AInt64 (z : Z)
| AFloat64 (x : float)
| ABool (b : bool)
| ANil.

(** The [Trader] interface, over the state [S] of what lies outside the
    [AutoTrader]: the venue, the market data, the coin pool, the clock. *)
Record Trader (S : Type) : Type := mkTrader {
  GetBalance : M S (gmap string value);
  GetPositions : M S (list (gmap string value));
  OpenLong : string -> float -> Z -> M S (gmap string any);
  OpenShort : string -> float -> Z -> M S (gmap string any);
  CloseLong : string -> float -> M S (gmap string any);
  CloseShort : string -> float -> M S (gmap string any);
  SetLeverage : string -> Z -> M S unit;
  GetMarketPrice : string -> M S float;
  SetStopLoss : string -> string -> float -> float -> M S unit;
  SetTakeProfit : string -> string -> float -> float -> M S unit;
  CancelAllOrders : string -> M S unit;
  CancelStopOrders : string -> M S unit;
  FormatQuantity : string -> float -> M S string
}.
Arguments GetBalance {S}.
Arguments GetPositions {S}.
Arguments OpenLong {S}.
Arguments OpenShort {S}.
Arguments CloseLong {S}.
Arguments CloseShort {S}.
Arguments SetLeverage {S}.
Arguments GetMarketPrice {S}.
Arguments SetStopLoss {S}.
Arguments SetTakeProfit {S}.
Arguments CancelAllOrders {S}.
Arguments CancelStopOrders {S}.
Arguments FormatQuantity {S}.

(** [logger.DecisionAction]; the time as milliseconds. *)
Record DecisionAction := mkDecisionAction {
  da_Action : string;
  da_Symbol : string;
  da_Quantity : float;
  da_Leverage : Z;
  da_Price : float;
  da_OrderID : Z;
  da_Timestamp : Z;
  da_Success : bool;
  da_Error : string
}.

(** [decision.PositionInfo]. *)
Record PositionInfo := mkPositionInfo {
  pi_Symbol : string;
  pi_Side : string;
  pi_EntryPrice : float;
  pi_MarkPrice : float;
  pi_Quantity : float;
  pi_Leverage : Z;
  pi_UnrealizedPnL : float;
  pi_UnrealizedPnLPct : float;
  pi_LiquidationPrice : float;
  pi_MarginUsed : float;
  pi_UpdateTime : Z
}.

(** [decision.AccountInfo], [decision.CandidateCoin] and
    [decision.Context]; [P] is the type of the performance analysis. *)
Record AccountInfo := mkAccountInfo {
  TotalEquity : float;
  AvailableBalance : float;
  TotalPnL : float;
  TotalPnLPct : float;
  MarginUsed : float;
  MarginUsedPct : float;
  PositionCount : Z
}.
Record CandidateCoin := mkCandidateCoin {
  cc_Symbol : string;
  cc_Sources : list string
}.
Record Context (P : Type) : Type := mkContext {
  CurrentTime : string;
  RuntimeMinutes : Z;
  CallCount : Z;
  Account : AccountInfo;
  Positions : list PositionInfo;
  CandidateCoins : list CandidateCoin;
  Performance : option P;
  BTCETHLeverage : Z;
  AltcoinLeverage : Z
}.
Arguments mkContext {P}.
Arguments Positions {P}.
Arguments Account {P}.
Arguments CandidateCoins {P}.

(** The fields of the [AutoTrader] that its methods only read. *)
Record Fields := mkFields {
  initialBalance : float;
  callCount : Z;
  config_BTCETHLeverage : Z;
  config_AltcoinLeverage : Z
}.

(** The fields of the [AutoTrader] that its methods write, the record
    [*actionRecord] they are handed, and the world outside. *)
Record State (S : Type) : Type := mkState {
  world : S;
  positionFirstSeenTime : gmap string Z;
  actionRecord : DecisionAction
}.
Arguments mkState {S}.
Arguments world {S}.
Arguments positionFirstSeenTime {S}.
Arguments actionRecord {S}.

Section AutoTrader.
Context {S : Type}.
Variable trader : Trader S.
(** [market.Get(symbol)], of which only [CurrentPrice] is read here, and
    [time.Now().UnixMilli()]. *)
Variable market_Get : string -> M S float.
Variable UnixMilli : M S Z.
Local Open Scope f64_scope.

(** A call into the world outside. *)
Definition outside {A} (m : M S A) : M (State S) A := fun s =>
  let (r, w) := m (world s) in
  (r, mkState w (positionFirstSeenTime s) (actionRecord s)).

Definition set_actionRecord (f : DecisionAction -> DecisionAction) : M (State S) unit :=
  fun s => (Ok tt, mkState (world s) (positionFirstSeenTime s) (f (actionRecord s))).
Definition set_firstSeen (f : gmap string Z -> gmap string Z) : M (State S) unit :=
  fun s => (Ok tt, mkState (world s) (f (positionFirstSeenTime s)) (actionRecord s)).

(** [leverage := 10; if lev, ok := pos["leverage"].(float64); ok { leverage = int(lev) }] *)
Definition leverage_of (pos : gmap string value) : Z :=
  match pos !! "leverage" with Some (VNum lev) => int_of_float lev | _ => 10%Z end.

(** The body of the loop of [AutoTrader.GetPositions]. *)
Definition api_position (pos : gmap string value) : result (gmap string value) :=
  match must_string pos "symbol", must_string pos "side", must_float pos "entryPrice",
        must_float pos "markPrice", must_float pos "positionAmt" with
  | Ok symbol, Ok side, Ok entryPrice, Ok markPrice, Ok quantity =>
      let quantity := if quantity <? f_int 0 then - quantity else quantity in
      match must_float pos "unRealizedProfit", must_float pos "liquidationPrice" with
      | Ok unrealizedPnl, Ok liquidationPrice =>
          let leverage := leverage_of pos in
          let pnlPct :=
            if (side =? "long")%string
            then (markPrice - entryPrice) / entryPrice * f_int leverage * f_int 100
            else (entryPrice - markPrice) / entryPrice * f_int leverage * f_int 100 in
          let marginUsed := quantity * markPrice / f_int leverage in
          Ok (list_to_map
                [("symbol", VStr symbol); ("side", VStr side);
                 ("entry_price", VNum entryPrice); ("mark_price", VNum markPrice);
                 ("quantity", VNum quantity); ("leverage", VInt leverage);
                 ("unrealized_pnl", VNum unrealizedPnl);
                 ("unrealized_pnl_pct", VNum pnlPct);
                 ("liquidation_price", VNum liquidationPrice);
                 ("margin_used", VNum marginUsed)])
      | _, _ => Panic
      end
  | _, _, _, _, _ => Panic
  end.

Fixpoint api_positions (positions : list (gmap string value))
  : result (list (gmap string value)) :=
  match positions with
  | [] => Ok []
  | pos :: rest =>
      match api_position pos with
      | Ok m =>
          match api_positions rest with
          | Ok ms => Ok (m :: ms)
          | Err e => Err e
          | Panic => Panic
          end
      | Err e => Err e
      | Panic => Panic
      end
  end.

(** [AutoTrader.GetPositions]. *)
Definition GetPositions_api : M S (list (gmap string value)) :=
  r ← try (GetPositions trader);
  match r with
  | inl err => fail ("獲取持倉失敗: " ++ err)%string
  | inr positions => lift_result (api_positions positions)
  end.

(** [if orderID, ok := order["orderId"].(int64); ok { actionRecord.OrderID = orderID }] *)
Definition record_orderID (order : gmap string any) : M (State S) unit :=
  match order !! "orderId" with
  | Some (AInt64 orderID) =>
      set_actionRecord (fun r =>
        mkDecisionAction (da_Action r) (da_Symbol r) (da_Quantity r) (da_Leverage r)
                         (da_Price r) orderID (da_Timestamp r) (da_Success r) (da_Error r))
  | _ => mret tt
  end.

Definition record_price (price : float) : M (State S) unit :=
  set_actionRecord (fun r =>
    mkDecisionAction (da_Action r) (da_Symbol r) (da_Quantity r) (da_Leverage r)
                     price (da_OrderID r) (da_Timestamp r) (da_Success r) (da_Error r)).
Definition record_quantity (quantity : float) : M (State S) unit :=
  set_actionRecord (fun r =>
    mkDecisionAction (da_Action r) (da_Symbol r) quantity (da_Leverage r)
                     (da_Price r) (da_OrderID r) (da_Timestamp r) (da_Success r) (da_Error r)).

(** The position check of the two opening methods: whether the list holds
    a position of the symbol on that side; a failed query counts as none. *)
Definition already_open (symbol side : string) (r : string + list (gmap string value)) : bool :=
  match r with
  | inr positions =>
      existsb (fun pos => holds pos "symbol" symbol && holds pos "side" side) positions
  | inl _ => false
  end.

(** [executeOpenLongWithRecord]. *)
Definition executeOpenLongWithRecord (decision : Sequencer.Decision) : M (State S) unit :=
  let symbol := Sequencer.Symbol decision in
  r ← try (outside (GetPositions trader));
  if already_open symbol "long" r then
    fail ("❌ " ++ symbol
          ++ " 已有多倉，拒絕開倉以防止倉位疊加超限。如需換倉，請先給出 close_long 決策")%string
  else
    currentPrice ← outside (market_Get symbol);
    let quantity := Sequencer.PositionSizeUSD decision / currentPrice in
    record_quantity quantity;;
    record_price currentPrice;;
    order ← outside (OpenLong trader symbol quantity (Sequencer.Leverage decision));
    record_orderID order;;
    now ← outside UnixMilli;
    set_firstSeen (insert (symbol ++ "_long")%string now);;
    try (outside (SetStopLoss trader symbol "LONG" quantity (Sequencer.StopLoss decision)));;
    try (outside (SetTakeProfit trader symbol "LONG" quantity (Sequencer.TakeProfit decision)));;
    mret tt.

(** [executeOpenShortWithRecord]. *)
Definition executeOpenShortWithRecord (decision : Sequencer.Decision) : M (State S) unit :=
  let symbol := Sequencer.Symbol decision in
  r ← try (outside (GetPositions trader));
  if already_open symbol "short" r then
    fail ("❌ " ++ symbol
          ++ " 已有空倉，拒絕開倉以防止倉位疊加超限。如需換倉，請先給出 close_short 決策")%string
  else
    currentPrice ← outside (market_Get symbol);
    let quantity := Sequencer.PositionSizeUSD decision / currentPrice in
    record_quantity quantity;;
    record_price currentPrice;;
    order ← outside (OpenShort trader symbol quantity (Sequencer.Leverage decision));
    record_orderID order;;
    now ← outside UnixMilli;
    set_firstSeen (insert (symbol ++ "_short")%string now);;
    try (outside (SetStopLoss trader symbol "SHORT" quantity (Sequencer.StopLoss decision)));;
    try (outside (SetTakeProfit trader symbol "SHORT" quantity (Sequencer.TakeProfit decision)));;
    mret tt.

(** [executeCloseLongWithRecord] and [executeCloseShortWithRecord]. *)
Definition executeCloseLongWithRecord (decision : Sequencer.Decision) : M (State S) unit :=
  currentPrice ← outside (market_Get (Sequencer.Symbol decision));
  record_price currentPrice;;
  order ← outside (CloseLong trader (Sequencer.Symbol decision) (f_int 0));
  record_orderID order.
Definition executeCloseShortWithRecord (decision : Sequencer.Decision) : M (State S) unit :=
  currentPrice ← outside (market_Get (Sequencer.Symbol decision));
  record_price currentPrice;;
  order ← outside (CloseShort trader (Sequencer.Symbol decision) (f_int 0));
  record_orderID order.

(** The loop of the two updating methods: side and quantity of the first
    position of the symbol. *)
Fixpoint side_and_quantity (symbol : string) (positions : list (gmap string value))
  : result (string * float) :=
  match positions with
  | [] => Ok (EmptyString, f_int 0)
  | pos :: rest =>
      if holds pos "symbol" symbol then
        match must_string pos "side", must_float pos "positionAmt" with
        | Ok side, Ok quantity => Ok (strings_ToUpper side, quantity)
        | _, _ => Panic
        end
      else side_and_quantity symbol rest
  end.

(** [executeUpdateStopLossWithRecord]. *)
Definition executeUpdateStopLossWithRecord (decision : Sequencer.Decision) : M (State S) unit :=
  let symbol := Sequencer.Symbol decision in
  positions ← outside (GetPositions trader);
  '(positionSide, quantity) ← lift_result (side_and_quantity symbol positions);
  if quantity =? f_int 0 then fail ("未找到 " ++ symbol ++ " 的持倉")%string
  else
    try (outside (CancelStopOrders trader symbol));;
    r ← try (outside (SetStopLoss trader symbol positionSide quantity
                                  (Sequencer.StopLoss decision)));
    match r with
    | inl err => fail ("設置新止損失敗: " ++ err)%string
    | inr _ => mret tt
    end.

(** [executeUpdateTakeProfitWithRecord]. *)
Definition executeUpdateTakeProfitWithRecord (decision : Sequencer.Decision) : M (State S) unit :=
  let symbol := Sequencer.Symbol decision in
  positions ← outside (GetPositions trader);
  '(positionSide, quantity) ← lift_result (side_and_quantity symbol positions);
  if quantity =? f_int 0 then fail ("未找到 " ++ symbol ++ " 的持倉")%string
  else
    try (outside (CancelStopOrders trader symbol));;
    r ← try (outside (SetTakeProfit trader symbol positionSide quantity
                                    (Sequencer.TakeProfit decision)));
    match r with
    | inl err => fail ("設置新止盈失敗: " ++ err)%string
    | inr _ => mret tt
    end.

(** [executeDecisionWithRecord]. *)
Definition executeDecisionWithRecord (decision : Sequencer.Decision) : M (State S) unit :=
  let action := Sequencer.Action decision in
  if (action =? "open_long")%string then executeOpenLongWithRecord decision
  else if (action =? "open_short")%string then executeOpenShortWithRecord decision
  else if (action =? "close_long")%string then executeCloseLongWithRecord decision
  else if (action =? "close_short")%string then executeCloseShortWithRecord decision
  else if (action =? "update_stop_loss")%string then executeUpdateStopLossWithRecord decision
  else if (action =? "update_take_profit")%string then executeUpdateTakeProfitWithRecord decision
  else if ((action =? "hold") || (action =? "wait"))%string then mret tt
  else fail ("未知的action: " ++ action)%string.

(** [if x, ok := balance[key].(float64); ok { ... }], from [0.0]. *)
Definition float_or_zero (m : gmap string value) (key : string) : float :=
  match m !! key with Some (VNum x) => x | _ => f_int 0 end.

(** The loop of [buildTradingContext] over the positions; it carries the
    position list, the margin total and the keys seen. *)
Fixpoint context_positions (positions : list (gmap string value))
         (positionInfos : list PositionInfo) (totalMarginUsed : float)
         (currentPositionKeys : gset string)
  : M (State S) (list PositionInfo * float * gset string) :=
  match positions with
  | [] => mret (positionInfos, totalMarginUsed, currentPositionKeys)
  | pos :: rest =>
      symbol ← lift_result (must_string pos "symbol");
      side ← lift_result (must_string pos "side");
      entryPrice ← lift_result (must_float pos "entryPrice");
      markPrice ← lift_result (must_float pos "markPrice");
      quantity ← lift_result (must_float pos "positionAmt");
      let quantity := if quantity <? f_int 0 then - quantity else quantity in
      unrealizedPnl ← lift_result (must_float pos "unRealizedProfit");
      liquidationPrice ← lift_result (must_float pos "liquidationPrice");
      let leverage := leverage_of pos in
      let marginUsed := quantity * markPrice / f_int leverage in
      let totalMarginUsed := totalMarginUsed + marginUsed in
      let pnlPct :=
        if (side =? "long")%string
        then (markPrice - entryPrice) / entryPrice * f_int leverage * f_int 100
        else (entryPrice - markPrice) / entryPrice * f_int leverage * f_int 100 in
      let posKey := (symbol ++ "_" ++ side)%string in
      seen ← gets positionFirstSeenTime;
      match seen !! posKey with
      | Some _ => mret tt
      | None => now ← outside UnixMilli; set_firstSeen (insert posKey now)
      end;;
      seen ← gets positionFirstSeenTime;
      let updateTime := default 0%Z (seen !! posKey) in
      context_positions rest
        (positionInfos ++ [mkPositionInfo symbol side entryPrice markPrice quantity leverage
                                          unrealizedPnl pnlPct liquidationPrice marginUsed
                                          updateTime])
        totalMarginUsed ({[posKey]} ∪ currentPositionKeys)
  end.

Section Building.
Context {P : Type}.
Variable fields : Fields.
(** [pool.GetMergedCoinPool]: the symbols and their sources;
    [decisionLogger.AnalyzePerformance]; the two readings of the clock. *)
Variable GetMergedCoinPool : Z -> M S (list string * gmap string (list string)).
Variable AnalyzePerformance : Z -> M S P.
Variable Now_Format : M S string.
Variable Since_Minutes : M S Z.

(** [buildTradingContext]. *)
Definition buildTradingContext : M (State S) (Context P) :=
  r ← try (outside (GetBalance trader));
  match r with
  | inl err => fail ("獲取賬戶余額失敗: " ++ err)%string
  | inr balance =>
      let totalWalletBalance := float_or_zero balance "totalWalletBalance" in
      let totalUnrealizedProfit := float_or_zero balance "totalUnrealizedProfit" in
      let availableBalance := float_or_zero balance "availableBalance" in
      let totalEquity := totalWalletBalance + totalUnrealizedProfit in
      r ← try (outside (GetPositions trader));
      match r with
      | inl err => fail ("獲取持倉失敗: " ++ err)%string
      | inr positions =>
          '(positionInfos, totalMarginUsed, currentPositionKeys) ←
            context_positions positions [] (f_int 0) ∅;
          set_firstSeen (filter (fun kv => kv.1 ∈ currentPositionKeys));;
          r ← try (outside (GetMergedCoinPool 20));
          match r with
          | inl err => fail ("獲取合並幣種池失敗: " ++ err)%string
          | inr (allSymbols, symbolSources) =>
              let candidateCoins :=
                (fun symbol => mkCandidateCoin symbol (default [] (symbolSources !! symbol)))
                  <$> allSymbols in
              let totalPnL := totalEquity - initialBalance fields in
              let totalPnLPct :=
                if initialBalance fields >? f_int 0
                then totalPnL / initialBalance fields * f_int 100 else f_int 0 in
              let marginUsedPct :=
                if totalEquity >? f_int 0
                then totalMarginUsed / totalEquity * f_int 100 else f_int 0 in
              r ← try (outside (AnalyzePerformance 100));
              let performance := match r with inl _ => None | inr p => Some p end in
              currentTime ← outside Now_Format;
              runtimeMinutes ← outside Since_Minutes;
              mret (mkContext currentTime runtimeMinutes (callCount fields)
                      (mkAccountInfo totalEquity availableBalance totalPnL totalPnLPct
                                     totalMarginUsed marginUsedPct
                                     (Z.of_nat (length positionInfos)))
                      positionInfos candidateCoins performance
                      (config_BTCETHLeverage fields) (config_AltcoinLeverage fields))
          end
      end
  end.

End Building.

End AutoTrader.
End Auto.

(** A position map with the seven fields the [AutoTrader] reads without a
    check, each of its type. *)
Definition typed_position (pos : gmap string value) : Prop :=
  (exists s, pos !! "symbol" = Some (VStr s)) /\
  (exists s, pos !! "side" = Some (VStr s)) /\
  (exists x, pos !! "entryPrice" = Some (VNum x)) /\
  (exists x, pos !! "markPrice" = Some (VNum x)) /\
  (exists x, pos !! "positionAmt" = Some (VNum x)) /\
  (exists x, pos !! "unRealizedProfit" = Some (VNum x)) /\
  (exists x, pos !! "liquidationPrice" = Some (VNum x)).

(** A position as [AutoTrader.GetPositions] reports it: side long or
    short, and a quantity that is not [<= 0] (positive unless NaN). *)
Definition reported_position (m : gmap string value) : Prop :=
  exists side q,
    m !! "side" = Some (VStr side) /\ (side = "long" \/ side = "short") /\
    m !! "quantity" = Some (VNum q) /\
    (q <=? f_int 0)%f64 = false /\
    (b64_is_nan q = false -> (q >? f_int 0)%f64 = true).

(** The Binance cache holds positions as [FuturesTrader.GetPositions] makes them. *)
Definition cache_typed (st : Binance.State) : Prop :=
  forall ps, Binance.cachedPositions st = Some ps ->
             Forall (fun m => typed_position m /\ signed_position m) ps.

(** The key of a position in [positionFirstSeenTime]. *)
Definition posKey (pi : Auto.PositionInfo) : string :=
  (Auto.pi_Symbol pi ++ "_" ++ Auto.pi_Side pi)%string.

(** ** The maps the backends answer an order with *)

(** A value of a [map[string]interface{}] as the [AutoTrader] gets it; a
    number decoded from JSON is a [float64]. *)
Definition any_of (v : value) : Auto.any :=
  match v with
  | VStr s => Auto.AString s
  | VInt z => Auto.AInt z
  | VNum x => Auto.AFloat64 x
  | VBool b => Auto.ABool b
  | VNil => Auto.ANil
  end.

(** The result the opening and closing methods of the Binance trader
    build from the order of the SDK, whose [OrderID] is an [int64]; that
    of the Hyperliquid trader, whose [orderId] is the constant [0], an
    [int]; and that of the Aster trader, the decoded answer. *)
Definition binance_order_result (OrderID : Z) (Symbol Status : string) : gmap string Auto.any :=
  list_to_map [("orderId", Auto.AInt64 OrderID); ("symbol", Auto.AString Symbol);
               ("status", Auto.AString Status)].
Definition hyperliquid_order_result (symbol : string) : gmap string Auto.any :=
  list_to_map [("orderId", Auto.AInt 0); ("symbol", Auto.AString symbol);
               ("status", Auto.AString "FILLED")].
Definition aster_order_result (result : gmap string value) : gmap string Auto.any :=
  any_of <$> result.

(** ** The orders of the Aster trader *)

(** [strings.TrimRight] for a cutset of ASCII bytes: the bytes of the
    cutset that end the string are cut. *)
Fixpoint occurs (c : ascii) (cutset : string) : bool :=
  match cutset with
  | EmptyString => false
  | String c' cutset' => (c =? c')%char || occurs c cutset'
  end.
Fixpoint trim_right (fuel : nat) (s cutset : string) : string :=
  match fuel with
  | O => s
  | S fuel' =>
      match Precision.last_byte s with
      | Some c => if occurs c cutset then trim_right fuel' (Precision.drop_last s) cutset else s
      | None => s
      end
  end.
Definition strings_TrimRight (s cutset : string) : string :=
  trim_right (String.length s) s cutset.

(** [k] copies of the byte [c]. *)
Fixpoint copies (c : ascii) (k : nat) : string :=
  match k with O => EmptyString | S k' => String c (copies c k') end.

Module AsterOrders.
Import Aster.

Section Orders.
Variable env : Env.
(** [strconv.FormatFloat(value, 'f', precision, 64)], [fmt.Sprintf("%.8f", x)],
    the error of [strconv.ParseFloat] where a caller returns it, and
    [json.Unmarshal] into a [map[string]interface{}]. *)
Variable FormatFloat : float -> Z -> string.
Variable Sprintf_8f : float -> string.
Variable ParseFloat_error : string -> option string.
Variable decode_object : string -> string + gmap string value.
Local Open Scope f64_scope.

(** [formatFloatWithPrecision]. *)
Definition formatFloatWithPrecision (value : float) (precision : Z) : string :=
  let formatted := FormatFloat value precision in
  let formatted := strings_TrimRight formatted "0" in
  let formatted := strings_TrimRight formatted "." in
  formatted.

(** [FormatQuantity]. *)
Definition FormatQuantity (symbol : string) (quantity : float) : M State string :=
  formatted ← formatQuantity env symbol quantity;
  r ← try (getPrecision env symbol);
  match r with
  | inl _ => mret (Sprintf_8f formatted)
  | inr prec => mret (formatFloatWithPrecision formatted (QuantityPrecision prec))
  end.

(** [GetMarketPrice]. *)
Definition GetMarketPrice (symbol : string) : M State float :=
  resp ← client_Get env (baseURL ++ "/fapi/v3/ticker/price?symbol=" ++ symbol)%string;
  match resp with
  | TransportError e => fail e
  | Response status body =>
      if negb (status =? 200)%Z then fail ("HTTP " ++ pretty status ++ ": " ++ body)%string
      else
        match decode_object body with
        | inl e => fail e
        | inr result =>
            match result !! "price" with
            | Some (VStr priceStr) =>
                match ParseFloat_error priceStr with
                | Some e => fail e
                | None => mret (ParseFloat env priceStr)
                end
            | _ => fail "無法獲取價格"
            end
        end
  end.

(** The limit order that [OpenLong], [OpenShort], [CloseLong] and
    [CloseShort] end with, each with its side: the price and the quantity
    are formatted, rendered, and posted. *)
Definition post_order (symbol side : string) (limitPrice quantity : float)
  : M State (gmap string value) :=
  formattedPrice ← formatPrice env symbol limitPrice;
  formattedQty ← formatQuantity env symbol quantity;
  prec ← getPrecision env symbol;
  let priceStr := formatFloatWithPrecision formattedPrice (PricePrecision prec) in
  let qtyStr := formatFloatWithPrecision formattedQty (QuantityPrecision prec) in
  params ← new_map (list_to_map
    [("symbol", VStr symbol); ("positionSide", VStr "BOTH"); ("type", VStr "LIMIT");
     ("side", VStr side); ("timeInForce", VStr "GTC"); ("quantity", VStr qtyStr);
     ("price", VStr priceStr)]);
  body ← request env "POST" "/fapi/v3/order" params;
  match decode_object body with
  | inl e => fail e
  | inr result => mret result
  end.

(** [OpenLong]. *)
Definition OpenLong (symbol : string) (quantity : float) (leverage : Z)
  : M State (gmap string value) :=
  try (CancelAllOrders env symbol);;
  r ← try (SetLeverage env symbol leverage);
  match r with
  | inl e => fail ("設置杠杆失敗: " ++ e)%string
  | inr _ =>
      price ← GetMarketPrice symbol;
      let limitPrice := price * f_dec 101 2 in
      post_order symbol "BUY" limitPrice quantity
  end.

(** [OpenShort]. *)
Definition OpenShort (symbol : string) (quantity : float) (leverage : Z)
  : M State (gmap string value) :=
  try (CancelAllOrders env symbol);;
  r ← try (SetLeverage env symbol leverage);
  match r with
  | inl e => fail ("設置杠杆失敗: " ++ e)%string
  | inr _ =>
      price ← GetMarketPrice symbol;
      let limitPrice := price * f_dec 99 2 in
      post_order symbol "SELL" limitPrice quantity
  end.

(** The loop of [CloseLong] and [CloseShort] that reads the quantity of the
    position off the list. *)
Fixpoint position_quantity (symbol side : string) (positions : list (gmap string value))
  : result float :=
  match positions with
  | [] => Ok (f_int 0)
  | pos :: rest =>
      if holds pos "symbol" symbol && holds pos "side" side
      then must_float pos "positionAmt"
      else position_quantity symbol side rest
  end.

(** [CloseLong]. *)
Definition CloseLong (symbol : string) (quantity : float) : M State (gmap string value) :=
  quantity ←
    (if quantity =? f_int 0 then
       positions ← GetPositions env;
       quantity ← lift (position_quantity symbol "long" positions);
       if quantity =? f_int 0 then fail ("沒有找到 " ++ symbol ++ " 的多倉")%string
       else mret quantity
     else mret quantity);
  price ← GetMarketPrice symbol;
  let limitPrice := price * f_dec 99 2 in
  result ← post_order symbol "SELL" limitPrice quantity;
  try (CancelAllOrders env symbol);;
  mret result.

(** [CloseShort]. *)
Definition CloseShort (symbol : string) (quantity : float) : M State (gmap string value) :=
  quantity ←
    (if quantity =? f_int 0 then
       positions ← GetPositions env;
       quantity ← lift (position_quantity symbol "short" positions);
       if quantity =? f_int 0 then fail ("沒有找到 " ++ symbol ++ " 的空倉")%string
       else mret quantity
     else mret quantity);
  price ← GetMarketPrice symbol;
  let limitPrice := price * f_dec 101 2 in
  result ← post_order symbol "BUY" limitPrice quantity;
  try (CancelAllOrders env symbol);;
  mret result.

(** The order that [SetStopLoss] and [SetTakeProfit] end with, each with
    its type: the side opposite to the position, the trigger price and the
    quantity formatted, rendered, and posted. *)
Definition protective_order (symbol positionSide type_ : string) (quantity price : float)
  : M State unit :=
  let side := if (positionSide =? "SHORT")%string then "BUY" else "SELL" in
  formattedPrice ← formatPrice env symbol price;
  formattedQty ← formatQuantity env symbol quantity;
  prec ← getPrecision env symbol;
  let priceStr := formatFloatWithPrecision formattedPrice (PricePrecision prec) in
  let qtyStr := formatFloatWithPrecision formattedQty (QuantityPrecision prec) in
  params ← new_map (list_to_map
    [("symbol", VStr symbol); ("positionSide", VStr "BOTH"); ("type", VStr type_);
     ("side", VStr side); ("stopPrice", VStr priceStr); ("quantity", VStr qtyStr);
     ("timeInForce", VStr "GTC")]);
  request env "POST" "/fapi/v3/order" params;;
  mret tt.

(** [SetStopLoss] and [SetTakeProfit]. *)
Definition SetStopLoss (symbol positionSide : string) (quantity stopPrice : float)
  : M State unit :=
  protective_order symbol positionSide "STOP_MARKET" quantity stopPrice.
Definition SetTakeProfit (symbol positionSide : string) (quantity takeProfitPrice : float)
  : M State unit :=
  protective_order symbol positionSide "TAKE_PROFIT_MARKET" quantity takeProfitPrice.

(** The loop of [GetBalance] over the decoded balances: the balance, the
    available balance and the unrealized profit of the first USDT entry. *)
Fixpoint balance_loop (balances : list (gmap string value)) : float * float * float :=
  match balances with
  | [] => (f_int 0, f_int 0, f_int 0)
  | bal :: rest =>
      if holds bal "asset" "USDT" then
        let field (key : string) : float :=
          match bal !! key with Some (VStr x) => ParseFloat env x | _ => f_int 0 end in
        (field "balance", field "availableBalance", field "crossUnPnl")
      else balance_loop rest
  end.

(** [GetBalance]. *)
Definition GetBalance : M State (gmap string value) :=
  params ← new_map ∅;
  body ← request env "GET" "/fapi/v3/balance" params;
  match decode_objects env body with
  | inl e => fail e
  | inr balances =>
      let '(totalBalance, availableBalance, crossUnPnl) := balance_loop balances in
      mret (list_to_map [("totalWalletBalance", VNum totalBalance);
                         ("availableBalance", VNum availableBalance);
                         ("totalUnrealizedProfit", VNum crossUnPnl)])
  end.

(** The [AsterTrader] as a [Trader]: its methods under the interface, an
    order map reaching the caller as decoded. *)
Definition as_order (m : M State (gmap string value)) : M State (gmap string Auto.any) :=
  result ← m; mret (aster_order_result result).

Definition AsterTrader : Auto.Trader State :=
  Auto.mkTrader State
    GetBalance
    (GetPositions env)
    (fun symbol quantity leverage =>
       as_order (OpenLong symbol quantity leverage))
    (fun symbol quantity leverage =>
       as_order (OpenShort symbol quantity leverage))
    (fun symbol quantity =>
       as_order (CloseLong symbol quantity))
    (fun symbol quantity =>
       as_order (CloseShort symbol quantity))
    (SetLeverage env)
    GetMarketPrice
    SetStopLoss
    SetTakeProfit
    (CancelAllOrders env)
    (CancelStopOrders env)
    FormatQuantity.

End Orders.
End AsterOrders.

(** ** A trader on paper *)

(** A trader on paper: one long position of 0.1 BTCUSDT, a balance of
    1000, and no order accepted. *)
Definition one_long : gmap string value :=
  list_to_map [("symbol", VStr "BTCUSDT"); ("side", VStr "long");
               ("entryPrice", VNum 50000); ("markPrice", VNum 51000);
               ("positionAmt", VNum 0.1); ("unRealizedProfit", VNum 100);
               ("leverage", VNum 5); ("liquidationPrice", VNum 40000)].
Definition on_paper : Auto.Trader unit :=
  Auto.mkTrader unit
    (mret (list_to_map [("totalWalletBalance", VNum 1000); ("availableBalance", VNum 500);
                        ("totalUnrealizedProfit", VNum 100)]))
    (mret [one_long])
    (fun _ _ _ => fail "paper") (fun _ _ _ => fail "paper")
    (fun _ _ => fail "paper") (fun _ _ => fail "paper")
    (fun _ _ => fail "paper") (fun _ => fail "paper")
    (fun _ _ _ _ => fail "paper") (fun _ _ _ _ => fail "paper")
    (fun _ => fail "paper") (fun _ => fail "paper") (fun _ _ => fail "paper").
(** It has seen a position on ETHUSDT before, now closed. *)
Definition seen_before : Auto.State unit :=
  Auto.mkState tt {[ "ETHUSDT_short" := 1600000000000%Z ]}
               (Auto.mkDecisionAction "" "" 0 0 0 0 0 false "").

(** ** The sizes of the Hyperliquid trader *)

Module Sizes.

(** An asset of [t.meta.Universe], the fields read; the [meta] of the
    trader is [None] when the pointer is nil. *)
Record AssetInfo := mkAssetInfo {
  Name : string;
  SzDecimals : Z
}.

(** The loop of [getSzDecimals] over the universe. *)
Fixpoint universe_loop (coin : string) (universe : list AssetInfo) : Z :=
  match universe with
  | [] => 4
  | asset :: rest =>
      if (Name asset =? coin)%string then SzDecimals asset else universe_loop coin rest
  end.

(** [getSzDecimals]. *)
Definition getSzDecimals (meta : option (list AssetInfo)) (coin : string) : Z :=
  match meta with
  | None => 4
  | Some universe => universe_loop coin universe
  end.

Section Rounding.
Context {F : Type} `{Float64 F}.
Local Open Scope f64_scope.

(** [roundToSzDecimals]; its loop
    [for i := 0; i < szDecimals; i++ { multiplier *= 10.0 }] is that of
    [roundPriceToSigfigs]. *)
Definition roundToSzDecimals (meta : option (list AssetInfo)) (coin : string)
           (quantity : F) : run F :=
  let szDecimals := getSzDecimals meta coin in
  let multiplier := apply_sigfigs (Z.to_nat szDecimals) (f_int 1) in
  match f_trunc (quantity * multiplier + f_dec 5 1) with
  | None => Unspecified
  | Some n => Returns (f_int n / multiplier)
  end.

End Rounding.
End Sizes.

(** ** The calls of the order methods of the Aster trader *)

(** The logical calls of the order methods of the Aster trader. *)
Definition cancel_all_call (symbol : string) : string * string * gmap string value :=
  ("DELETE", "/fapi/v3/allOpenOrders", list_to_map [("symbol", VStr symbol)]).
Definition leverage_call (symbol : string) (leverage : Z)
  : string * string * gmap string value :=
  ("POST", "/fapi/v3/leverage",
   list_to_map [("symbol", VStr symbol); ("leverage", VInt leverage)]).
Definition positions_call : string * string * gmap string value :=
  ("GET", "/fapi/v3/positionRisk", ∅).
Definition order_call (symbol side qtyStr priceStr : string)
  : string * string * gmap string value :=
  ("POST", "/fapi/v3/order",
   list_to_map
     [("symbol", VStr symbol); ("positionSide", VStr "BOTH"); ("type", VStr "LIMIT");
      ("side", VStr side); ("timeInForce", VStr "GTC"); ("quantity", VStr qtyStr);
      ("price", VStr priceStr)]).

(** A price or a quantity as [formatPrice] and [formatQuantity] round it:
    to the step when there is one, else to the decimals; and its rendering
    in an order. *)
Definition to_step (x step : float) (decimals : Z) : float :=
  if (step >? f_int 0)%f64
  then (math_Round (x / step) * step)%f64
  else (math_Round (x * math_Pow10 decimals) / math_Pow10 decimals)%f64.

(** A computation that takes every state to a state related to it by [R]. *)
Definition preserves {St A} (R : St -> St -> Prop) (m : M St A) : Prop :=
  forall s, R s (m s).2.

(** A computation that leaves the precision cache as it is. *)
Definition keeps_cache {A} (m : M Aster.State A) : Prop :=
  preserves (fun s s' => Aster.symbolPrecision s' = Aster.symbolPrecision s) m.

(** A call that returned an error. *)
Definition failed {A} (r : result A) : Prop := exists e, r = Err e.

(** The call that places an order: the quantity and the price rounded and
    rendered with the precision of the symbol. *)
Definition order_of (FormatFloat : float -> Z -> string) (symbol side : string)
           (prec : Aster.SymbolPrecision) (limitPrice quantity : float)
  : string * string * gmap string value :=
  order_call symbol side
    (AsterOrders.formatFloatWithPrecision FormatFloat
       (to_step quantity (Aster.StepSize prec) (Aster.QuantityPrecision prec))
       (Aster.QuantityPrecision prec))
    (AsterOrders.formatFloatWithPrecision FormatFloat
       (to_step limitPrice (Aster.TickSize prec) (Aster.PricePrecision prec))
       (Aster.PricePrecision prec)).

(** The quantity [CloseLong] and [CloseShort] close when asked for
    [quantity]: the quantity itself, or for 0 the quantity of the position
    of the symbol on that side that [GetPositions] returns. *)
Definition closing_quantity (env : Aster.Env) (symbol side : string) (quantity : float)
           (st : Aster.State) (q : float) : Prop :=
  if (quantity =? f_int 0)%f64 then
    exists positions s0,
      Aster.GetPositions env st = (Ok positions, s0) /\
      AsterOrders.position_quantity symbol side positions = Ok q /\
      (q =? f_int 0)%f64 = false
  else q = quantity.

(** A position of [symbol] on [side] among the positions. *)
Definition position_on (symbol side : string) (positions : list (gmap string value)) : Prop :=
  Exists (fun pos => pos !! "symbol" = Some (VStr symbol) /\
                     pos !! "side" = Some (VStr side)) positions.

(** ** The client of the model, [mcp/client.go] *)

Module Mcp.

(** What the client does to the outside: one call of the API, and a wait. *)
Inductive Event : Type :=
| CallOnce (systemPrompt userPrompt : string)
| Sleep (microseconds : Z).

Record State := mkState {
  trace : list Event
}.

(** What [callOnce] comes back with after the call that ends the trace:
    its error, or the text of the answer. *)
Record Env := mkEnv {
  answer : list Event -> string + string
}.

Definition maxRetries : Z := 3.

(** [isRetryableError]. *)
Definition retryableErrors : list string :=
  ["EOF"; "timeout"; "connection reset"; "connection refused"; "temporary failure";
   "no such host"].
Fixpoint retryable_loop (errStr : string) (retryableErrors : list string) : bool :=
  match retryableErrors with
  | [] => false
  | retryable :: rest =>
      if strings_Contains errStr retryable then true else retryable_loop errStr rest
  end.
Definition isRetryableError (err : string) : bool := retryable_loop err retryableErrors.

Section Client.
Variable env : Env.

Definition emit (ev : Event) : M State unit := fun s => (Ok tt, mkState (trace s ++ [ev])).

Definition callOnce (systemPrompt userPrompt : string) : M State string :=
  emit (CallOnce systemPrompt userPrompt);;
  r ← gets (fun s => answer env (trace s));
  match r with
  | inl err => fail err
  | inr result => mret result
  end.

(** The loop of [CallWithMessages],
    [for attempt := 1; attempt <= maxRetries; attempt++]; [n] counts the
    iterations left, and the statement after the loop is the case [n = 0]. *)
Fixpoint call_loop (n : nat) (attempt : Z) (systemPrompt userPrompt lastErr : string)
  : M State string :=
  match n with
  | O => fail ("重試" ++ pretty maxRetries ++ "次後仍然失敗: " ++ lastErr)%string
  | S n' =>
      r ← try (callOnce systemPrompt userPrompt);
      match r with
      | inr result => mret result
      | inl err =>
          if negb (isRetryableError err) then fail err
          else
            (if (attempt <? maxRetries)%Z then emit (Sleep (attempt * 2 * 1000000))
             else mret tt);;
            call_loop n' (attempt + 1)%Z systemPrompt userPrompt err
      end
  end.

(** [CallWithMessages]. *)
Definition CallWithMessages (APIKey systemPrompt userPrompt : string) : M State string :=
  if (APIKey =? "")%string then
    fail "AI API密鑰未設置，請先調用 SetDeepSeekAPIKey()、SetQwenAPIKey() 或 SetOpenAIAPIKey()"
  else call_loop (Z.to_nat maxRetries) 1 systemPrompt userPrompt "".

End Client.
End Mcp.

(** ** The executing loop of [runCycle] *)

Module Cycle.
Import Auto.

Section Executing.
Context {S : Type}.
Variable trader : Trader S.
Variable market_Get : string -> M S float.
Variable UnixMilli : M S Z.
(** [time.Now()] and [time.Sleep], on the world outside. *)
Variable time_Now : S -> Z.
Variable time_Sleep : Z -> S -> S.

Definition sleep (microseconds : Z) : M (State S) unit := fun s =>
  (Ok tt, mkState (time_Sleep microseconds (world s)) (positionFirstSeenTime s)
                  (actionRecord s)).

(** The body of [for _, d := range sortedDecisions]; it carries
    [record.Decisions] and [record.ExecutionLog]. *)
Definition execute_one (d : Sequencer.Decision) (record : list DecisionAction * list string)
  : M (State S) (list DecisionAction * list string) :=
  now ← gets (fun s => time_Now (world s));
  set_actionRecord (fun _ =>
    mkDecisionAction (Sequencer.Action d) (Sequencer.Symbol d) (f_int 0)
                     (Sequencer.Leverage d) (f_int 0) 0 now false "");;
  r ← try (executeDecisionWithRecord trader market_Get UnixMilli d);
  line ←
    match r with
    | inl err =>
        set_actionRecord (fun a =>
          mkDecisionAction (da_Action a) (da_Symbol a) (da_Quantity a) (da_Leverage a)
                           (da_Price a) (da_OrderID a) (da_Timestamp a) (da_Success a) err);;
        mret ("❌ " ++ Sequencer.Symbol d ++ " " ++ Sequencer.Action d ++ " 失敗: " ++ err)%string
    | inr _ =>
        set_actionRecord (fun a =>
          mkDecisionAction (da_Action a) (da_Symbol a) (da_Quantity a) (da_Leverage a)
                           (da_Price a) (da_OrderID a) (da_Timestamp a) true (da_Error a));;
        sleep 1000000;;
        mret ("✓ " ++ Sequencer.Symbol d ++ " " ++ Sequencer.Action d ++ " 成功")%string
    end;
  actionRecord ← gets actionRecord;
  mret (record.1 ++ [actionRecord], record.2 ++ [line]).

Fixpoint execute_loop (sortedDecisions : list Sequencer.Decision)
         (record : list DecisionAction * list string)
  : M (State S) (list DecisionAction * list string) :=
  match sortedDecisions with
  | [] => mret record
  | d :: rest => record ← execute_one d record; execute_loop rest record
  end.

(** Steps 7 and 8 of [runCycle], from the decisions of the model on. *)
Definition execute_decisions (decisions : list Sequencer.Decision)
  : M (State S) (list DecisionAction * list string) :=
  execute_loop (Sequencer.sortDecisionsByPriority decisions) ([], []).

End Executing.
End Cycle.

(** The entry of a decision in the record: its symbol and action, with the
    error of its execution, or with success. *)
Definition entry_of (d : Sequencer.Decision) (a : Auto.DecisionAction) (line : string) : Prop :=
  Auto.da_Symbol a = Sequencer.Symbol d /\ Auto.da_Action a = Sequencer.Action d /\
  Auto.da_Leverage a = Sequencer.Leverage d /\
  (Auto.da_Success a = true /\ Auto.da_Error a = EmptyString /\
   line = ("✓ " ++ Sequencer.Symbol d ++ " " ++ Sequencer.Action d ++ " 成功")%string \/
   Auto.da_Success a = false /\
   line = ("❌ " ++ Sequencer.Symbol d ++ " " ++ Sequencer.Action d ++ " 失敗: "
           ++ Auto.da_Error a)%string).

(** Two states of the trader whose action records differ at most in
    quantity, price and order id. *)
Definition same_entry {S} (s s' : Auto.State S) : Prop :=
  let a := Auto.actionRecord s in
  let a' := Auto.actionRecord s' in
  Auto.da_Action a' = Auto.da_Action a /\ Auto.da_Symbol a' = Auto.da_Symbol a /\
  Auto.da_Leverage a' = Auto.da_Leverage a /\ Auto.da_Timestamp a' = Auto.da_Timestamp a /\
  Auto.da_Success a' = Auto.da_Success a /\ Auto.da_Error a' = Auto.da_Error a.

(** The call that lists the open orders, and the call that places a
    protective order. *)
Definition listing_call (symbol : string) : string * string * gmap string value :=
  ("GET", "/fapi/v3/openOrders", list_to_map [("symbol", VStr symbol)]).
Definition protective_call (FormatFloat : float -> Z -> string)
           (symbol positionSide type_ : string) (prec : Aster.SymbolPrecision)
           (quantity price : float) : string * string * gmap string value :=
  ("POST", "/fapi/v3/order",
   list_to_map
     [("symbol", VStr symbol); ("positionSide", VStr "BOTH"); ("type", VStr type_);
      ("side", VStr (if (positionSide =? "SHORT")%string then "BUY" else "SELL"));
      ("stopPrice",
       VStr (AsterOrders.formatFloatWithPrecision FormatFloat
               (to_step price (Aster.TickSize prec) (Aster.PricePrecision prec))
               (Aster.PricePrecision prec)));
      ("quantity",
       VStr (AsterOrders.formatFloatWithPrecision FormatFloat
               (to_step quantity (Aster.StepSize prec) (Aster.QuantityPrecision prec))
               (Aster.QuantityPrecision prec)));
      ("timeInForce", VStr "GTC")]).

(** An Aster account that is long 0.1 BTCUSDT, with a stop-market order
    (1), a take-profit-market order (2) and a resting limit order (3) on
    it; every exchange is answered with 200. *)
Definition held_position : gmap string value :=
  list_to_map [("symbol", VStr "BTCUSDT"); ("positionAmt", VStr "0.1");
               ("entryPrice", VStr "50000"); ("markPrice", VStr "50000");
               ("unRealizedProfit", VStr "3"); ("leverage", VStr "3");
               ("liquidationPrice", VStr "3")].
Definition protected_long : Aster.Env :=
  Aster.mkEnv "0xUser" "0xSigner"
    (fun tr =>
       match last tr with
       | Some (Aster.Http _ url _) =>
           if (url =? Aster.baseURL ++ "/fapi/v3/positionRisk")%string
           then Response 200 "positions"
           else if (url =? Aster.baseURL ++ "/fapi/v3/openOrders")%string
                then Response 200 "orders"
                else Response 200 "{}"
       | _ => Response 200 "{}"
       end)
    (fun _ => 0%Z) parse_few (fun _ => "") (fun _ => "{}")
    (fun _ => inr [Aster.mkSymbolInfo "BTCUSDT" 1 3 []])
    (fun body =>
       if (body =? "positions")%string then inr [held_position]
       else if (body =? "orders")%string then
         inr [list_to_map [("type", VStr "STOP_MARKET"); ("orderId", VNum 1)];
              list_to_map [("type", VStr "TAKE_PROFIT_MARKET"); ("orderId", VNum 2)];
              list_to_map [("type", VStr "LIMIT"); ("orderId", VNum 3)]]
       else inl "unexpected end of JSON input")
    (fun _ _ _ _ => inr "0xsig").

(* ===================================================================== *)
(** * Part II: properties                                                 *)
(* ===================================================================== *)

Section SequencerFacts.
Import Sequencer.

Lemma select_length x rest : length (select x rest).2 = length rest.
Proof.
  revert x. induction rest as [|y rest IH]; intros x; simpl; [done|].
  destruct (priority y <? priority x)%Z.
  - specialize (IH y). destruct (select y rest). simpl in *. by rewrite IH.
  - specialize (IH x). destruct (select x rest). simpl in *. by rewrite IH.
Qed.

(** One pass of the inner loop, on a slice split around positions [i] and [j]. *)
Lemma inner_loop_select pre x mid rest :
  inner_loop (length pre) (S (length pre + length mid)) (length rest)
             (pre ++ x :: mid ++ rest)
  = pre ++ (select x rest).1 :: mid ++ (select x rest).2.
Proof.
  revert x mid. induction rest as [|y rest IH]; intros x mid; simpl; [done|].
  assert (Hi : (pre ++ x :: mid ++ y :: rest) !! length pre = Some x).
  { by rewrite list_lookup_middle. }
  assert (Hj : (pre ++ x :: mid ++ y :: rest) !! S (length pre + length mid) = Some y).
  { rewrite lookup_app_r by lia.
    replace (S (length pre + length mid) - length pre)%nat with (S (length mid)) by lia.
    simpl. by rewrite list_lookup_middle. }
  unfold swap_if_greater. rewrite Hi, Hj.
  destruct (priority y <? priority x)%Z.
  - assert (Hsw : <[S (length pre + length mid):=x]> (<[length pre:=y]> (pre ++ x :: mid ++ y :: rest))
                  = pre ++ y :: (mid ++ [x]) ++ rest).
    { rewrite insert_app_r_alt by lia. rewrite Nat.sub_diag. simpl.
      rewrite insert_app_r_alt by lia.
      replace (S (length pre + length mid) - length pre)%nat with (S (length mid)) by lia.
      simpl. rewrite insert_app_r_alt by lia. rewrite Nat.sub_diag. simpl.
      by rewrite <- app_assoc. }
    rewrite Hsw.
    replace (S (S (length pre + length mid))) with (S (length pre + length (mid ++ [x])))
      by (rewrite length_app; simpl; lia).
    rewrite IH. destruct (select y rest). simpl. by rewrite <- app_assoc.
  - replace (pre ++ x :: mid ++ y :: rest) with (pre ++ x :: (mid ++ [y]) ++ rest)
      by (by rewrite <- app_assoc).
    replace (S (S (length pre + length mid))) with (S (length pre + length (mid ++ [y])))
      by (rewrite length_app; simpl; lia).
    rewrite IH. destruct (select x rest). simpl. by rewrite <- app_assoc.
Qed.

Lemma outer_loop_passes n pre l :
  (n <= length l)%nat ->
  outer_loop (length pre) n (pre ++ l) = pre ++ selection_passes n l.
Proof.
  revert pre l. induction n as [|n IH]; intros pre l Hn; simpl; [done|].
  destruct l as [|x rest]; simpl in Hn; [lia|].
  replace (length (pre ++ x :: rest) - S (length pre))%nat with (length rest)
    by (rewrite length_app; simpl; lia).
  pose proof (inner_loop_select pre x [] rest) as Hsel.
  rewrite Nat.add_0_r in Hsel. simpl in Hsel. rewrite Hsel.
  pose proof (select_length x rest) as Hlen.
  destruct (select x rest) as [m r]. simpl in *.
  replace (pre ++ m :: r) with ((pre ++ [m]) ++ r) by (by rewrite <- app_assoc).
  replace (S (length pre)) with (length (pre ++ [m])) by (rewrite length_app; simpl; lia).
  rewrite IH by lia. by rewrite <- app_assoc.
Qed.

Lemma sortDecisionsByPriority_passes l :
  sortDecisionsByPriority l = selection_passes (length l - 1) l.
Proof.
  unfold sortDecisionsByPriority. destruct (Nat.leb_spec (length l) 1) as [H|H].
  - destruct l as [|x [|y l]]; simpl in *; try done; lia.
  - apply (outer_loop_passes (length l - 1) [] l). lia.
Qed.

Lemma select_perm x rest :
  (select x rest).1 :: (select x rest).2 ≡ₚ x :: rest.
Proof.
  revert x. induction rest as [|y rest IH]; intros x; simpl; [done|].
  destruct (priority y <? priority x)%Z.
  - specialize (IH y). destruct (select y rest) as [m r]. simpl in *.
    rewrite (Permutation_swap x m r), IH. done.
  - specialize (IH x). destruct (select x rest) as [m r]. simpl in *.
    rewrite (Permutation_swap y m r), IH. apply Permutation_swap.
Qed.

(** The selected element is a least one, and no greater than the start. *)
Lemma select_least x rest :
  (priority (select x rest).1 <= priority x)%Z /\
  Forall (fun d => (priority (select x rest).1 <= priority d)%Z) (select x rest).2.
Proof.
  revert x. induction rest as [|y rest IH]; intros x; simpl; [split; [lia|constructor]|].
  destruct (Z.ltb_spec (priority y) (priority x)) as [Hlt|Hge].
  - destruct (IH y) as [H1 H2]. destruct (select y rest) as [m r]. simpl in *.
    split; [lia|]. constructor; [lia|done].
  - destruct (IH x) as [H1 H2]. destruct (select x rest) as [m r]. simpl in *.
    split; [lia|]. constructor; [lia|done].
Qed.

(** Nothing moves when the start is already a least element. *)
Lemma select_fixed x rest :
  Forall (fun d => (priority x <= priority d)%Z) rest -> select x rest = (x, rest).
Proof.
  induction 1 as [|y rest Hy _ IH]; simpl; [done|].
  destruct (Z.ltb_spec (priority y) (priority x)); [lia|]. by rewrite IH.
Qed.

Lemma priority_close d : is_closeb d = true <-> priority d = 1%Z.
Proof.
  unfold is_closeb, priority, getActionPriority.
  repeat match goal with |- context [(?a =? ?b)%string] => destruct (a =? b)%string end;
    simpl; split; (done || lia).
Qed.

Lemma priority_lower_bound d : (1 <= priority d)%Z.
Proof.
  unfold priority, getActionPriority.
  repeat match goal with |- context [if ?b then _ else _] => destruct b end; lia.
Qed.

(** A pass never carries a close decision away from its place. *)
Lemma select_close x rest :
  filter (fun d => is_closeb d = true) ((select x rest).1 :: (select x rest).2)
  = filter (fun d => is_closeb d = true) (x :: rest).
Proof.
  revert x. induction rest as [|y rest IH]; intros x; simpl; [done|].
  destruct (Z.ltb_spec (priority y) (priority x)) as [Hlt|Hge].
  - specialize (IH y). destruct (select y rest) as [m r]. simpl in *.
    assert (Hx : is_closeb x <> true).
    { rewrite priority_close. pose proof (priority_lower_bound y). lia. }
    rewrite (filter_cons _ x (y :: rest)), (decide_False (P := is_closeb x = true)) by done.
    rewrite <- IH. rewrite !(filter_cons _ m).
    destruct (decide (is_closeb m = true));
      by rewrite (filter_cons _ x r), (decide_False (P := is_closeb x = true)) by done.
  - destruct (decide (is_closeb x = true)) as [Hx|Hx].
    + (* a close decision at the start is selected at once *)
      assert (Hfix : select x rest = (x, rest)).
      { apply select_fixed, Forall_forall. intros d _.
        apply priority_close in Hx. pose proof (priority_lower_bound d). lia. }
      by rewrite Hfix.
    + assert (Hy : is_closeb y <> true).
      { rewrite priority_close in *. pose proof (priority_lower_bound x). lia. }
      specialize (IH x). destruct (select x rest) as [m r]. simpl in *.
      rewrite (filter_cons _ x (y :: rest)), (decide_False (P := is_closeb x = true)) by done.
      rewrite (filter_cons _ y rest), (decide_False (P := is_closeb y = true)) by done.
      rewrite (filter_cons _ x rest), (decide_False (P := is_closeb x = true)) in IH by done.
      rewrite <- IH. rewrite !(filter_cons _ m).
      destruct (decide (is_closeb m = true));
        by rewrite (filter_cons _ y r), (decide_False (P := is_closeb y = true)) by done.
Qed.

Lemma selection_passes_perm n l : selection_passes n l ≡ₚ l.
Proof.
  revert l. induction n as [|n IH]; intros [|x rest]; simpl; try done.
  pose proof (select_perm x rest) as Hp.
  destruct (select x rest) as [m r]. simpl in *. by rewrite IH.
Qed.

Lemma selection_passes_sorted n l :
  (length l - 1 <= n)%nat -> StronglySorted by_priority (selection_passes n l).
Proof.
  revert l. induction n as [|n IH]; intros [|x rest] Hn; simpl in *;
    try by repeat constructor.
  - destruct rest; simpl in *; [repeat constructor | lia].
  - pose proof (select_least x rest) as [_ Hmin].
    pose proof (select_length x rest) as Hlen.
    destruct (select x rest) as [m r]. simpl in *.
    constructor.
    + apply IH. lia.
    + by rewrite selection_passes_perm.
Qed.

Lemma selection_passes_fixed n l :
  StronglySorted by_priority l -> selection_passes n l = l.
Proof.
  intros Hs. revert n. induction Hs as [|x rest Hs IH Hx]; intros [|n]; simpl; try done.
  rewrite select_fixed by done. by rewrite IH.
Qed.

Lemma selection_passes_close n l :
  filter (fun d => is_closeb d = true) (selection_passes n l)
  = filter (fun d => is_closeb d = true) l.
Proof.
  revert l. induction n as [|n IH]; intros [|x rest]; simpl; try done.
  pose proof (select_close x rest) as Hc.
  destruct (select x rest) as [m r]. simpl in *.
  rewrite <- Hc. rewrite !(filter_cons _ m). by rewrite IH.
Qed.

Lemma in_priority_order_sorted l :
  in_priority_order l <-> StronglySorted by_priority l.
Proof.
  split.
  - induction l as [|x l IH]; intros H; constructor.
    + apply IH. intros i j a b Ha Hb Hij. apply (H (S i) (S j) a b); simpl; (done || lia).
    + apply Forall_lookup. intros j b Hb. apply (H 0%nat (S j) x b); simpl; (done || lia).
  - induction 1 as [|x l Hs IH Hx]; intros i j a b Ha Hb Hij.
    + by rewrite lookup_nil in Ha.
    + destruct j as [|j]; [lia|]. simpl in Hb. destruct i as [|i]; simpl in Ha.
      * injection Ha as <-. rewrite Forall_lookup in Hx. by apply (Hx j).
      * apply (IH i j); (done || lia).
Qed.

Lemma in_priority_order_before (P Q : Decision -> Prop) l :
  (forall a b, P a -> Q b -> (priority a < priority b)%Z) ->
  in_priority_order l -> all_before P Q l.
Proof.
  intros HPQ Hl i j a b Ha Hb HP HQ.
  destruct (decide (i < j)%nat) as [|Hge]; [done|].
  specialize (HPQ a b HP HQ).
  destruct (decide (i = j)) as [->|Hne].
  - rewrite Ha in Hb. injection Hb as <-. lia.
  - specialize (Hl j i b a Hb Ha). lia.
Qed.

Lemma priority_of_close d : is_close d -> priority d = 1%Z.
Proof. unfold priority, getActionPriority. by intros [-> | ->]. Qed.
Lemma priority_of_open d : is_open d -> priority d = 2%Z.
Proof. unfold priority, getActionPriority. by intros [-> | ->]. Qed.
Lemma priority_of_hold_wait d : is_hold_wait d -> priority d = 3%Z.
Proof. unfold priority, getActionPriority. by intros [-> | ->]. Qed.
Lemma priority_of_unknown d : is_unknown d -> priority d = 999%Z.
Proof.
  unfold is_unknown, is_close, is_open, is_hold_wait, priority, getActionPriority.
  intros (Hc & Ho & Hh).
  repeat match goal with
         | |- context [(?a =? ?b)%string] =>
             destruct (String.eqb_spec a b); [tauto|]
         end.
  done.
Qed.
Lemma priority_upper_bound d : (priority d <= 999)%Z.
Proof.
  unfold priority, getActionPriority.
  repeat match goal with |- context [if ?b then _ else _] => destruct b end; lia.
Qed.
Lemma priority_known d : ~ is_unknown d -> (priority d < 999)%Z.
Proof.
  intros Hk. unfold is_unknown, is_close, is_open, is_hold_wait in Hk.
  unfold priority, getActionPriority.
  repeat match goal with
         | |- context [(?a =? ?b)%string] =>
             destruct (String.eqb_spec a b); [simpl; lia|]
         end.
  tauto.
Qed.

(** C1: for every batch, [sortDecisionsByPriority] returns a rearrangement
    of it in which every close_long/close_short decision precedes every
    open_long/open_short decision, which precedes every hold/wait decision,
    with the unknown actions last; a batch that is already in that order
    comes back unchanged, so sorting twice is sorting once; and
    [open_long(BTC), close_short(BTC), hold(ETH)] is returned as
    [close_short(BTC), open_long(BTC), hold(ETH)]. *)
Theorem sortDecisionsByPriority_closes_first :
  forall batch : list Decision,
    let out := sortDecisionsByPriority batch in
    out ≡ₚ batch /\
    in_priority_order out /\
    all_before is_close is_open out /\
    all_before is_open is_hold_wait out /\
    all_before is_close is_hold_wait out /\
    all_before (fun d => ~ is_unknown d) is_unknown out /\
    (in_priority_order batch -> sortDecisionsByPriority batch = batch) /\
    sortDecisionsByPriority out = out /\
    sortDecisionsByPriority
      [intent "open_long" "BTC"; intent "close_short" "BTC"; intent "hold" "ETH"]
    = [intent "close_short" "BTC"; intent "open_long" "BTC"; intent "hold" "ETH"].
Proof.
  intros batch out.
  assert (Hord : in_priority_order out).
  { apply in_priority_order_sorted. subst out.
    rewrite sortDecisionsByPriority_passes. by apply selection_passes_sorted. }
  assert (Hfix : forall l, in_priority_order l -> sortDecisionsByPriority l = l).
  { intros l Hl. rewrite sortDecisionsByPriority_passes.
    by apply selection_passes_fixed, in_priority_order_sorted. }
  split; [|split; [done|]].
  { subst out. rewrite sortDecisionsByPriority_passes. apply selection_passes_perm. }
  repeat split.
  - apply in_priority_order_before; [|done]. intros a b Ha Hb.
    rewrite (priority_of_close a), (priority_of_open b) by done. lia.
  - apply in_priority_order_before; [|done]. intros a b Ha Hb.
    rewrite (priority_of_open a), (priority_of_hold_wait b) by done. lia.
  - apply in_priority_order_before; [|done]. intros a b Ha Hb.
    rewrite (priority_of_close a), (priority_of_hold_wait b) by done. lia.
  - apply in_priority_order_before; [|done]. intros a b Ha Hb.
    rewrite (priority_of_unknown b) by done. by apply priority_known.
  - apply Hfix.
  - by apply Hfix.
Qed.

(** C2, as stated, fails: [open_long(A), open_long(B), close_long(C)] comes
    back as [close_long(C), open_long(B), open_long(A)], the two open
    decisions in reverse order. *)
Lemma sortDecisionsByPriority_not_stable :
  ~ (forall (batch : list Decision) (d : Decision),
       filter (fun x => same_classb d x = true) (sortDecisionsByPriority batch)
       = filter (fun x => same_classb d x = true) batch).
Proof.
  intros H.
  specialize (H [intent "open_long" "A"; intent "open_long" "B"; intent "close_long" "C"]
                (intent "open_long" "A")).
  vm_compute in H. discriminate H.
Qed.

(** C2, amended: for every batch, [sortDecisionsByPriority] returns a
    rearrangement of the batch in which the close_long/close_short
    decisions keep the relative order they had in the input, and a batch
    already in priority order keeps the order of every class. *)
Theorem sortDecisionsByPriority_stable_on_closes :
  forall batch : list Decision,
    sortDecisionsByPriority batch ≡ₚ batch /\
    filter (fun d => is_closeb d = true) (sortDecisionsByPriority batch)
    = filter (fun d => is_closeb d = true) batch /\
    (forall d, is_closeb d = true <-> is_close d) /\
    (in_priority_order batch ->
     forall d, filter (fun x => same_classb d x = true) (sortDecisionsByPriority batch)
               = filter (fun x => same_classb d x = true) batch).
Proof.
  intros batch. rewrite sortDecisionsByPriority_passes. repeat split.
  - apply selection_passes_perm.
  - apply selection_passes_close.
  - unfold is_closeb, is_close. intros H.
    apply orb_true_iff in H as [H|H]; apply String.eqb_eq in H; auto.
  - unfold is_closeb, is_close. intros [H|H]; apply orb_true_iff;
      [left|right]; by apply String.eqb_eq.
  - intros Hl d. rewrite selection_passes_fixed; [done|].
    by apply in_priority_order_sorted.
Qed.

End SequencerFacts.


(** ** Facts of binary64 comparison *)

Section Binary64Facts.

Lemma b64_zero : Prim2SF (b64_of_Z 0) = S754_zero false.
Proof. reflexivity. Qed.

Ltac by_sign x :=
  rewrite ?FloatAxioms.ltb_spec, ?FloatAxioms.leb_spec, ?FloatAxioms.eqb_spec,
    ?FloatAxioms.opp_spec, ?b64_zero;
  unfold b64_is_nan;
  destruct (Prim2SF x) as [[]|[]| |[] ? ?];
  unfold SFltb, SFleb, SFeqb, SFcompare, SFopp; simpl; intros; congruence.

Lemma b64_pos_not_le (x : float) :
  (b64_of_Z 0 <? x)%float = true -> (x <=? b64_of_Z 0)%float = false.
Proof. by_sign x. Qed.

Lemma b64_not_le_pos (x : float) :
  (x <=? b64_of_Z 0)%float = false -> b64_is_nan x = false ->
  (b64_of_Z 0 <? x)%float = true.
Proof. by_sign x. Qed.

Lemma b64_neg_opp_pos (x : float) :
  (x <? b64_of_Z 0)%float = true -> (b64_of_Z 0 <? - x)%float = true.
Proof. by_sign x. Qed.

Lemma b64_neg_not_pos (x : float) :
  (x <? b64_of_Z 0)%float = true -> (b64_of_Z 0 <? x)%float = false.
Proof. by_sign x. Qed.

Lemma b64_nonzero_nonneg_pos (x : float) :
  (x =? b64_of_Z 0)%float = false -> (x <? b64_of_Z 0)%float = false ->
  b64_is_nan x = false -> (b64_of_Z 0 <? x)%float = true.
Proof. by_sign x. Qed.

Lemma b64_nonzero_nonpos_neg (x : float) :
  (x =? b64_of_Z 0)%float = false -> (b64_of_Z 0 <? x)%float = false ->
  b64_is_nan x = false -> (b64_of_Z 0 <? - x)%float = true.
Proof. by_sign x. Qed.

Lemma b64_neg_opp_not_le (x : float) :
  (x <? b64_of_Z 0)%float = true -> (- x <=? b64_of_Z 0)%float = false.
Proof. by_sign x. Qed.

Lemma b64_nonzero_nonneg_not_le (x : float) :
  (x =? b64_of_Z 0)%float = false -> (x <? b64_of_Z 0)%float = false ->
  (x <=? b64_of_Z 0)%float = false.
Proof. by_sign x. Qed.

Lemma b64_nonzero_nonpos_opp_not_le (x : float) :
  (x =? b64_of_Z 0)%float = false -> (b64_of_Z 0 <? x)%float = false ->
  (- x <=? b64_of_Z 0)%float = false.
Proof. by_sign x. Qed.

Lemma b64_opp_nan (x : float) : b64_is_nan (- x) = b64_is_nan x.
Proof.
  unfold b64_is_nan. rewrite FloatAxioms.opp_spec.
  by destruct (Prim2SF x) as [[]|[]| |[] ? ?].
Qed.

End Binary64Facts.

(** ** Rounding to a tick *)

Section TickFacts.
Local Open Scope R_scope.

Lemma R_leb_false (x y : R) : y < x -> R_leb x y = false.
Proof. intros. unfold R_leb. destruct (Rle_dec x y); [lra|done]. Qed.

Lemma R_leb_true (x y : R) : x <= y -> R_leb x y = true.
Proof. intros. unfold R_leb. destruct (Rle_dec x y); [done|lra]. Qed.

Lemma R_ltb_true (x y : R) : x < y -> R_ltb x y = true.
Proof. intros. unfold R_ltb. destruct (Rlt_dec x y); [done|lra]. Qed.

Lemma R_ltb_false (x y : R) : y <= x -> R_ltb x y = false.
Proof. intros. unfold R_ltb. destruct (Rlt_dec x y); [lra|done]. Qed.

(** The floor, between its argument less one and its argument. *)
Lemma Int_part_bounds (x : R) : IZR (Int_part x) <= x < IZR (Int_part x) + 1.
Proof. destruct (base_Int_part x). lra. Qed.

(** [math.Round] in exact arithmetic: an integer at most one half away. *)
Lemma R_Round_nearest (x : R) :
  exists k : Z, R_Round x = IZR k /\ Rabs (x - IZR k) <= / 2.
Proof.
  unfold R_Round. destruct (Rle_dec 0 x) as [Hx|Hx].
  - exists (Int_part (x + / 2)). split; [done|].
    pose proof (Int_part_bounds (x + / 2)). apply Rabs_le. lra.
  - exists (- Int_part (- x + / 2))%Z. split; [done|].
    pose proof (Int_part_bounds (- x + / 2)). rewrite opp_IZR. apply Rabs_le. lra.
Qed.

Lemma roundToTickSize_exact (v t : R) :
  0 < t ->
  exists k : Z, roundToTickSize v t = IZR k * t /\ Rabs (v - IZR k * t) <= t / 2.
Proof.
  intros Ht. unfold roundToTickSize, roundToTickSize_traced. simpl.
  rewrite R_leb_false by done. simpl.
  destruct (R_Round_nearest (v / t)) as (k & -> & Hk). exists k. split; [done|].
  replace (v - IZR k * t) with ((v / t - IZR k) * t) by (field; lra).
  rewrite Rabs_mult, (Rabs_pos_eq t) by lra.
  apply Rle_trans with (/ 2 * t); [|lra].
  apply Rmult_le_compat_r; lra.
Qed.

Lemma roundToTickSize_binary64 (v t : float) :
  (t >? f_int 0)%f64 = true ->
  roundToTickSize v t = (math_Round (v / t) * t)%f64.
Proof.
  intros Ht. unfold roundToTickSize, roundToTickSize_traced.
  change (f_leb t (f_int 0)) with (t <=? b64_of_Z 0)%float.
  rewrite b64_pos_not_le by exact Ht. done.
Qed.

Lemma R_Round_at (x : R) (k : Z) :
  0 <= x -> IZR k - / 2 <= x < IZR k + / 2 -> R_Round x = IZR k.
Proof.
  intros Hx Hk. unfold R_Round. destruct (Rle_dec 0 x); [|lra].
  f_equal. symmetry. apply Int_part_spec. lra.
Qed.

Lemma roundToTickSize_exact_100_237 :
  roundToTickSize (f_dec 100237 3 : R) (f_dec 1 2) = f_dec 10024 2.
Proof.
  unfold roundToTickSize, roundToTickSize_traced, f_dec. simpl.
  change (10 ^ Z.of_nat 3)%Z with 1000%Z. change (10 ^ Z.of_nat 2)%Z with 100%Z.
  rewrite R_leb_false by lra. simpl.
  rewrite (R_Round_at _ 10024); lra.
Qed.

(** C3, as stated, fails on the last clause: in binary64,
    [roundToTickSize(100.237, 0.01)] is [100.24000000000001], which Go's
    [==] tells apart from [100.24]. *)
Lemma roundToTickSize_100_237_is_not_100_24 :
  roundToTickSize 100.237%float 0.01%float = 100.24000000000001%float /\
  (roundToTickSize 100.237%float 0.01%float =? 100.24%float)%f64 = false.
Proof. split; reflexivity. Qed.

(** C3, amended: for every value [v] and every [tickSize > 0],
    [roundToTickSize(v, tickSize)] is [round(v/tickSize) * tickSize] in
    binary64; without rounding error that is an integer multiple of
    [tickSize], the one nearest to [v]; and [roundToTickSize(100.237, 0.01)]
    is [100.24] without rounding error and the float next above [100.24],
    [100.24000000000001], in binary64. *)
Theorem roundToTickSize_nearest_multiple :
  (forall v t : float,
      (t >? f_int 0)%f64 = true ->
      roundToTickSize v t = (math_Round (v / t) * t)%f64) /\
  (forall v t : R,
      0 < t ->
      exists k : Z, roundToTickSize v t = IZR k * t /\ Rabs (v - IZR k * t) <= t / 2) /\
  roundToTickSize (f_dec 100237 3 : R) (f_dec 1 2) = f_dec 10024 2 /\
  (f_dec 100237 3 : float) = 100.237%float /\
  (f_dec 1 2 : float) = 0.01%float /\
  (f_dec 10024 2 : float) = 100.24%float /\
  roundToTickSize 100.237%float 0.01%float = next_up 100.24%float.
Proof.
  split; [exact roundToTickSize_binary64|].
  split; [exact roundToTickSize_exact|].
  split; [exact roundToTickSize_exact_100_237|].
  repeat split; reflexivity.
Qed.

End TickFacts.

(** ** The formatters of the Aster trader *)

Section FormatFacts.
Variable env : Aster.Env.

Lemma getPrecision_cached symbol st prec :
  Aster.symbolPrecision st !! symbol = Some prec ->
  Aster.getPrecision env symbol st = (Ok prec, st).
Proof.
  intros Hc. unfold Aster.getPrecision, mbind, M_bind, gets. by rewrite Hc.
Qed.

Lemma formatPrice_by_precision symbol price st prec st' :
  Aster.getPrecision env symbol st = (Ok prec, st') ->
  Aster.formatPrice env symbol price st =
  (Ok (if (Aster.TickSize prec >? f_int 0)%f64
       then (math_Round (price / Aster.TickSize prec) * Aster.TickSize prec)%f64
       else (math_Round (price * math_Pow10 (Aster.PricePrecision prec))
             / math_Pow10 (Aster.PricePrecision prec))%f64), st').
Proof.
  intros Hg. unfold Aster.formatPrice, mbind, M_bind. rewrite Hg.
  destruct (Aster.TickSize prec >? f_int 0)%f64 eqn:Ht; [|done].
  by rewrite roundToTickSize_binary64.
Qed.

Lemma formatQuantity_by_precision symbol quantity st prec st' :
  Aster.getPrecision env symbol st = (Ok prec, st') ->
  Aster.formatQuantity env symbol quantity st =
  (Ok (if (Aster.StepSize prec >? f_int 0)%f64
       then (math_Round (quantity / Aster.StepSize prec) * Aster.StepSize prec)%f64
       else (math_Round (quantity * math_Pow10 (Aster.QuantityPrecision prec))
             / math_Pow10 (Aster.QuantityPrecision prec))%f64), st').
Proof.
  intros Hg. unfold Aster.formatQuantity, mbind, M_bind. rewrite Hg.
  destruct (Aster.StepSize prec >? f_int 0)%f64 eqn:Ht; [|done].
  by rewrite roundToTickSize_binary64.
Qed.

End FormatFacts.

(** C10: [roundToTickSize] is defined on every pair of floats; for every
    [tickSize <= 0] it returns the value unchanged and performs no
    division; the only division it ever performs is by the tick, and then
    the tick is not [<= 0] (it is strictly positive unless it is NaN); and
    [formatPrice] and [formatQuantity], with the precision record
    [getPrecision] gives them (the cached one on a hit), round to the
    tick/step when it is strictly positive and to [PricePrecision] /
    [QuantityPrecision] decimals otherwise. *)
Theorem roundToTickSize_guards_the_division :
  (forall v t : float,
      (t <=? f_int 0)%f64 = true -> roundToTickSize_traced v t = (v, [])) /\
  (forall (v t : float) (d : float * float),
      d ∈ (roundToTickSize_traced v t).2 ->
      d = (v, t) /\ (t <=? f_int 0)%f64 = false /\
      (b64_is_nan t = false -> (t >? f_int 0)%f64 = true)) /\
  (forall env symbol st prec,
      Aster.symbolPrecision st !! symbol = Some prec ->
      Aster.getPrecision env symbol st = (Ok prec, st)) /\
  (forall env symbol price st prec st',
      Aster.getPrecision env symbol st = (Ok prec, st') ->
      Aster.formatPrice env symbol price st =
      (Ok (if (Aster.TickSize prec >? f_int 0)%f64
           then (math_Round (price / Aster.TickSize prec) * Aster.TickSize prec)%f64
           else (math_Round (price * math_Pow10 (Aster.PricePrecision prec))
                 / math_Pow10 (Aster.PricePrecision prec))%f64), st')) /\
  (forall env symbol quantity st prec st',
      Aster.getPrecision env symbol st = (Ok prec, st') ->
      Aster.formatQuantity env symbol quantity st =
      (Ok (if (Aster.StepSize prec >? f_int 0)%f64
           then (math_Round (quantity / Aster.StepSize prec) * Aster.StepSize prec)%f64
           else (math_Round (quantity * math_Pow10 (Aster.QuantityPrecision prec))
                 / math_Pow10 (Aster.QuantityPrecision prec))%f64), st')).
Proof.
  split; [|split; [|split; [|split]]].
  - intros v t Ht. unfold roundToTickSize_traced. by rewrite Ht.
  - intros v t d. unfold roundToTickSize_traced.
    destruct (t <=? f_int 0)%f64 eqn:Ht; simpl; intros Hd.
    + by apply elem_of_nil in Hd.
    + apply list_elem_of_singleton in Hd. repeat split; [done|].
      intros Hnan. by apply b64_not_le_pos.
  - apply getPrecision_cached.
  - apply formatPrice_by_precision.
  - apply formatQuantity_by_precision.
Qed.

(** ** Rounding to five significant figures, without rounding error *)

Section SigfigsExact.
Local Open Scope R_scope.

Lemma pow10_pos (n : nat) : 0 < 10 ^ n.
Proof. apply pow_lt. lra. Qed.

Lemma pow10_unbounded (x : R) : exists N : nat, x < 10 ^ N.
Proof.
  assert (H10 : Rabs 10 > 1) by (rewrite Rabs_pos_eq; lra).
  destruct (Pow_x_infinity 10 H10 (x + 1)) as [N HN].
  exists N. assert (HNN : (N >= N)%nat) by lia. specialize (HN N HNN).
  rewrite Rabs_pos_eq in HN by (pose proof (pow10_pos N); lra). lra.
Qed.

(** The first loop divides by ten until the magnitude is below ten, given
    fuel for it. *)
Lemma scale_down_exact (N : nat) :
  forall mag mult : R,
    0 < mag -> mag < 10 ^ N ->
    exists (j : nat) (mag' mult' : R),
      mag' * 10 ^ j = mag /\ mult' * 10 ^ j = mult /\
      mag' < 10 /\ (1 <= mag -> 1 <= mag') /\
      forall fuel, (N < fuel)%nat -> scale_down fuel mag mult = Some (mag', mult').
Proof.
  induction N as [|N IH]; intros mag mult Hpos Hlt; simpl in *.
  - exists 0%nat, mag, mult. simpl. repeat split; try lra.
    intros [|fuel] Hf; [lia|]. simpl. by rewrite R_leb_false by lra.
  - destruct (Rle_dec 10 mag) as [Hge|Hsmall].
    + destruct (IH (mag / 10) (mult / 10)) as (j & mag' & mult' & Hm & Hu & Hlt' & Hge' & Hrun);
        [lra|lra|].
      exists (S j), mag', mult'. simpl. repeat split; try lra.
      intros [|fuel] Hf; [lia|]. simpl. rewrite R_leb_true by done. apply Hrun. lia.
    + exists 0%nat, mag, mult. simpl. repeat split; try lra.
      intros [|fuel] Hf; [lia|]. simpl. by rewrite R_leb_false by lra.
Qed.

(** The second loop multiplies by ten until the magnitude reaches one. *)
Lemma scale_up_exact (N : nat) :
  forall mag mult : R,
    0 < mag -> 1 <= mag * 10 ^ N ->
    exists (i : nat) (mag' mult' : R),
      mag' = mag * 10 ^ i /\ mult' = mult * 10 ^ i /\
      1 <= mag' /\ (mag < 10 -> mag' < 10) /\
      forall fuel, (N < fuel)%nat -> scale_up fuel mag mult = Some (mag', mult').
Proof.
  induction N as [|N IH]; intros mag mult Hpos Hge; simpl in *.
  - exists 0%nat, mag, mult. simpl. repeat split; try lra.
    intros [|fuel] Hf; [lia|]. simpl. by rewrite R_ltb_false by lra.
  - destruct (Rlt_dec mag 1) as [Hsmall|Hbig].
    + destruct (IH (mag * 10) (mult * 10)) as (i & mag' & mult' & Hm & Hu & Hge' & Hlt' & Hrun);
        [lra|lra|].
      exists (S i), mag', mult'. simpl. repeat split; try lra.
      intros [|fuel] Hf; [lia|]. simpl. rewrite R_ltb_true by done. apply Hrun. lia.
    + exists 0%nat, mag, mult. simpl. repeat split; try lra.
      intros [|fuel] Hf; [lia|]. simpl. by rewrite R_ltb_false by lra.
Qed.

(** The two loops together, on a positive price: the mantissa ends in
    [[1, 10)], with a multiplier that is a power of ten. *)
Lemma normalise_exact (p : R) :
  0 < p ->
  exists (fuel0 i j : nat) (s : R),
    s * 10 ^ j = 10 ^ i /\
    1 <= p * s < 10 /\
    forall fuel, (fuel0 <= fuel)%nat -> normalise fuel p = Some (p * s, s).
Proof.
  intros Hp.
  destruct (pow10_unbounded p) as [N1 HN1].
  destruct (scale_down_exact N1 p 1) as (j & m1 & u1 & Hm1 & Hu1 & Hlt1 & Hge1 & Hrun1);
    [done|done|].
  assert (Hj : 0 < 10 ^ j) by apply pow10_pos.
  assert (Hm1pos : 0 < m1) by nra.
  destruct (pow10_unbounded (/ m1)) as [N2 HN2].
  assert (HN2' : 1 <= m1 * 10 ^ N2).
  { apply Rmult_lt_compat_l with (r := m1) in HN2; [|done].
    rewrite Rinv_r in HN2 by lra. lra. }
  destruct (scale_up_exact N2 m1 u1) as (i & m2 & u2 & Hm2 & Hu2 & Hge2 & Hlt2 & Hrun2);
    [done|done|].
  exists (S (Nat.max N1 N2)), i, j, u2.
  assert (Hi : 0 < 10 ^ i) by apply pow10_pos.
  assert (Hmu : m2 = p * u2).
  { subst m2 u2. rewrite <- Hm1.
    replace (m1 * 10 ^ j * (u1 * 10 ^ i)) with (m1 * 10 ^ i * (u1 * 10 ^ j)) by ring.
    rewrite Hu1. ring. }
  split; [|split].
  - subst u2. replace (u1 * 10 ^ i * 10 ^ j) with (u1 * 10 ^ j * 10 ^ i) by ring.
    rewrite Hu1. ring.
  - rewrite <- Hmu. split; [done|]. by apply Hlt2.
  - intros fuel Hf. unfold normalise. simpl.
    rewrite R_ltb_false by lra.
    rewrite Hrun1 by lia. rewrite Hrun2 by lia. by rewrite Hmu.
Qed.

Lemma int64_range_small (n : Z) : (0 <= n <= 100000)%Z -> int64_range n = true.
Proof.
  intros Hn. unfold int64_range. apply andb_true_intro.
  split; [apply Z.leb_le|apply Z.ltb_lt]; lia.
Qed.



End SigfigsExact.

(** ** Rounding to five significant figures, in binary64 *)

Section SigfigsBinary64.


(** A negative price is rounded toward zero after the half is added:
    [-1] comes back as [-0.9999]. *)
Lemma roundPriceToSigfigs_negative_one :
  roundPriceToSigfigs 400 (-1)%float = Returns (-0.9999)%float.
Proof. reflexivity. Qed.

(** On [+Inf] the first loop never ends: no fuel is enough. *)
Lemma scale_down_infinity (fuel : nat) (multiplier : float) :
  scale_down fuel infinity multiplier = None.
Proof.
  revert multiplier. induction fuel as [|fuel IH]; intros multiplier; [done|].
  simpl. change (b64_of_Z 10 <=? infinity)%float with true. simpl.
  change (infinity / b64_of_Z 10)%float with infinity. apply IH.
Qed.

Lemma roundPriceToSigfigs_infinity (fuel : nat) :
  roundPriceToSigfigs fuel infinity = Diverges.
Proof.
  unfold roundPriceToSigfigs, normalise.
  change (infinity =? f_int 0)%f64 with false.
  change (infinity <? f_int 0)%f64 with false. simpl.
  by rewrite scale_down_infinity.
Qed.

End SigfigsBinary64.

(** ** The retrying signed call of the Aster trader *)

Section RequestTrace.
Import Aster.
Variable env : Env.

Lemma with_heap_id s : with_heap s (heap s) = s.
Proof. by destruct s. Qed.

(** The copy loop of [request] fills the fresh map with the caller's entries. *)
Lemma copy_loop (l : ref) (original : gmap string value) :
  forall s m0, heap s !! l = Some m0 ->
    map_fold (fun k v (copy : M State unit) => copy;; map_set l k v) (mret tt) original s
    = (Ok tt, with_heap s (<[l := original ∪ m0]> (heap s))).
Proof.
  apply (map_fold_weak_ind
           (fun (r : M State unit) (m : gmap string value) =>
              forall s m0, heap s !! l = Some m0 ->
                r s = (Ok tt, with_heap s (<[l := m ∪ m0]> (heap s))))).
  - intros s m0 Hl. rewrite (left_id_L ∅ (∪)), insert_id by done.
    by rewrite with_heap_id.
  - intros k v m r Hk IH s m0 Hl.
    unfold mbind, M_bind. rewrite (IH s m0 Hl). unfold map_set. simpl.
    rewrite lookup_insert_eq. unfold with_heap. simpl.
    by rewrite insert_insert_eq, insert_union_l.
Qed.

Lemma sign_spec (l : ref) (nonce : Z) (s : State) (c : gmap string value) :
  heap s !! l = Some c ->
  exists s' r,
    sign env l nonce s = (r, s') /\
    trace s' = trace s ++ [Signing nonce l c] /\
    (clock_monotone env -> now s <= now s')%Z /\
    (forall l', l' <> l -> heap s' !! l' = heap s !! l') /\
    dom (heap s') = dom (heap s) /\
    match r with
    | Ok _ => exists c', heap s' !! l = Some c' /\
                         c' !! "nonce" = Some (VInt nonce) /\
                         is_Some (c' !! "signature")
    | Err _ => True
    | Panic => False
    end.
Proof.
  intros Hl. unfold sign, read_map, gets, emit, map_set, fail, mbind, M_bind, mret, M_ret.
  simpl. rewrite Hl. simpl. rewrite !lookup_insert_eq. simpl.
  assert (Hdom : l ∈ dom (heap s)) by (apply elem_of_dom; eauto).
  destruct (sign_digest env _ _ _ _) as [e|sig]; simpl.
  - eexists _, _. split; [reflexivity|]. simpl.
    repeat split; [| |set_solver].
    + intros He. specialize (He (trace s ++ [Signing nonce l c])). lia.
    + intros l' Hne. by rewrite !lookup_insert_ne.
  - rewrite !lookup_insert_eq. simpl. rewrite !lookup_insert_eq. simpl.
    rewrite !lookup_insert_eq. simpl. rewrite !lookup_insert_eq. simpl.
    eexists _, _. split; [reflexivity|]. simpl.
    repeat split; [| |set_solver|].
    + intros He. specialize (He (trace s ++ [Signing nonce l c])). lia.
    + intros l' Hne. by rewrite !lookup_insert_ne.
    + eexists. split; [apply lookup_insert_eq|]. split; [apply lookup_insert_eq|].
      rewrite lookup_insert_ne by done. rewrite lookup_insert_eq. eauto.
Qed.

(** [doRequest] sends at most one exchange, carrying the map as it stands. *)
Lemma exchange_spec (method url : string) (payload : gmap string string) (s : State) :
  exists s' r,
    exchange env method url payload s = (r, s') /\
    trace s' = trace s ++ [Http method url payload] /\
    (clock_monotone env -> now s <= now s')%Z /\
    heap s' = heap s /\
    r <> Panic.
Proof.
  unfold exchange, client_Do, gets, emit, fail, mbind, M_bind, mret, M_ret. simpl.
  assert (He : clock_monotone env ->
    (0 <= elapse env (trace s ++ [Http method url payload]))%Z) by (intros He; apply He).
  destruct (venue env _) as [e|status body]; simpl.
  - eexists _, _. split; [reflexivity|]. simpl.
    repeat split; [intros Hm; specialize (He Hm); lia|done].
  - destruct (status =? 200)%Z; simpl;
      (eexists _, _; split; [reflexivity|]; simpl;
       repeat split; [intros Hm; specialize (He Hm); lia|done]).
Qed.

(** [doRequest] sends at most one exchange, carrying the map as it stands. *)
Lemma doRequest_spec (method endpoint : string) (l : ref) (s : State) :
  exists s' r new,
    doRequest env method endpoint l s = (r, s') /\
    trace s' = trace s ++ new /\
    (clock_monotone env -> now s <= now s')%Z /\
    heap s' = heap s /\
    (new = [] \/
     exists m u, new = [Http m u (render env <$> default ∅ (heap s !! l))]) /\
    r <> Panic.
Proof.
  unfold doRequest.
  destruct (strings_ToUpper method =? "POST")%string.
  - unfold mbind, M_bind, read_map, gets.
    destruct (exchange_spec "POST" (baseURL ++ endpoint)
                (render env <$> default ∅ (heap s !! l)) s) as (s' & r & Hx & Htr & Hn & Hh & Hr).
    rewrite Hx. exists s', r, [Http "POST" (baseURL ++ endpoint)
                                     (render env <$> default ∅ (heap s !! l))].
    destruct r; [|by eauto 10|done]. eauto 10.
  - destruct (_ || _)%bool.
    + unfold mbind, M_bind, read_map, gets.
      destruct (exchange_spec (strings_ToUpper method) (baseURL ++ endpoint)
                  (render env <$> default ∅ (heap s !! l)) s)
        as (s' & r & Hx & Htr & Hn & Hh & Hr).
      rewrite Hx. exists s', r, [Http (strings_ToUpper method) (baseURL ++ endpoint)
                                       (render env <$> default ∅ (heap s !! l))].
      destruct r; [|by eauto 10|done]. eauto 10.
    + eexists _, _, []. split; [reflexivity|]. rewrite app_nil_r.
      repeat split; [intros; lia|eauto|done].
Qed.

Lemma nonces_app (a b : list Event) : nonces (a ++ b) = nonces a ++ nonces b.
Proof. apply omap_app. Qed.

Lemma calls_app (a b : list Event) : calls (a ++ b) = calls a ++ calls b.
Proof. apply omap_app. Qed.

Lemma sleeps_app (a b : list Event) : sleeps (a ++ b) = sleeps a ++ sleeps b.
Proof. apply omap_app. Qed.

Lemma backoff_nil (attempt : Z) : backoff attempt [].
Proof. exists 0%nat. split; [done|]. by left. Qed.

Lemma backoff_cons (attempt : Z) (ds : list Z) :
  (attempt < maxRetries)%Z -> backoff (attempt + 1) ds ->
  backoff attempt ((attempt * 1000000)%Z :: ds).
Proof.
  intros Hlt (k & -> & Hk). exists (S k). split.
  - rewrite (seqZ_cons attempt) by lia. rewrite fmap_cons. do 3 f_equal; lia.
  - right. destruct Hk as [->|Hk]; lia.
Qed.

Lemma backoff_first (ds : list Z) :
  backoff 1 ds -> ds = [] \/ ds = [1000000]%Z \/ ds = [1000000; 2000000]%Z.
Proof.
  intros (k & -> & Hk). unfold maxRetries in Hk.
  destruct k as [|[|[|k]]]; [by left|right; by left|right; by right|lia].
Qed.

Lemma request_loop_spec (method endpoint : string) (p : ref) (n : nat) :
  forall (attempt : Z) (lastErr : string) (st : State) (original : gmap string value),
    (1 <= attempt)%Z ->
    heap st !! p = Some original ->
    exists st' r new ts,
      request_loop env n attempt method endpoint p lastErr st = (r, st') /\
      loop_post env p original st st' r new ts /\
      (length ts <= n)%nat /\
      backoff attempt (sleeps new).
Proof.
  induction n as [|n IH]; intros attempt lastErr st original Hatt Hp.
  - exists st, (Err ("請求失敗（已重試" ++ pretty maxRetries ++ "次）: " ++ lastErr)%string), [], [].
    split; [done|]. split; [|split; [done|by apply backoff_nil]].
    unfold loop_post. rewrite app_nil_r.
    repeat split; try done; try constructor.
  - simpl request_loop. unfold mbind, M_bind, genNonce, read_map, gets, new_map, try,
      mret, M_ret, time_Sleep, emit, fail.
    simpl. rewrite Hp. simpl.
    set (l := fresh (dom (heap st))).
    assert (Hl : l ∉ dom (heap st)) by apply is_fresh.
    assert (Hlp : l <> p).
    { intros ->. apply Hl, elem_of_dom. eauto. }
    set (s1 := {| symbolPrecision := symbolPrecision st; heap := <[l:=∅]> (heap st);
                  now := now st; trace := trace st |}).
    assert (Hs1 : heap s1 !! l = Some ∅) by (simpl; apply lookup_insert_eq).
    pose proof (copy_loop l original s1 ∅ Hs1) as Hc.
    unfold mbind, M_bind, mret, M_ret in Hc. rewrite Hc. clear Hc.
    rewrite (right_id_L ∅ (∪)). unfold with_heap. simpl. rewrite insert_insert_eq.
    set (s2 := {| symbolPrecision := symbolPrecision st; heap := <[l:=original]> (heap st);
                  now := now st; trace := trace st |}).
    assert (Hs2 : heap s2 !! l = Some original) by (simpl; apply lookup_insert_eq).
    destruct (sign_spec l (now st mod 2 ^ 64)%Z s2 original Hs2)
      as (s3 & r3 & Hsign & Htr3 & Hnow3 & Hframe3 & Hdom3 & Hr3).
    rewrite Hsign. simpl in Htr3, Hnow3, Hdom3.
    assert (Hp3 : heap s3 !! p = Some original).
    { rewrite Hframe3 by done. simpl. by rewrite lookup_insert_ne. }
    assert (Hsub3 : dom (heap st) ⊆ dom (heap s3)).
    { rewrite Hdom3. simpl. set_solver. }
    destruct r3 as [[]|e3|]; [|clear Hr3|done].
    2:{ exists s3, (Err e3), [Signing (now st mod 2 ^ 64)%Z l original], [now st].
        split; [done|]. split; [|simpl; split; [lia|by apply backoff_nil]]. unfold loop_post.
        split; [done|]. split; [done|]. split; [done|]. split; [done|]. split; [done|].
        split; [repeat constructor; done|]. split; [done|]. split; [done|].
        intros Hm. specialize (Hnow3 Hm).
        split; [lia|]. split; repeat constructor; lia. }
    destruct Hr3 as (c' & Hc' & Hnonce & Hsig).
    destruct (doRequest_spec method endpoint l s3)
      as (s4 & r4 & new4 & Hdo & Htr4 & Hnow4 & Hheap4 & Hnew4 & Hr4).
    rewrite Hdo. rewrite Hc' in Hnew4. simpl in Hnew4.
    assert (Hsigned : forall tail,
               each_exchange_signed tail ->
               match tail with Http _ _ _ :: _ => False | _ => True end ->
               each_exchange_signed (Signing (now st mod 2 ^ 64)%Z l original :: new4 ++ tail)).
    { intros tail Ht Hhead. destruct Hnew4 as [->|(m' & u' & ->)]; simpl.
      - by destruct tail as [|[] tail].
      - rewrite lookup_fmap, Hnonce. split; [done|]. split; [|done].
        rewrite lookup_fmap. destruct Hsig as [sg ->]. by eexists. }
    assert (Hnonces4 : nonces new4 = []).
    { by destruct Hnew4 as [->|(m' & u' & ->)]. }
    assert (Hcalls4 : calls new4 = []).
    { by destruct Hnew4 as [->|(m' & u' & ->)]. }
    assert (Hsigning4 : Forall (signing_of (heap st) original) new4).
    { destruct Hnew4 as [->|(m' & u' & ->)]; repeat constructor. }
    assert (Hsleeps4 : sleeps new4 = []).
    { by destruct Hnew4 as [->|(m' & u' & ->)]. }
    assert (Hstop : forall r, r <> Panic ->
      exists (st' : State) (r' : result string) (new : list Event) (ts : list Z),
        (r, s4) = (r', st') /\ loop_post env p original st st' r' new ts /\
        (length ts <= S n)%nat /\
        backoff attempt (sleeps new)).
    { intros r Hr.
      exists s4, r, (Signing (now st mod 2 ^ 64)%Z l original :: new4), [now st].
      split; [done|].
      split; [|simpl; split; [lia|rewrite Hsleeps4; by apply backoff_nil]]. unfold loop_post.
      split; [rewrite Htr4, Htr3; by rewrite <- app_assoc|].
      split; [by rewrite Hheap4|]. split; [by rewrite Hheap4|].
      split; [simpl; by rewrite Hnonces4|].
      split; [done|].
      split; [constructor; [done|done]|].
      split; [rewrite <- (app_nil_r new4); by apply Hsigned|].
      split; [done|]. intros Hm. specialize (Hnow3 Hm). specialize (Hnow4 Hm).
      split; [lia|]. split; repeat constructor; lia. }
    destruct r4 as [body|err|]; [by apply Hstop| |done].
    destruct (retryable err); [|by apply Hstop].
    destruct (attempt <? maxRetries)%Z eqn:Hlt; [|by apply Hstop].
    set (s5 := {| symbolPrecision := symbolPrecision s4; heap := heap s4;
                  now := now s4 + attempt * 1000000
                         + elapse env (trace s4 ++ [Sleep (attempt * 1000000)]);
                  trace := trace s4 ++ [Sleep (attempt * 1000000)] |}).
    assert (Hp5 : heap s5 !! p = Some original) by (simpl; by rewrite Hheap4).
    assert (Hatt' : (1 <= attempt + 1)%Z) by lia.
    destruct (IH (attempt + 1)%Z err s5 original Hatt' Hp5)
      as (st' & r & new & ts & Hrun
          & (Htr & Hp' & Hsub & Hnon & Hcalls & Hsg & Hex & Hr & Htime) & Hlen & Hsl).
    simpl in Htr, Hsub, Htime.
    exists st', r, (Signing (now st mod 2 ^ 64)%Z l original :: new4
                    ++ Sleep (attempt * 1000000) :: new), (now st :: ts).
    split; [done|]. split.
    2:{ split; [simpl; lia|].
        change (Signing (now st mod 2 ^ 64)%Z l original :: new4
                ++ Sleep (attempt * 1000000) :: new)
          with ([Signing (now st mod 2 ^ 64)%Z l original] ++ new4
                ++ [Sleep (attempt * 1000000)] ++ new).
        rewrite !sleeps_app, Hsleeps4. simpl.
        apply backoff_cons; [|done]. by apply Z.ltb_lt. }
    unfold loop_post.
    split; [rewrite Htr, Htr4, Htr3; by rewrite <- !app_assoc|].
    split; [done|].
    split; [rewrite Hheap4 in Hsub; set_solver|].
    split.
    { change (Signing (now st mod 2 ^ 64)%Z l original :: new4
              ++ Sleep (attempt * 1000000) :: new)
        with ([Signing (now st mod 2 ^ 64)%Z l original] ++ new4
              ++ [Sleep (attempt * 1000000)] ++ new).
      rewrite !nonces_app, Hnonces4, Hnon. done. }
    split.
    { change (Signing (now st mod 2 ^ 64)%Z l original :: new4
              ++ Sleep (attempt * 1000000) :: new)
        with ([Signing (now st mod 2 ^ 64)%Z l original] ++ new4
              ++ [Sleep (attempt * 1000000)] ++ new).
      rewrite !calls_app, Hcalls4, Hcalls. done. }
    split.
    { constructor; [done|]. apply Forall_app. split; [done|].
      constructor; [done|]. eapply Forall_impl; [exact Hsg|].
      intros [] Hev; simpl in *; try done. destruct Hev as [-> Hfresh]. split; [done|].
      rewrite Hheap4 in Hfresh. set_solver. }
    split; [by apply Hsigned|]. split; [done|].
    intros Hm. specialize (Hnow3 Hm). specialize (Hnow4 Hm).
    destruct (Htime Hm) as (Hnow & Hsort & Hts).
    pose proof (Hm (trace s4 ++ [Sleep (attempt * 1000000)])) as He5.
    split; [lia|]. split.
    + constructor; [done|]. eapply Forall_impl; [exact Hts|]. simpl. intros t Ht. lia.
    + constructor; [lia|]. eapply Forall_impl; [exact Hts|]. simpl. intros t Ht. lia.
Qed.


(** With an iteration left for every attempt up to [maxRetries], the loop
    of [request] leaves by a [return]: more iterations change nothing. *)
Lemma request_loop_leaves_by_return (method endpoint : string) (p : ref) (n : nat) :
  forall (k : nat) (attempt : Z) (lastErr : string) (st : State),
    (maxRetries < attempt + Z.of_nat (S n))%Z ->
    request_loop env (S n + k) attempt method endpoint p lastErr st
    = request_loop env (S n) attempt method endpoint p lastErr st.
Proof.
  induction n as [|n IH]; intros k attempt lastErr st Hn.
  - simpl request_loop. unfold mbind, M_bind.
    repeat (case_match; try done).
    match goal with H : (_ <? _)%Z = true |- _ => apply Z.ltb_lt in H end. lia.
  - remember (S n) as m eqn:Hm.
    simpl request_loop. unfold mbind, M_bind.
    repeat (case_match; try done).
    subst m. apply IH. lia.
Qed.

Lemma request_spec (method endpoint : string) (p : ref) (st : State)
      (original : gmap string value) :
  heap st !! p = Some original ->
  exists st' r new ts,
    request env method endpoint p st = (r, st') /\
    trace st' = trace st ++ Call method endpoint original :: new /\
    heap st' !! p = Some original /\
    dom (heap st) ⊆ dom (heap st') /\
    nonces new = (fun t => t mod 2 ^ 64)%Z <$> ts /\
    calls new = [] /\
    Forall (signing_of (heap st) original) new /\
    each_exchange_signed new /\
    r <> Panic /\
    (clock_monotone env ->
     (now st <= now st')%Z /\ StronglySorted Z.lt ts /\
     Forall (fun t => now st <= t <= now st')%Z ts) /\
    (length ts <= 3)%nat /\
    backoff 1 (sleeps new).
Proof.
  intros Hp. unfold request, read_map, gets, emit, mbind, M_bind. simpl. rewrite Hp. simpl.
  set (s1 := {| symbolPrecision := symbolPrecision st; heap := heap st;
                now := now st + 0 + elapse env (trace st ++ [Call method endpoint original]);
                trace := trace st ++ [Call method endpoint original] |}).
  assert (H1 : (1 <= 1)%Z) by lia.
  assert (Hp1 : heap s1 !! p = Some original) by done.
  destruct (request_loop_spec method endpoint p (Z.to_nat maxRetries) 1 "" s1 original H1 Hp1)
    as (st' & r & new & ts & Hrun
        & (Htr & Hp' & Hsub & Hnon & Hcalls & Hsg & Hex & Hr & Htime) & Hlen & Hsl).
  exists st', r, new, ts. simpl in *.
  split; [done|]. split; [by rewrite Htr, <- app_assoc|].
  repeat (split; [done|]).
  split; [|done].
  intros Hm. destruct (Htime Hm) as (Hnow & Hsort & Hts).
  pose proof (Hm (trace st ++ [Call method endpoint original])) as He.
  split; [lia|]. split; [done|].
  eapply Forall_impl; [exact Hts|]. simpl. intros t Ht. lia.
Qed.

Lemma exchanges_signed (tr : list Event) :
  each_exchange_signed tr -> (length (exchanges tr) <= length (nonces tr))%nat.
Proof.
  remember (length tr) as n eqn:Hn. revert tr Hn.
  induction (lt_wf n) as [n _ IH]. intros tr -> Hs.
  destruct tr as [|ev tr]; [done|].
  assert (Hrest : each_exchange_signed tr ->
                  (length (exchanges tr) <= length (nonces tr))%nat).
  { apply (IH (length tr)); [simpl; lia|done]. }
  destruct ev; [by apply Hrest| |done|by apply Hrest|by apply Hrest].
  change (length (exchanges tr) <= S (length (nonces tr)))%nat.
  destruct tr as [|ev tr']; [simpl; lia|].
  destruct ev; [specialize (Hrest Hs); lia|specialize (Hrest Hs); lia|
                |specialize (Hrest Hs); lia|specialize (Hrest Hs); lia].
  destruct Hs as (_ & _ & Hs).
  change (S (length (exchanges tr')) <= S (length (nonces tr')))%nat.
  apply le_n_S, (IH (length tr')); [simpl; lia|done|done].
Qed.

(** However the venue answers, one call of [request] signs at most three
    times, exchanges at most three times, and waits 1 s after the first
    failure and 2 s after the second. *)
Lemma request_bounded (method endpoint : string) (p : ref) (st : State)
      (original : gmap string value) :
  heap st !! p = Some original ->
  exists new,
    trace (request env method endpoint p st).2
      = trace st ++ Call method endpoint original :: new /\
    (length (nonces new) <= 3)%nat /\
    (length (exchanges new) <= 3)%nat /\
    (sleeps new = [] \/ sleeps new = [1000000]%Z \/ sleeps new = [1000000; 2000000]%Z).
Proof.
  intros Hp.
  destruct (request_spec method endpoint p st original Hp)
    as (st' & r & new & ts & Hrun & Htr & _ & _ & Hnon & _ & _ & Hex & _ & _ & Hlen & Hsl).
  rewrite Hrun. cbn [snd]. exists new.
  assert (Hn : (length (nonces new) <= 3)%nat) by (by rewrite Hnon, length_fmap).
  split; [done|]. split; [done|].
  split; [etrans; [by apply exchanges_signed|done]|].
  by apply backoff_first.
Qed.

Lemma sorted_lt_NoDup (l : list Z) : StronglySorted Z.lt l -> NoDup l.
Proof.
  induction 1 as [|x l Hs IH Hx]; constructor; [|done].
  intros Hin. rewrite Forall_forall in Hx. specialize (Hx x Hin). lia.
Qed.


End RequestTrace.

Section RequestFacts.

(** C4, and where the code departs from it.  Whatever the venue answers,
    one call of [request] makes at most three attempts and waits 1 s after
    the first failed attempt and 2 s after the second; an HTTP 400 is
    returned at once.  But the loop always leaves by a [return] (more
    iterations would change nothing), so the statement after it, which
    builds the aggregated error, is never executed: when all three attempts
    die with a transport-level timeout, [request] returns the third
    attempt's own error.  And an HTTP 504 answer whose body contains
    "timeout" is retried like a transport failure. *)
Theorem request_exhausted_returns_bare_error :
  (forall (env : Aster.Env) (method endpoint : string) (p : Aster.ref) (st : Aster.State)
          (original : gmap string value),
      Aster.heap st !! p = Some original ->
      exists new,
        Aster.trace (Aster.request env method endpoint p st).2
          = Aster.trace st ++ Aster.Call method endpoint original :: new /\
        (length (Aster.nonces new) <= 3)%nat /\
        (length (Aster.exchanges new) <= 3)%nat /\
        (Aster.sleeps new = [] \/ Aster.sleeps new = [1000000]%Z \/
         Aster.sleeps new = [1000000; 2000000]%Z)) /\
  (forall (env : Aster.Env) (method endpoint : string) (p : Aster.ref) (st : Aster.State)
          (k : nat),
      Aster.request_loop env (3 + k) 1 method endpoint p "" st
      = Aster.request_loop env 3 1 method endpoint p "" st) /\
  let run400 := Aster.request answering_400 "POST" "/fapi/v3/order" 0%nat one_order in
  let run := Aster.request timing_out "POST" "/fapi/v3/order" 0%nat one_order in
  let run504 := Aster.request answering_504 "POST" "/fapi/v3/order" 0%nat one_order in
  run400.1 = Err "HTTP 400: bad request" /\
  length (Aster.exchanges (Aster.trace run400.2)) = 1%nat /\
  Aster.sleeps (Aster.trace run400.2) = [] /\
  run.1 = Err "dial tcp: i/o timeout" /\
  run.1 <> Err "請求失敗（已重試3次）: dial tcp: i/o timeout" /\
  length (Aster.exchanges (Aster.trace run.2)) = 3%nat /\
  Aster.sleeps (Aster.trace run.2) = [1000000; 2000000]%Z /\
  run504.1 = Err "HTTP 504: upstream request timeout" /\
  length (Aster.exchanges (Aster.trace run504.2)) = 3%nat /\
  Aster.sleeps (Aster.trace run504.2) = [1000000; 2000000]%Z.
Proof.
  split; [|split].
  - intros env method endpoint p st original Hp. by apply request_bounded.
  - intros env method endpoint p st k.
    apply (request_loop_leaves_by_return env method endpoint p 2 k 1 "" st).
    unfold Aster.maxRetries. lia.
  - intros run400 run run504.
    assert (H1 : run.1 = Err "dial tcp: i/o timeout") by (vm_compute; reflexivity).
    repeat split; try (vm_compute; reflexivity).
    rewrite H1. discriminate.
Qed.


End RequestFacts.

(** ** Positions, as the three backends return them *)

Section PositionFacts.

Lemma aster_position_normalized env (positions : list (gmap string value)) :
  forall acc res,
    Forall normalized_position acc ->
    Aster.positions_loop env positions acc = Ok res ->
    Forall normalized_position res.
Proof.
  induction positions as [|pos rest IH]; intros acc res Hacc; simpl.
  - by intros [= <-].
  - destruct (Aster.as_string (pos !! "positionAmt")) as [amt|]; [|by apply IH].
    set (x := Aster.ParseFloat env amt).
    destruct (x =? b64_of_Z 0)%float eqn:Hzero; [by apply IH|].
    destruct (Aster.as_string (pos !! "entryPrice")); [|done].
    destruct (Aster.as_string (pos !! "markPrice")); [|done].
    destruct (Aster.as_string (pos !! "unRealizedProfit")); [|done].
    destruct (Aster.as_string (pos !! "leverage")); [|done].
    destruct (Aster.as_string (pos !! "liquidationPrice")); [|done].
    apply IH. apply Forall_app. split; [done|]. constructor; [|done].
    destruct (x <? b64_of_Z 0)%float eqn:Hneg.
    + exists "short", (- x)%float. split; [reflexivity|]. split; [by right|].
      split; [reflexivity|]. split.
      * by apply b64_neg_opp_not_le.
      * intros _. by apply b64_neg_opp_pos.
    + exists "long", x. split; [reflexivity|]. split; [by left|].
      split; [reflexivity|]. split.
      * by apply b64_nonzero_nonneg_not_le.
      * intros Hnan. by apply b64_nonzero_nonneg_pos.
Qed.

Lemma hyperliquid_position_normalized env (position : Hyperliquid.Position) m :
  Hyperliquid.position_map env position = Some m -> normalized_position m.
Proof.
  unfold Hyperliquid.position_map. simpl.
  set (x := Hyperliquid.ParseFloat env (Hyperliquid.Szi position)).
  destruct (x =? b64_of_Z 0)%float eqn:Hzero; [done|]. intros [= <-].
  destruct (b64_of_Z 0 <? x)%float eqn:Hpos.
  - exists "long", x. split; [reflexivity|]. split; [by left|]. split; [reflexivity|].
    split; [by apply b64_pos_not_le|done].
  - exists "short", (- x)%float. split; [reflexivity|]. split; [by right|].
    split; [reflexivity|]. split.
    + by apply b64_nonzero_nonpos_opp_not_le.
    + rewrite b64_opp_nan. intros Hnan. by apply b64_nonzero_nonpos_neg.
Qed.

Lemma binance_position_signed env (pos : Binance.PositionRisk) m :
  Binance.position_map env pos = Some m -> signed_position m.
Proof.
  unfold Binance.position_map. simpl.
  set (x := Binance.ParseFloat env (Binance.pr_PositionAmt pos)).
  destruct (x =? b64_of_Z 0)%float eqn:Hzero; [done|]. intros [= <-].
  destruct (b64_of_Z 0 <? x)%float eqn:Hpos.
  - exists "long", x. split; [reflexivity|]. split; [by left|]. split; [reflexivity|].
    split; [done|]. split; [done|done].
  - exists "short", x. split; [reflexivity|]. split; [by right|]. split; [reflexivity|].
    split; [done|]. split; [done|]. simpl. by rewrite Hpos.
Qed.

Lemma omap_Forall {A B} (f : A -> option B) (P : B -> Prop) (l : list A) :
  (forall a b, f a = Some b -> P b) -> Forall P (omap f l).
Proof.
  intros Hf. induction l as [|a l IH]; simpl; [constructor|].
  destruct (f a) eqn:Ha; [constructor; eauto|done].
Qed.

End PositionFacts.

(** ** The Aster trader's calls *)

Section AsterCalls.
Import Aster.
Variable env : Env.

Lemma cancel_id_cancel_call symbol order :
  cancel_id (cancel_call symbol order) = Some (int_of_float (orderID_of order)).
Proof. reflexivity. Qed.

Lemma aster_cancel_loop_spec (symbol : string) (orders : list (gmap string value)) :
  forall (count : Z) (st : State),
    exists st' n,
      cancel_loop env symbol orders count st = (Ok n, st') /\
      calls (trace st') = calls (trace st) ++ (cancel_call symbol <$> filter is_stop_order orders).
Proof.
  induction orders as [|order rest IH]; intros count st.
  - exists st, count. split; [done|]. by rewrite app_nil_r.
  - simpl cancel_loop. rewrite filter_cons.
    destruct (decide (is_stop_order order)) as [Hstop|Hstop]; unfold is_stop_order in Hstop.
    + rewrite Hstop.
      unfold mbind, M_bind, new_map, try. simpl.
      set (l := fresh (dom (heap st))).
      set (s1 := {| symbolPrecision := symbolPrecision st;
                    heap := <[l:=cancelParams_of symbol order]> (heap st);
                    now := now st; trace := trace st |}).
      assert (Hl : heap s1 !! l = Some (cancelParams_of symbol order))
        by (simpl; apply lookup_insert_eq).
      destruct (request_spec env "DELETE" "/fapi/v3/order" l s1 _ Hl)
        as (s2 & r & new & ts & Hrun & Htr & _ & _ & _ & Hcalls & _ & _ & Hr & _).
      rewrite Hrun.
      assert (Hc2 : calls (trace s2) = calls (trace st) ++ [cancel_call symbol order]).
      { rewrite Htr. simpl.
        change (Call "DELETE" "/fapi/v3/order" (cancelParams_of symbol order) :: new)
          with ([Call "DELETE" "/fapi/v3/order" (cancelParams_of symbol order)] ++ new).
        rewrite !calls_app, Hcalls. by rewrite app_nil_r. }
      destruct r as [body|e|]; [| |done].
      * destruct (IH (count + 1)%Z s2) as (st' & n & Hloop & Hcs).
        exists st', n. split; [done|]. rewrite Hcs, Hc2. rewrite <- app_assoc. done.
      * destruct (IH count s2) as (st' & n & Hloop & Hcs).
        exists st', n. split; [done|]. rewrite Hcs, Hc2. rewrite <- app_assoc. done.
    + apply not_true_is_false in Hstop. rewrite Hstop. apply IH.
Qed.

Lemma aster_CancelStopOrders_spec (symbol : string) (st : State) (orders : list (gmap string value)) :
  open_orders_listed env symbol st = Some orders ->
  exists st',
    CancelStopOrders env symbol st = (Ok tt, st') /\
    calls (trace st') =
      calls (trace st)
      ++ ("GET", "/fapi/v3/openOrders", list_to_map [("symbol", VStr symbol)])
      :: (cancel_call symbol <$> filter is_stop_order orders).
Proof.
  unfold open_orders_listed, CancelStopOrders, mbind, M_bind, new_map, try.
  set (l := fresh (dom (heap st))).
  set (s1 := {| symbolPrecision := symbolPrecision st;
                heap := <[l:=list_to_map [("symbol", VStr symbol)]]> (heap st);
                now := now st; trace := trace st |}).
  assert (Hl : heap s1 !! l = Some (list_to_map [("symbol", VStr symbol)]))
    by (simpl; apply lookup_insert_eq).
  destruct (request_spec env "GET" "/fapi/v3/openOrders" l s1 _ Hl)
    as (s2 & r & new & ts & Hrun & Htr & _ & _ & _ & Hcalls & _ & _ & Hr & _).
  rewrite Hrun. destruct r as [body|e|]; [|done|done].
  destruct (decode_objects env body) as [e|orders'] eqn:Hdec; [done|].
  intros [= ->].
  destruct (aster_cancel_loop_spec symbol orders 0 s2) as (st' & n & Hloop & Hcs).
  rewrite Hloop. exists st'. split; [done|].
  rewrite Hcs, Htr.
  change (Call "GET" "/fapi/v3/openOrders" (list_to_map [("symbol", VStr symbol)]) :: new)
    with ([Call "GET" "/fapi/v3/openOrders" (list_to_map [("symbol", VStr symbol)])] ++ new).
  rewrite !calls_app, Hcalls. simpl. by rewrite <- app_assoc.
Qed.

Lemma aster_SetLeverage_spec (symbol : string) (leverage : Z) (st : State) :
  exists r st',
    SetLeverage env symbol leverage st = (r, st') /\
    calls (trace st') =
      calls (trace st)
      ++ [("POST", "/fapi/v3/leverage",
           list_to_map [("symbol", VStr symbol); ("leverage", VInt leverage)])].
Proof.
  unfold SetLeverage, mbind, M_bind, new_map.
  set (l := fresh (dom (heap st))).
  set (s1 := {| symbolPrecision := symbolPrecision st;
                heap := <[l:=list_to_map [("symbol", VStr symbol); ("leverage", VInt leverage)]]>
                          (heap st);
                now := now st; trace := trace st |}).
  assert (Hl : heap s1 !! l
               = Some (list_to_map [("symbol", VStr symbol); ("leverage", VInt leverage)]))
    by (simpl; apply lookup_insert_eq).
  destruct (request_spec env "POST" "/fapi/v3/leverage" l s1 _ Hl)
    as (s2 & r & new & ts & Hrun & Htr & _ & _ & _ & Hcalls & _ & _ & Hr & _).
  rewrite Hrun.
  assert (Hc : calls (trace s2) =
     calls (trace st)
      ++ [("POST", "/fapi/v3/leverage",
           list_to_map [("symbol", VStr symbol); ("leverage", VInt leverage)])]).
  { rewrite Htr.
    change (Call "POST" "/fapi/v3/leverage"
                 (list_to_map [("symbol", VStr symbol); ("leverage", VInt leverage)]) :: new)
      with ([Call "POST" "/fapi/v3/leverage"
                  (list_to_map [("symbol", VStr symbol); ("leverage", VInt leverage)])] ++ new).
    rewrite !calls_app, Hcalls. by rewrite app_nil_r. }
  destruct r as [body|e|]; [| |done]; eexists _, _; (split; [reflexivity|exact Hc]).
Qed.

Lemma aster_GetPositions_normalized (st st' : State) (res : list (gmap string value)) :
  GetPositions env st = (Ok res, st') -> Forall normalized_position res.
Proof.
  unfold GetPositions, mbind, M_bind, new_map, lift.
  destruct (request env _ _ _ _) as [[body|e|] s2]; [|done|done].
  destruct (decode_objects env body) as [e|positions]; [done|].
  intros [= Hloop _]. by apply (aster_position_normalized env positions []).
Qed.

End AsterCalls.

(** ** The Binance trader's calls *)

Section BinanceCalls.
Import Binance.
Variable env : Env.

Lemma binance_cancels_app (a b : list Event) : cancels (a ++ b) = cancels a ++ cancels b.
Proof. apply omap_app. Qed.
Lemma binance_leverage_changes_app (a b : list Event) :
  leverage_changes (a ++ b) = leverage_changes a ++ leverage_changes b.
Proof. apply omap_app. Qed.

Lemma binance_cancel_loop_spec (symbol : string) (orders : list Order) :
  forall (count : Z) (st : State),
    exists st' n,
      cancel_loop env symbol orders count st = (Ok n, st') /\
      trace st' = trace st ++ (CancelOrder symbol <$> (OrderID <$> filter is_stop_order orders)).
Proof.
  induction orders as [|order rest IH]; intros count st.
  - exists st, count. split; [done|]. by rewrite app_nil_r.
  - simpl cancel_loop. rewrite filter_cons.
    destruct (decide (is_stop_order order)) as [Hstop|Hstop]; unfold is_stop_order in Hstop.
    + rewrite Hstop. unfold mbind, M_bind, emit, gets.
      set (s1 := {| cachedPositions := cachedPositions st;
                    positionsCacheTime := positionsCacheTime st;
                    cacheDuration := cacheDuration st;
                    now := _; trace := trace st ++ [CancelOrder symbol (OrderID order)] |}).
      destruct (cancelOrder env (trace s1)) as [e|].
      * destruct (IH count s1) as (st' & n & Hloop & Htr).
        exists st', n. split; [done|]. rewrite Htr. simpl. by rewrite <- app_assoc.
      * destruct (IH (count + 1)%Z s1) as (st' & n & Hloop & Htr).
        exists st', n. split; [done|]. rewrite Htr. simpl. by rewrite <- app_assoc.
    + apply not_true_is_false in Hstop. rewrite Hstop. apply IH.
Qed.

Lemma binance_CancelStopOrders_spec (symbol : string) (st : State) (orders : list Order) :
  listOpenOrders env (trace st ++ [ListOpenOrders symbol]) = inr orders ->
  exists st',
    CancelStopOrders env symbol st = (Ok tt, st') /\
    trace st' = trace st ++ ListOpenOrders symbol
                :: (CancelOrder symbol <$> (OrderID <$> filter is_stop_order orders)).
Proof.
  intros Hlist. unfold CancelStopOrders, mbind, M_bind, emit, gets. simpl. rewrite Hlist.
  set (s1 := {| cachedPositions := cachedPositions st;
                positionsCacheTime := positionsCacheTime st;
                cacheDuration := cacheDuration st;
                now := _; trace := trace st ++ [ListOpenOrders symbol] |}).
  destruct (binance_cancel_loop_spec symbol orders 0 s1) as (st' & n & Hloop & Htr).
  rewrite Hloop. exists st'. split; [done|]. rewrite Htr. simpl. by rewrite <- app_assoc.
Qed.

(** [GetPositions] changes no leverage and never panics. *)
Lemma binance_GetPositions_spec (st : State) :
  exists r st',
    GetPositions env st = (r, st') /\ r <> Panic /\
    (trace st' = trace st \/ trace st' = trace st ++ [GetPositionRisk]).
Proof.
  unfold GetPositions, mbind, M_bind, gets, emit, set_cache, fail, mret, M_ret. simpl.
  destruct (cachedPositions st) as [ps|].
  - destruct (_ <? _)%Z.
    + eexists _, _. split; [reflexivity|]. split; [done|]. by left.
    + destruct (positionRisk env _) as [e|ps']; simpl;
        (eexists _, _; split; [reflexivity|]; split; [done|]; by right).
  - destruct (positionRisk env _) as [e|ps']; simpl;
      (eexists _, _; split; [reflexivity|]; split; [done|]; by right).
Qed.


Lemma binance_SetLeverage_spec (symbol : string) (leverage : Z) (st : State) :
  exists r st',
    SetLeverage env symbol leverage st = (r, st') /\
    leverage_changes (trace st') =
      leverage_changes (trace st)
      ++ (if ((known_leverage env symbol st =? leverage)
              && (0 <? known_leverage env symbol st))%Z
          then [] else [(symbol, leverage)]).
Proof.
  unfold SetLeverage, known_leverage, try, mbind, M_bind.
  destruct (binance_GetPositions_spec st) as (r & s1 & Hg & Hr & Htr). rewrite Hg. simpl.
  assert (Hlc : leverage_changes (trace s1) = leverage_changes (trace st)).
  { destruct Htr as [-> | ->]; [done|]. rewrite binance_leverage_changes_app. simpl. by rewrite app_nil_r. }
  set (cur := match r with Ok positions => currentLeverage_of symbol positions | _ => 0%Z end).
  assert (Hgoal : exists r' st',
    (if ((cur =? leverage) && (0 <? cur))%Z then mret tt
     else emit env (ChangeLeverage symbol leverage);;
          answer ← gets (fun s => changeLeverage env (trace s));
          match answer with
          | Some e => if contains e "No need to change" then mret tt
                      else fail ("設置杠杆失敗: " ++ e)%string
          | None => emit env (Sleep 5000000)
          end) s1 = (r', st') /\
    leverage_changes (trace st') =
      leverage_changes (trace st)
      ++ (if ((cur =? leverage) && (0 <? cur))%Z then [] else [(symbol, leverage)])).
  { destruct ((cur =? leverage) && (0 <? cur))%Z.
    - eexists _, _. split; [reflexivity|]. by rewrite app_nil_r.
    - unfold mbind, M_bind, emit, gets, fail, mret, M_ret. simpl.
      destruct (changeLeverage env _) as [e|]; simpl.
      + destruct (contains e "No need to change"); simpl;
          (eexists _, _; split; [reflexivity|]; simpl;
           rewrite binance_leverage_changes_app, Hlc; done).
      + eexists _, _. split; [reflexivity|]. simpl.
        rewrite !binance_leverage_changes_app, Hlc. simpl. by rewrite app_nil_r. }
  destruct r as [positions|e|]; [exact Hgoal|exact Hgoal|done].
Qed.

Lemma binance_GetPositions_signed (st st' : State) (res : list (gmap string value)) :
  cache_signed st ->
  GetPositions env st = (Ok res, st') ->
  Forall signed_position res /\ cache_signed st'.
Proof.
  intros Hcache.
  assert (Hfresh : forall positions,
             Forall signed_position (omap (position_map env) positions)).
  { intros positions. induction positions as [|a l IH]; simpl; [constructor|].
    destruct (position_map env a) eqn:Ha; [|done].
    constructor; [|done]. by apply (binance_position_signed env a). }
  unfold GetPositions, mbind, M_bind, gets, emit, set_cache, fail, mret, M_ret. simpl.
  destruct (cachedPositions st) as [ps|] eqn:Hc.
  - destruct (_ <? _)%Z.
    + intros [= <- <-]. split; [by apply Hcache|done].
    + destruct (positionRisk env _) as [e|ps']; simpl; [done|]. intros [= <- <-].
      split; [apply Hfresh|]. intros ps0. simpl.
      destruct (omap (position_map env) ps') eqn:Ho; [done|]. intros [= <-].
      rewrite <- Ho. apply Hfresh.
  - destruct (positionRisk env _) as [e|ps']; simpl; [done|]. intros [= <- <-].
    split; [apply Hfresh|]. intros ps0. simpl.
    destruct (omap (position_map env) ps') eqn:Ho; [done|]. intros [= <-].
    rewrite <- Ho. apply Hfresh.
Qed.

End BinanceCalls.

(** ** The Hyperliquid trader's calls *)

Section HyperliquidCalls.
Import Hyperliquid.
Variable env : Env.


Lemma hyperliquid_cancel_loop_spec (coin : string) (orders : list OpenOrder) :
  forall st : State,
    exists st',
      cancel_loop coin orders st = (Ok tt, st') /\
      trace st' = trace st ++ (Cancel coin <$> (Oid <$> filter (on_coin coin) orders)).
Proof.
  induction orders as [|order rest IH]; intros st.
  - exists st. split; [done|]. by rewrite app_nil_r.
  - simpl cancel_loop. rewrite filter_cons.
    destruct (decide (on_coin coin order)) as [Hc|Hc]; unfold on_coin in Hc.
    + rewrite (proj2 (String.eqb_eq _ _) Hc). unfold mbind, M_bind, emit.
      destruct (IH {| trace := trace st ++ [Cancel coin (Oid order)] |}) as (st' & Hloop & Htr).
      exists st'. split; [done|]. rewrite Htr. simpl. by rewrite <- app_assoc.
    + rewrite (proj2 (String.eqb_neq _ _) Hc). apply IH.
Qed.

Lemma hyperliquid_CancelStopOrders_spec (symbol : string) (st : State) (orders : list OpenOrder) :
  openOrders env (trace st ++ [OpenOrders]) = inr orders ->
  exists st',
    CancelStopOrders env symbol st = (Ok tt, st') /\
    trace st' = trace st ++ OpenOrders
                :: (Cancel (convertSymbolToHyperliquid symbol)
                    <$> (Oid <$> filter (on_coin (convertSymbolToHyperliquid symbol)) orders)).
Proof.
  intros Hlist. unfold CancelStopOrders, CancelAllOrders, mbind, M_bind, emit, gets. simpl.
  rewrite Hlist.
  destruct (hyperliquid_cancel_loop_spec (convertSymbolToHyperliquid symbol) orders
                             {| trace := trace st ++ [OpenOrders] |}) as (st' & Hloop & Htr).
  rewrite Hloop. exists st'. split; [done|]. rewrite Htr. simpl. by rewrite <- app_assoc.
Qed.

Lemma hyperliquid_SetLeverage_spec (symbol : string) (leverage : Z) (st : State) :
  exists r st',
    SetLeverage env symbol leverage st = (r, st') /\
    trace st' = trace st ++ [UpdateLeverage leverage (convertSymbolToHyperliquid symbol) false].
Proof.
  unfold SetLeverage, mbind, M_bind, emit, gets, fail, mret, M_ret. simpl.
  destruct (updateLeverage env _); eexists _, _; split; reflexivity.
Qed.

Lemma hyperliquid_GetPositions_normalized (st st' : State) (res : list (gmap string value)) :
  GetPositions env st = (Ok res, st') -> Forall normalized_position res.
Proof.
  unfold GetPositions, mbind, M_bind, emit, gets, fail, mret, M_ret. simpl.
  destruct (userState env _) as [e|positions]; [done|]. intros [= <- _].
  induction positions as [|a l IH]; simpl; [constructor|].
  destruct (position_map env a) eqn:Ha; [|done].
  constructor; [|done]. by apply (hyperliquid_position_normalized env a).
Qed.

End HyperliquidCalls.

(** ** Cancelling the stop orders *)

Section CancelStopOrdersFacts.

Lemma aster_cancels_of_calls symbol (orders : list (gmap string value)) :
  omap Aster.cancel_id (Aster.cancel_call symbol <$> orders)
  = (fun o => int_of_float (Aster.orderID_of o)) <$> orders.
Proof.
  induction orders as [|o l IH]; [done|].
  rewrite !fmap_cons.
  change (omap Aster.cancel_id (Aster.cancel_call symbol o :: (Aster.cancel_call symbol <$> l)))
    with (match Aster.cancel_id (Aster.cancel_call symbol o) with
          | Some id => id :: omap Aster.cancel_id (Aster.cancel_call symbol <$> l)
          | None => omap Aster.cancel_id (Aster.cancel_call symbol <$> l)
          end).
  rewrite cancel_id_cancel_call, IH. done.
Qed.

Lemma aster_CancelStopOrders_cancels env symbol st orders :
  Aster.open_orders_listed env symbol st = Some orders ->
  exists st',
    Aster.CancelStopOrders env symbol st = (Ok tt, st') /\
    Aster.cancels (Aster.trace st')
    = Aster.cancels (Aster.trace st)
      ++ ((fun o => int_of_float (Aster.orderID_of o)) <$> filter Aster.is_stop_order orders).
Proof.
  intros Hl. destruct (aster_CancelStopOrders_spec env symbol st orders Hl) as (st' & Hrun & Hc).
  exists st'. split; [done|]. unfold Aster.cancels. rewrite Hc, omap_app. f_equal.
  simpl omap. change (Aster.cancel_id ("GET", "/fapi/v3/openOrders", _)) with (@None Z).
  apply aster_cancels_of_calls.
Qed.

Lemma binance_cancels_of_calls symbol (ids : list Z) :
  Binance.cancels (Binance.CancelOrder symbol <$> ids) = ids.
Proof.
  induction ids as [|id l IH]; [done|].
  change (id :: Binance.cancels (Binance.CancelOrder symbol <$> l) = id :: l). by rewrite IH.
Qed.

Lemma hyperliquid_cancels_of_calls coin (ids : list Z) :
  Hyperliquid.cancels (Hyperliquid.Cancel coin <$> ids) = ids.
Proof.
  induction ids as [|id l IH]; [done|].
  change (id :: Hyperliquid.cancels (Hyperliquid.Cancel coin <$> l) = id :: l). by rewrite IH.
Qed.

Lemma binance_CancelStopOrders_cancels env symbol st orders :
  Binance.listOpenOrders env (Binance.trace st ++ [Binance.ListOpenOrders symbol]) = inr orders ->
  exists st',
    Binance.CancelStopOrders env symbol st = (Ok tt, st') /\
    Binance.cancels (Binance.trace st')
    = Binance.cancels (Binance.trace st)
      ++ (Binance.OrderID <$> filter Binance.is_stop_order orders).
Proof.
  intros Hl. destruct (binance_CancelStopOrders_spec env symbol st orders Hl) as (st' & Hrun & Ht).
  exists st'. split; [done|]. rewrite Ht, binance_cancels_app. f_equal.
  apply (binance_cancels_of_calls symbol).
Qed.

Lemma hyperliquid_CancelStopOrders_cancels env symbol st orders :
  Hyperliquid.openOrders env (Hyperliquid.trace st ++ [Hyperliquid.OpenOrders]) = inr orders ->
  exists st',
    Hyperliquid.CancelStopOrders env symbol st = (Ok tt, st') /\
    Hyperliquid.cancels (Hyperliquid.trace st')
    = Hyperliquid.cancels (Hyperliquid.trace st)
      ++ (Hyperliquid.Oid
            <$> filter (Hyperliquid.on_coin (Hyperliquid.convertSymbolToHyperliquid symbol))
                       orders).
Proof.
  intros Hl.
  destruct (hyperliquid_CancelStopOrders_spec env symbol st orders Hl) as (st' & Hrun & Ht).
  exists st'. split; [done|].
  change (Hyperliquid.cancels (Hyperliquid.trace st')) with
    (omap (fun ev => match ev with Hyperliquid.Cancel _ oid => Some oid | _ => None end)
          (Hyperliquid.trace st')).
  rewrite Ht, omap_app. f_equal.
  apply (hyperliquid_cancels_of_calls (Hyperliquid.convertSymbolToHyperliquid symbol)).
Qed.

(** C9, as stated, fails on the Hyperliquid backend: there
    [CancelStopOrders] cancels all three orders, the limit order included. *)
Lemma hyperliquid_CancelStopOrders_cancels_the_limit_order :
  let run := Hyperliquid.CancelStopOrders three_open_orders "BTCUSDT" (Hyperliquid.mkState []) in
  run.1 = Ok tt /\
  Hyperliquid.cancels (Hyperliquid.trace run.2) = [1; 2; 3]%Z /\
  length (Hyperliquid.cancels (Hyperliquid.trace run.2)) <> 2%nat.
Proof. repeat split; vm_compute; congruence. Qed.

(** C9, amended: when the open-order list of the symbol holds one resting
    limit order, one stop-market order and one take-profit-market order,
    [CancelStopOrders] on the Aster and Binance backends issues exactly two
    cancel calls, for the stop-market and the take-profit-market order
    (in general one for each order of type STOP, STOP_MARKET, TAKE_PROFIT
    or TAKE_PROFIT_MARKET), and none for the limit order; on the
    Hyperliquid backend it cancels every open order of the coin, the limit
    order included; and on all three it returns success whatever becomes
    of the single cancel calls. *)
Theorem CancelStopOrders_cancels_by_backend :
  (forall env symbol st orders,
      Aster.open_orders_listed env symbol st = Some orders ->
      exists st',
        Aster.CancelStopOrders env symbol st = (Ok tt, st') /\
        Aster.cancels (Aster.trace st')
        = Aster.cancels (Aster.trace st)
          ++ ((fun o => int_of_float (Aster.orderID_of o))
                <$> filter Aster.is_stop_order orders)) /\
  (forall env symbol st limit stop profit,
      Aster.open_orders_listed env symbol st = Some [limit; stop; profit] ->
      Aster.orderType_of limit = "LIMIT" ->
      Aster.orderType_of stop = "STOP_MARKET" ->
      Aster.orderType_of profit = "TAKE_PROFIT_MARKET" ->
      exists st',
        Aster.CancelStopOrders env symbol st = (Ok tt, st') /\
        Aster.cancels (Aster.trace st')
        = Aster.cancels (Aster.trace st)
          ++ [int_of_float (Aster.orderID_of stop); int_of_float (Aster.orderID_of profit)]) /\
  (forall env symbol st orders,
      Binance.listOpenOrders env (Binance.trace st ++ [Binance.ListOpenOrders symbol])
      = inr orders ->
      exists st',
        Binance.CancelStopOrders env symbol st = (Ok tt, st') /\
        Binance.cancels (Binance.trace st')
        = Binance.cancels (Binance.trace st)
          ++ (Binance.OrderID <$> filter Binance.is_stop_order orders)) /\
  (forall env symbol st limit stop profit,
      Binance.listOpenOrders env (Binance.trace st ++ [Binance.ListOpenOrders symbol])
      = inr [Binance.mkOrder limit "LIMIT"; Binance.mkOrder stop "STOP_MARKET";
             Binance.mkOrder profit "TAKE_PROFIT_MARKET"] ->
      exists st',
        Binance.CancelStopOrders env symbol st = (Ok tt, st') /\
        Binance.cancels (Binance.trace st')
        = Binance.cancels (Binance.trace st) ++ [stop; profit]) /\
  (forall env symbol st orders,
      Hyperliquid.openOrders env (Hyperliquid.trace st ++ [Hyperliquid.OpenOrders])
      = inr orders ->
      exists st',
        Hyperliquid.CancelStopOrders env symbol st = (Ok tt, st') /\
        Hyperliquid.cancels (Hyperliquid.trace st')
        = Hyperliquid.cancels (Hyperliquid.trace st)
          ++ (Hyperliquid.Oid
                <$> filter (Hyperliquid.on_coin (Hyperliquid.convertSymbolToHyperliquid symbol))
                           orders)).
Proof.
  split; [exact aster_CancelStopOrders_cancels|].
  split.
  { intros env symbol st limit stop profit Hl H1 H2 H3.
    destruct (aster_CancelStopOrders_cancels env symbol st _ Hl) as (st' & Hrun & Hc).
    exists st'. split; [done|]. rewrite Hc. f_equal.
    rewrite !filter_cons, filter_nil. unfold Aster.is_stop_order.
    rewrite H1, H2, H3. reflexivity. }
  split; [exact binance_CancelStopOrders_cancels|].
  split; [|exact hyperliquid_CancelStopOrders_cancels].
  intros env symbol st limit stop profit Hl.
  destruct (binance_CancelStopOrders_cancels env symbol st _ Hl) as (st' & Hrun & Hc).
  exists st'. split; [done|]. rewrite Hc. reflexivity.
Qed.

End CancelStopOrdersFacts.

(** ** Setting the leverage *)

Section SetLeverageFacts.

(** C7, as stated, fails: on Binance, with a position at leverage 3 in the
    position list, two consecutive [SetLeverage("BTCUSDT", 5)] issue two
    remote leverage changes (the second reads the cached list, which still
    says 3); on Aster every [SetLeverage] issues its remote call. *)
Lemma SetLeverage_twice_calls_twice :
  let twice :=
    (Binance.SetLeverage long_at_3 "BTCUSDT" 5;; Binance.SetLeverage long_at_3 "BTCUSDT" 5)
      fresh_trader in
  let twice_aster :=
    (Aster.SetLeverage answering_200 "BTCUSDT" 5;; Aster.SetLeverage answering_200 "BTCUSDT" 5)
      no_maps in
  twice.1 = Ok tt /\
  Binance.leverage_changes (Binance.trace twice.2) = [("BTCUSDT", 5%Z); ("BTCUSDT", 5%Z)] /\
  twice_aster.1 = Ok tt /\
  fst <$> Aster.calls (Aster.trace twice_aster.2)
  = [("POST", "/fapi/v3/leverage"); ("POST", "/fapi/v3/leverage")].
Proof. repeat split; vm_compute; reflexivity. Qed.

(** C7, amended: only the Binance backend ever skips the remote
    leverage-change call, and it skips it exactly when the leverage it
    reads for the symbol off its (cached) position list equals the target
    and is positive; otherwise [SetLeverage] issues one remote call, as the
    Aster and Hyperliquid backends do on every invocation. So of two
    consecutive calls the second is skipped only if the position list
    reports the target leverage by then. *)
Theorem SetLeverage_skips_on_known_leverage :
  (forall env symbol leverage st,
      exists r st',
        Binance.SetLeverage env symbol leverage st = (r, st') /\
        Binance.leverage_changes (Binance.trace st') =
          Binance.leverage_changes (Binance.trace st)
          ++ (if ((Binance.known_leverage env symbol st =? leverage)
                  && (0 <? Binance.known_leverage env symbol st))%Z
              then [] else [(symbol, leverage)])) /\
  (forall env symbol leverage st,
      exists r st',
        Aster.SetLeverage env symbol leverage st = (r, st') /\
        Aster.calls (Aster.trace st') =
          Aster.calls (Aster.trace st)
          ++ [("POST", "/fapi/v3/leverage",
               list_to_map [("symbol", VStr symbol); ("leverage", VInt leverage)])]) /\
  (forall env symbol leverage st,
      exists r st',
        Hyperliquid.SetLeverage env symbol leverage st = (r, st') /\
        Hyperliquid.trace st' =
          Hyperliquid.trace st
          ++ [Hyperliquid.UpdateLeverage leverage
                (Hyperliquid.convertSymbolToHyperliquid symbol) false]) /\
  (let twice :=
     (Binance.SetLeverage long_at_3 "BTCUSDT" 3;; Binance.SetLeverage long_at_3 "BTCUSDT" 3)
       fresh_trader in
   twice.1 = Ok tt /\ Binance.leverage_changes (Binance.trace twice.2) = []).
Proof.
  split; [exact binance_SetLeverage_spec|].
  split; [exact aster_SetLeverage_spec|].
  split; [exact hyperliquid_SetLeverage_spec|].
  split; vm_compute; reflexivity.
Qed.

End SetLeverageFacts.

(** ** The positions returned *)

Section GetPositionsFacts.

(** C6, as stated, fails on the Binance backend: the short position comes
    back with [positionAmt = -0.5], the venue's signed quantity. *)
Lemma binance_GetPositions_keeps_the_sign :
  ~ (forall env st res st',
        Binance.GetPositions env st = (Ok res, st') -> Forall normalized_position res).
Proof.
  intros H.
  assert (Hrun : exists m st',
             Binance.GetPositions short_half fresh_trader = (Ok [m], st') /\
             m !! "positionAmt" = Some (VNum (-0.5)%float)).
  { eexists _, _. split; vm_compute; reflexivity. }
  destruct Hrun as (m & st' & Hrun & Hm).
  specialize (H short_half fresh_trader [m] st' Hrun).
  apply Forall_cons in H as [(side & q & _ & _ & Hq & Hle & _) _].
  rewrite Hm in Hq. injection Hq as <-. vm_compute in Hle. discriminate Hle.
Qed.

(** C6, amended: on the Aster and Hyperliquid backends every position
    returned by [GetPositions] has side "long" or "short" and a strictly
    positive quantity, zero quantities being filtered out; on the Binance
    backend zero quantities are filtered out and the side is "long" or
    "short", but the quantity keeps the venue's sign, positive exactly for
    a long: the signed convention reaches the callers there. *)
Theorem GetPositions_sides_and_quantities :
  (forall env st res st',
      Aster.GetPositions env st = (Ok res, st') -> Forall normalized_position res) /\
  (forall env st res st',
      Hyperliquid.GetPositions env st = (Ok res, st') -> Forall normalized_position res) /\
  (forall env st res st',
      Binance.cache_signed st ->
      Binance.GetPositions env st = (Ok res, st') ->
      Forall signed_position res /\ Binance.cache_signed st') /\
  (forall st, Binance.cachedPositions st = None -> Binance.cache_signed st).
Proof.
  split; [intros env st res st'; apply aster_GetPositions_normalized|].
  split; [intros env st res st'; apply hyperliquid_GetPositions_normalized|].
  split; [intros env st res st'; apply binance_GetPositions_signed|].
  intros st Hnone ps Hps. congruence.
Qed.

End GetPositionsFacts.

(** ** Subtraction on the interface *)

Section SubtractionFacts.

Lemma SF64sub_add_opp (x y : spec_float) :
  SF64sub x y = SF64add x (SFopp y).
Proof.
  destruct x as [sx|sx| |sx mx ex], y as [sy|sy| |sy my ey]; try reflexivity.
  all: try (destruct sx, sy; reflexivity).
Qed.

(** On binary64 [x - y] of the interface is the subtraction of the machine. *)
Lemma b64_sub (x y : float) : (x - y)%float = (x - y)%f64.
Proof.
  unfold f_sub. cbn [f_add f_neg Binary64].
  apply Prim2SF_inj.
  rewrite sub_spec, add_spec, opp_spec. apply SF64sub_add_opp.
Qed.

Lemma exact_sub (x y : R) : (x - y)%R = (x - y)%f64.
Proof. reflexivity. Qed.

End SubtractionFacts.

(** ** The precision helpers *)

Section PrecisionFacts.
Import Precision.
Local Arguments String.append : simpl nomatch.

Lemma prefix_substring (a s : string) :
  (String.substring 0 (String.length a) s =? a)%string = String.prefix a s.
Proof.
  destruct (String.prefix a s) eqn:Hp.
  - apply String.eqb_eq. by apply prefix_correct.
  - apply String.eqb_neq. intros H. apply prefix_correct in H. congruence.
Qed.

Lemma stringContains_loop_shift (n i : nat) (c : ascii) (s substr : string) :
  stringContains_loop n (S i) (String c s) substr = stringContains_loop n i s substr.
Proof. revert i. induction n as [|n IH]; intros i; simpl; [done|]. by rewrite IH. Qed.

Lemma prefix_length (a s : string) :
  String.prefix a s = true -> (String.length a <= String.length s)%nat.
Proof.
  revert s. induction a as [|c a IH]; intros s H; simpl; [lia|].
  destruct s as [|c' s]; simpl in *; [done|].
  destruct (Ascii.ascii_dec c c'); [|done]. apply IH in H. lia.
Qed.

Lemma strings_Contains_short (s substr : string) :
  (String.length s < String.length substr)%nat -> strings_Contains s substr = false.
Proof.
  induction s as [|c s IH]; intros Hlen; simpl.
  - destruct substr; simpl in *; [lia|done].
  - simpl in Hlen. rewrite IH by lia. rewrite orb_false_r.
    destruct (String.prefix substr (String c s)) eqn:Hp; [|done].
    apply prefix_length in Hp. simpl in Hp. lia.
Qed.

(** The hand-written [stringContains] is substring containment. *)
Lemma stringContains_strings_Contains (s substr : string) :
  stringContains s substr = strings_Contains s substr.
Proof.
  unfold stringContains. induction s as [|c s IH].
  - destruct substr as [|c' substr]; simpl; [done|].
    replace (Z.to_nat _) with 0%nat by lia. done.
  - destruct (decide (String.length substr <= String.length (String c s))%nat) as [Hle|Hgt].
    + replace (Z.to_nat _) with
        (S (Z.to_nat (Z.of_nat (String.length s) - Z.of_nat (String.length substr) + 1)))
        by (simpl in *; lia).
      cbn [stringContains_loop strings_Contains].
      rewrite prefix_substring, stringContains_loop_shift, IH.
      by destruct (String.prefix substr (String c s)).
    + rewrite strings_Contains_short by lia.
      replace (Z.to_nat _) with 0%nat by (simpl in *; lia). done.
Qed.

Lemma prefix_app (a s : string) :
  String.prefix a s = true <-> exists post, s = (a ++ post)%string.
Proof.
  revert s. induction a as [|c a IH]; intros s; simpl.
  - split; [intros _; by exists s|by destruct s].
  - destruct s as [|c' s]; [split; [done|by intros [post H]]|]. simpl.
    destruct (Ascii.ascii_dec c c') as [->|Hne].
    + rewrite IH. split; intros [post H]; exists post; simpl in *; congruence.
    + split; [done|]. intros [post H]. simpl in H. congruence.
Qed.

Lemma strings_Contains_app (s substr : string) :
  strings_Contains s substr = true <-> exists pre post, s = (pre ++ substr ++ post)%string.
Proof.
  induction s as [|c s IH]; cbn [strings_Contains].
  - rewrite orb_false_r, prefix_app. split.
    + intros [post H]. by exists EmptyString, post.
    + intros (pre & post & H). destruct pre; simpl in H; [by exists post|done].
  - rewrite orb_true_iff, IH, prefix_app. split.
    + intros [[post H]|(pre & post & H)].
      * by exists EmptyString, post.
      * exists (String c pre), post. simpl. by rewrite H.
    + intros (pre & post & H). destruct pre as [|c' pre]; simpl in H.
      * left. by exists post.
      * right. exists pre, post. congruence.
Qed.

(** X1: [stringContains] and [contains] tell whether [substr] occurs in [s]; the
    length test of [contains] changes nothing. *)
Theorem stringContains_occurs (s substr : string) :
  (stringContains s substr = true <->
   exists pre post, s = (pre ++ substr ++ post)%string) /\
  Binance.contains s substr = stringContains s substr.
Proof.
  rewrite stringContains_strings_Contains. split; [apply strings_Contains_app|].
  unfold Binance.contains.
  destruct (String.length substr <=? String.length s)%nat eqn:Hlen; [done|].
  apply Nat.leb_gt in Hlen. by rewrite strings_Contains_short.
Qed.

Lemma last_byte_snoc (s : string) (c : ascii) :
  last_byte (s ++ String c EmptyString) = Some c.
Proof.
  induction s as [|c' s IH]; [done|]. simpl.
  destruct (s ++ String c EmptyString)%string eqn:E; [by destruct s|done].
Qed.

Lemma drop_last_snoc (s : string) (c : ascii) :
  drop_last (s ++ String c EmptyString) = s.
Proof.
  induction s as [|c' s IH]; [done|]. simpl.
  destruct (s ++ String c EmptyString)%string eqn:E; [by destruct s|].
  by rewrite IH.
Qed.

Lemma app_assoc_s (a b c : string) : ((a ++ b) ++ c = a ++ b ++ c)%string.
Proof. induction a as [|x a IH]; simpl; [done|by rewrite IH]. Qed.

Lemma app_nil_r_s (a : string) : (a ++ EmptyString = a)%string.
Proof. induction a as [|x a IH]; simpl; [done|by rewrite IH]. Qed.

Lemma length_app_s (a b : string) :
  String.length (a ++ b) = (String.length a + String.length b)%nat.
Proof. induction a as [|x a IH]; simpl; [done|by rewrite IH]. Qed.

Lemma zeros_snoc (k : nat) : zeros (S k) = (zeros k ++ String "0" EmptyString)%string.
Proof. induction k as [|k IH]; [done|]. simpl in *. by rewrite <- IH. Qed.

Lemma length_zeros (k : nat) : String.length (zeros k) = k.
Proof. induction k as [|k IH]; simpl; [done|by rewrite IH]. Qed.

Lemma trim_zeros_app (s : string) (k fuel : nat) :
  last_byte s <> Some "0"%char -> (k <= fuel)%nat ->
  trim_zeros fuel (s ++ zeros k) = s.
Proof.
  revert fuel. induction k as [|k IH]; intros fuel Hs Hk.
  - simpl. rewrite app_nil_r_s. destruct fuel as [|fuel]; [done|]. simpl.
    destruct (last_byte s) as [c|]; [|done].
    destruct (decide (c = "0"%char)) as [->|Hc]; [done|].
    destruct c as [[] [] [] [] [] [] [] []]; done.
  - destruct fuel as [|fuel]; [lia|].
    rewrite zeros_snoc, <- app_assoc_s. simpl.
    rewrite last_byte_snoc, drop_last_snoc. apply IH; [done|lia].
Qed.

Lemma without_get (c : ascii) (s : string) (i : nat) :
  without c s -> String.get i s <> Some c.
Proof.
  revert i. induction s as [|c' s IH]; intros i H; simpl; [done|].
  destruct H as [Hc Hs]. destruct i as [|i]; [congruence|by apply IH].
Qed.

Lemma without_prefix (c : ascii) (s : string) :
  without c s -> String.prefix (String c EmptyString) s = false.
Proof.
  destruct s as [|c' s]; [done|]. intros [Hc _]. simpl.
  destruct (Ascii.ascii_dec c c'); [congruence|done].
Qed.

Lemma without_Contains (c : ascii) (s : string) :
  without c s -> strings_Contains s (String c EmptyString) = false.
Proof.
  induction s as [|c' s IH]; [done|]. intros H.
  cbn [strings_Contains]. rewrite (without_prefix c _ H).
  destruct H as [_ H]. by rewrite IH.
Qed.

Lemma Contains_point (ip rest : string) :
  strings_Contains (ip ++ String "." rest) "." = true.
Proof.
  apply strings_Contains_app. exists ip, rest. done.
Qed.

Lemma dotIndex_loop_none (n i : nat) (s : string) :
  without "." s -> dotIndex_loop n i s = (-1)%Z.
Proof.
  intros H. revert i. induction n as [|n IH]; intros i; simpl; [done|].
  pose proof (without_get "." s i H) as Hg.
  destruct (String.get i s) as [c|]; [|by apply IH].
  destruct (decide (c = "."%char)) as [->|Hc]; [done|].
  rewrite IH. destruct c as [[] [] [] [] [] [] [] []]; done.
Qed.

Lemma get_app_length (pre rest : string) (c : ascii) :
  String.get (String.length pre) (pre ++ String c rest) = Some c.
Proof. induction pre as [|x pre IH]; simpl; [done|apply IH]. Qed.

Lemma dotIndex_loop_first (ip rest : string) :
  without "." ip ->
  forall (pre : string) (n : nat),
    (String.length ip < n)%nat ->
    dotIndex_loop n (String.length pre) (pre ++ ip ++ String "." rest)
    = Z.of_nat (String.length pre + String.length ip).
Proof.
  induction ip as [|c ip IH]; intros Hip pre n Hn.
  - destruct n as [|n]; [simpl in Hn; lia|]. simpl.
    rewrite get_app_length. f_equal. lia.
  - destruct Hip as [Hc Hip]. destruct n as [|n]; [simpl in Hn; lia|].
    cbn [dotIndex_loop append]. rewrite get_app_length.
    assert (E : (pre ++ String c (ip ++ String "." rest)
                 = (pre ++ String c EmptyString) ++ ip ++ String "." rest)%string).
    { by rewrite app_assoc_s. }
    assert (L : S (String.length pre) = String.length (pre ++ String c EmptyString)).
    { rewrite length_app_s. simpl. lia. }
    rewrite E, L, IH; [|done|simpl in Hn; lia].
    rewrite length_app_s. simpl.
    destruct c as [[] [] [] [] [] [] [] []]; try (f_equal; lia). done.
Qed.

Lemma trimTrailingZeros_spec :
  (forall s, without "." s -> trimTrailingZeros s = s) /\
  (forall ip fp k,
      fp <> EmptyString ->
      last_byte fp <> Some "0"%char -> last_byte fp <> Some "."%char ->
      trimTrailingZeros (ip ++ "." ++ fp ++ zeros k) = (ip ++ "." ++ fp)%string) /\
  (forall ip k, trimTrailingZeros (ip ++ "." ++ zeros k) = ip).
Proof.
  split; [|split].
  - intros s H. unfold trimTrailingZeros.
    by rewrite stringContains_strings_Contains, without_Contains.
  - intros ip fp k Hne H0 Hp. unfold trimTrailingZeros.
    rewrite stringContains_strings_Contains. simpl. rewrite Contains_point. simpl.
    assert (Hl : last_byte (ip ++ String "." fp) = last_byte fp).
    { clear -Hne. induction ip as [|c ip IH]; simpl.
      - by destruct fp.
      - rewrite IH. by destruct ip. }
    assert (E : (ip ++ String "." (fp ++ zeros k) = (ip ++ String "." fp) ++ zeros k)%string).
    { by rewrite app_assoc_s. }
    rewrite E, trim_zeros_app.
    + rewrite Hl. destruct (last_byte fp) as [c|]; [|done].
      destruct (decide (c = "."%char)) as [->|Hc]; [done|].
      destruct c as [[] [] [] [] [] [] [] []]; done.
    + by rewrite Hl.
    + rewrite length_app_s, length_zeros. lia.
  - intros ip k. unfold trimTrailingZeros.
    rewrite stringContains_strings_Contains. simpl. rewrite Contains_point. simpl.
    assert (E : (ip ++ String "." (zeros k)
                 = (ip ++ String "." EmptyString) ++ zeros k)%string).
    { by rewrite app_assoc_s. }
    rewrite E, trim_zeros_app.
    + by rewrite last_byte_snoc, drop_last_snoc.
    + by rewrite last_byte_snoc.
    + rewrite length_app_s, length_zeros. lia.
Qed.

(** X2: [trimTrailingZeros] leaves a string with no point as it is; behind a
    point it removes the zeros that end the string, and the point too when
    nothing else follows it. *)
Theorem trimTrailingZeros_fraction :
  (forall s, without "." s -> trimTrailingZeros s = s) /\
  (forall ip fp k,
      fp <> EmptyString ->
      last_byte fp <> Some "0"%char -> last_byte fp <> Some "."%char ->
      trimTrailingZeros (ip ++ "." ++ fp ++ zeros k) = (ip ++ "." ++ fp)%string) /\
  (forall ip k, trimTrailingZeros (ip ++ "." ++ zeros k) = ip).
Proof. exact trimTrailingZeros_spec. Qed.

(** X3: [calculatePrecision] counts the decimals of a step size, the zeros that
    end it left out; a step size with no point has none. *)
Theorem calculatePrecision_decimals :
  (forall s, without "." s -> calculatePrecision s = 0%Z) /\
  (forall ip fp k,
      without "." ip ->
      last_byte fp <> Some "0"%char -> last_byte fp <> Some "."%char ->
      calculatePrecision (ip ++ "." ++ fp ++ zeros k) = Z.of_nat (String.length fp)).
Proof.
  destruct trimTrailingZeros_spec as (Hnone & Hfrac & Hpoint).
  split.
  - intros s H. unfold calculatePrecision. rewrite Hnone by done.
    by rewrite dotIndex_loop_none.
  - intros ip fp k Hip H0 Hp. unfold calculatePrecision.
    destruct (decide (fp = EmptyString)) as [->|Hne].
    + change (EmptyString ++ zeros k)%string with (zeros k).
      rewrite Hpoint. by rewrite dotIndex_loop_none.
    + rewrite Hfrac by done.
      change (ip ++ "." ++ fp)%string with (ip ++ String "." fp)%string.
      pose proof (dotIndex_loop_first ip fp Hip EmptyString
                    (String.length (ip ++ String "." fp))) as Hd.
      simpl in Hd. rewrite Hd by (rewrite length_app_s; simpl; lia).
      rewrite length_app_s. simpl.
      destruct fp as [|c fp]; [done|]. simpl.
      replace (_ =? -1)%Z with false by (symmetry; apply Z.eqb_neq; lia).
      replace (_ =? _)%Z with false by (symmetry; apply Z.eqb_neq; lia).
      simpl. lia.
Qed.

End PrecisionFacts.

(** ** Matching the bracket *)

Section BracketFacts.
Import Engine.
Local Arguments String.append : simpl nomatch.
Local Open Scope Z_scope.

Lemma get_app_pre (pre t : string) (j : nat) :
  String.get (String.length pre + j) (pre ++ t) = String.get j t.
Proof. induction pre as [|c pre IH]; simpl; [done|apply IH]. Qed.

Lemma substring_app_pre (pre t : string) (k : nat) :
  String.substring (String.length pre) k (pre ++ t) = String.substring 0 k t.
Proof. induction pre as [|c pre IH]; simpl; [done|apply IH]. Qed.

Lemma snoc_app (pre t : string) (c : ascii) :
  (pre ++ String c t = (pre ++ String c EmptyString) ++ t)%string.
Proof. induction pre as [|x pre IH]; simpl; [done|by rewrite IH]. Qed.

Lemma length_snoc (pre : string) (c : ascii) :
  String.length (pre ++ String c EmptyString) = S (String.length pre).
Proof. induction pre as [|x pre IH]; simpl; [done|by rewrite IH]. Qed.

(** The run of the loop over the bytes [t] that follow [pre], entered with
    a positive depth [d]: it stops at the first byte where the depth comes
    back to zero. *)
Lemma bracket_loop_spec (t : string) :
  forall (pre : string) (d : Z),
    0 < d ->
    let e := bracket_loop (String.length t) (String.length pre) d (pre ++ t) in
    (e = -1 /\
     forall k : nat, (k <= String.length t)%nat -> 0 < d + depth_of (String.substring 0 k t)) \/
    (exists k : nat,
        e = Z.of_nat (String.length pre + k) /\ (k < String.length t)%nat /\
        String.get k t = Some "]"%char /\
        d + depth_of (String.substring 0 (S k) t) = 0 /\
        forall j : nat, (j <= k)%nat -> 0 < d + depth_of (String.substring 0 j t)).
Proof.
  induction t as [|c t IH]; intros pre d Hd e.
  - left. split; [done|]. intros k Hk. simpl in Hk. destruct k; simpl; lia.
  - subst e. cbn [String.length bracket_loop].
    pose proof (get_app_pre pre (String c t) 0) as Hg. rewrite Nat.add_0_r in Hg.
    rewrite Hg. cbn [String.get]. rewrite snoc_app, <- (length_snoc pre c).
    assert (Hrest : forall d', 0 < d' -> d' = d + depth_of (String c EmptyString) ->
      (bracket_loop (String.length t) (String.length (pre ++ String c EmptyString)) d'
                    ((pre ++ String c EmptyString) ++ t) = -1 /\
       forall k : nat, (k <= S (String.length t))%nat ->
                       0 < d + depth_of (String.substring 0 k (String c t))) \/
      (exists k : nat,
          bracket_loop (String.length t) (String.length (pre ++ String c EmptyString)) d'
                       ((pre ++ String c EmptyString) ++ t)
          = Z.of_nat (String.length pre + k) /\ (k < S (String.length t))%nat /\
          String.get k (String c t) = Some "]"%char /\
          d + depth_of (String.substring 0 (S k) (String c t)) = 0 /\
          forall j : nat, (j <= k)%nat ->
                          0 < d + depth_of (String.substring 0 j (String c t)))).
    { intros d' Hd' Ed'.
      assert (Hsub : forall k, depth_of (String.substring 0 (S k) (String c t))
                               = depth_of (String c EmptyString)
                                 + depth_of (String.substring 0 k t)).
      { intros k. cbn [String.substring]. simpl.
        destruct c as [[] [] [] [] [] [] [] []]; simpl; lia. }
      destruct (IH (pre ++ String c EmptyString)%string d' Hd') as [[He Hall]|(k & He & Hk & Hgk & Hz & Hall)].
      - left. split; [done|]. intros k Hk. destruct k as [|k]; [simpl; lia|].
        rewrite Hsub. specialize (Hall k). lia.
      - right. exists (S k). rewrite He, length_snoc.
        split; [f_equal; lia|]. split; [lia|]. split; [done|].
        split; [rewrite Hsub; lia|].
        intros j Hj. destruct j as [|j]; [simpl; lia|].
        rewrite Hsub. specialize (Hall j). lia. }
    destruct c as [[] [] [] [] [] [] [] []];
      try (apply Hrest; [lia|simpl; lia]).
    destruct (d - 1 =? 0) eqn:Ez.
    + apply Z.eqb_eq in Ez. right. exists 0%nat.
      split; [f_equal; lia|]. split; [simpl; lia|]. split; [done|].
      split; [simpl; destruct t; simpl; lia|].
      intros j Hj. replace j with 0%nat by lia. simpl. lia.
    + apply Z.eqb_neq in Ez. apply Hrest; simpl; lia.
Qed.

Lemma split_at (s : string) (i : nat) :
  (i < String.length s)%nat ->
  exists pre c t, s = (pre ++ String c t)%string /\ String.length pre = i.
Proof.
  revert i. induction s as [|x s IH]; intros i Hi; simpl in Hi; [lia|].
  destruct i as [|i].
  - by exists EmptyString, x, s.
  - destruct (IH i) as (pre & c & t & -> & Hl); [lia|].
    exists (String x pre), c, t. simpl. by rewrite Hl.
Qed.

Lemma findMatchingBracket_spec (s : string) (start : Z) :
  match findMatchingBracket s start with
  | Panic => start < 0
  | Err _ => False
  | Ok e =>
      (e = -1 /\
       (Z.of_nat (String.length s) <= start \/
        String.get (Z.to_nat start) s <> Some "["%char \/
        forall k : nat, (0 < k <= String.length s - Z.to_nat start)%nat ->
                        0 < depth_of (String.substring (Z.to_nat start) k s))) \/
      (0 <= start < e /\ e < Z.of_nat (String.length s) /\
       String.get (Z.to_nat start) s = Some "["%char /\
       String.get (Z.to_nat e) s = Some "]"%char /\
       depth_of (String.substring (Z.to_nat start) (Z.to_nat (e - start + 1)) s) = 0 /\
       forall k : nat, (0 < k <= Z.to_nat (e - start))%nat ->
                       0 < depth_of (String.substring (Z.to_nat start) k s))
  end.
Proof.
  unfold findMatchingBracket.
  destruct (Z.of_nat (String.length s) <=? start) eqn:Hlen.
  { apply Z.leb_le in Hlen. left. split; [done|by left]. }
  apply Z.leb_gt in Hlen.
  destruct (start <? 0) eqn:Hneg; [by apply Z.ltb_lt in Hneg|].
  apply Z.ltb_ge in Hneg.
  destruct (split_at s (Z.to_nat start)) as (pre & c & t & -> & Hpre); [lia|].
  rewrite <- Hpre.
  pose proof (get_app_pre pre (String c t) 0) as Hg. rewrite Nat.add_0_r in Hg.
  rewrite Hg. cbn [String.get].
  assert (Hother : c <> "["%char ->
    match (match c with "["%char => Ok (bracket_loop
                     (String.length (pre ++ String c t) - String.length pre)
                     (String.length pre) 0 (pre ++ String c t))
                   | _ => Ok (-1) end) with
    | Panic => start < 0
    | Err _ => False
    | Ok e =>
        (e = -1 /\
         (Z.of_nat (String.length (pre ++ String c t)) <= start \/
          Some c <> Some "["%char \/
          forall k : nat, (0 < k <= String.length (pre ++ String c t) - String.length pre)%nat ->
             0 < depth_of (String.substring (String.length pre) k (pre ++ String c t)))) \/
        (0 <= start < e /\ e < Z.of_nat (String.length (pre ++ String c t)) /\
         Some c = Some "["%char /\
         String.get (Z.to_nat e) (pre ++ String c t) = Some "]"%char /\
         depth_of (String.substring (String.length pre) (Z.to_nat (e - start + 1))
                                    (pre ++ String c t)) = 0 /\
         forall k : nat, (0 < k <= Z.to_nat (e - start))%nat ->
            0 < depth_of (String.substring (String.length pre) k (pre ++ String c t)))
    end).
  { intros Hc.
    destruct c as [[] [] [] [] [] [] [] []]; try done;
      (left; split; [done|]; right; left; congruence). }
  destruct (decide (c = "["%char)) as [->|Hc]; [|by apply Hother].
  clear Hother.
  replace (String.length (pre ++ String "[" t) - String.length pre)%nat
    with (S (String.length t)) by (rewrite length_app_s; simpl; lia).
  cbn [bracket_loop]. rewrite Hg. cbn [String.get].
  rewrite snoc_app, <- (length_snoc pre "[").
  assert (Hsub : forall k, String.substring (String.length pre) (S k)
                             ((pre ++ String "[" EmptyString) ++ t)
                           = String "[" (String.substring 0 k t)).
  { intros k. rewrite <- snoc_app, substring_app_pre. done. }
  pose proof (bracket_loop_spec t (pre ++ String "[" EmptyString)%string (0 + 1) ltac:(lia)) as Hl.
  cbv zeta in Hl. rewrite length_snoc in Hl |- *. rewrite length_app_s.
  destruct Hl as [[-> Hall]|(k & -> & Hk & Hgk & Hz & Hall)].
  - left. split; [done|]. right. right. intros k Hk.
    destruct k as [|k]; [lia|]. rewrite Hsub. cbn [depth_of].
    specialize (Hall k). simpl in Hk. lia.
  - right. rewrite ?length_snoc.
    split; [lia|]. split; [lia|]. split; [done|]. split.
    { replace (Z.to_nat (Z.of_nat (S (String.length pre) + k)))
        with (String.length (pre ++ String "[" EmptyString) + k)%nat
        by (rewrite length_snoc; lia).
      by rewrite get_app_pre. }
    split.
    { replace (Z.to_nat (Z.of_nat (S (String.length pre) + k) - start + 1))
        with (S (S k)) by lia.
      rewrite Hsub. cbn [depth_of]. lia. }
    intros j Hj. destruct j as [|j]; [lia|]. rewrite Hsub. cbn [depth_of].
    specialize (Hall j). lia.
Qed.

(** X4: [findMatchingBracket] panics on a negative [start] inside the string;
    it returns [-1] when [start] is past the end, when the byte at [start]
    is no opening bracket, or when the brackets opened from [start] on are
    never all closed; otherwise it returns the index of the first closing
    bracket at which the slice from [start] is balanced. *)
Theorem findMatchingBracket_matches (s : string) (start : Z) :
  match findMatchingBracket s start with
  | Panic => start < 0
  | Err _ => False
  | Ok e =>
      (e = -1 /\
       (Z.of_nat (String.length s) <= start \/
        String.get (Z.to_nat start) s <> Some "["%char \/
        forall k : nat, (0 < k <= String.length s - Z.to_nat start)%nat ->
                        0 < depth_of (String.substring (Z.to_nat start) k s))) \/
      (0 <= start < e /\ e < Z.of_nat (String.length s) /\
       String.get (Z.to_nat start) s = Some "["%char /\
       String.get (Z.to_nat e) s = Some "]"%char /\
       depth_of (String.substring (Z.to_nat start) (Z.to_nat (e - start + 1)) s) = 0 /\
       forall k : nat, (0 < k <= Z.to_nat (e - start))%nat ->
                       0 < depth_of (String.substring (Z.to_nat start) k s))
  end.
Proof. apply findMatchingBracket_spec. Qed.

End BracketFacts.

(** ** Validating a decision *)

Section ValidationFacts.
Import Validation.

Lemma validActions_spec (a : string) :
  default false (validActions !! a) = true <->
  a = "open_long" \/ a = "open_short" \/ a = "close_long" \/ a = "close_short" \/
  a = "update_stop_loss" \/ a = "update_take_profit" \/ a = "hold" \/ a = "wait".
Proof.
  unfold validActions. cbn [list_to_map foldr].
  destruct (decide (a = "open_long")) as [->|?]; [split; [tauto|by vm_compute]|].
  destruct (decide (a = "open_short")) as [->|?]; [split; [tauto|by vm_compute]|].
  destruct (decide (a = "close_long")) as [->|?]; [split; [tauto|by vm_compute]|].
  destruct (decide (a = "close_short")) as [->|?]; [split; [tauto|by vm_compute]|].
  destruct (decide (a = "update_stop_loss")) as [->|?]; [split; [tauto|by vm_compute]|].
  destruct (decide (a = "update_take_profit")) as [->|?]; [split; [tauto|by vm_compute]|].
  destruct (decide (a = "hold")) as [->|?]; [split; [tauto|by vm_compute]|].
  destruct (decide (a = "wait")) as [->|?]; [split; [tauto|by vm_compute]|].
  rewrite !lookup_insert_ne by done. rewrite lookup_empty. simpl.
  split; [done|]. intros H. repeat (destruct H as [H|H]; [done|]). done.
Qed.

Local Open Scope R_scope.

Lemma R_leb_iff (x y : R) : R_leb x y = true <-> x <= y.
Proof. unfold R_leb. destruct (Rle_dec x y); split; (done || lra). Qed.

Lemma R_ltb_iff (x y : R) : R_ltb x y = true <-> x < y.
Proof. unfold R_ltb. destruct (Rlt_dec x y); split; (done || lra). Qed.

(** With the entry assumed at a fifth of the way from the stop to the
    target, the reward is four times the risk. *)
Lemma ratio_long (sl tp : R) :
  0 < sl -> sl < tp ->
  let entry := sl + (tp + - sl) * (2 / 10) in
  0 < (entry + - sl) / entry * 100 /\
  (tp + - entry) / entry * 100 / ((entry + - sl) / entry * 100) = 4.
Proof.
  intros Hsl Htp entry. assert (He : 0 < entry) by (unfold entry; lra).
  split.
  - apply Rmult_lt_0_compat; [|lra]. apply Rdiv_lt_0_compat; [unfold entry; lra|done].
  - unfold entry in *. field. split; lra.
Qed.

Lemma ratio_short (sl tp : R) :
  0 < tp -> tp < sl ->
  let entry := sl + - ((sl + - tp) * (2 / 10)) in
  0 < (sl + - entry) / entry * 100 /\
  (entry + - tp) / entry * 100 / ((sl + - entry) / entry * 100) = 4.
Proof.
  intros Htp Hsl entry. assert (He : 0 < entry) by (unfold entry; lra).
  split.
  - apply Rmult_lt_0_compat; [|lra]. apply Rdiv_lt_0_compat; [unfold entry; lra|done].
  - unfold entry in *. field. split; lra.
Qed.

Lemma major_iff (sym : string) :
  ((sym =? "BTCUSDT") || (sym =? "ETHUSDT"))%string = true <->
  sym = "BTCUSDT" \/ sym = "ETHUSDT".
Proof. by rewrite orb_true_iff, !String.eqb_eq. Qed.

Ltac exact_arith :=
  unfold f_sub, f_dec;
  cbn [f_leb f_ltb f_add f_mul f_div f_neg f_int Exact];
  change (10 ^ Z.of_nat 1)%Z with 10%Z; change (10 ^ Z.of_nat 2)%Z with 100%Z.

(** The checks on an opening decision, in exact arithmetic. *)
Lemma open_checks (fmt_f : nat -> R -> string) (long : bool) (sym : string) (lev : Z)
      (size sl tp accountEquity : R) (btcEthLeverage altcoinLeverage : Z) :
  let a := if long then "open_long" else "open_short" in
  validateDecision fmt_f (mkDecision sym a lev size sl tp 0%Z 0 "")
                   accountEquity btcEthLeverage altcoinLeverage = None <->
  (exists maxLeverage cap,
      ((sym = "BTCUSDT" \/ sym = "ETHUSDT") /\ maxLeverage = btcEthLeverage /\ cap = 10 \/
       ~ (sym = "BTCUSDT" \/ sym = "ETHUSDT") /\ maxLeverage = altcoinLeverage /\
       cap = 15 / 10) /\
      (1 <= lev <= maxLeverage)%Z /\
      0 < size <= accountEquity * cap * (101 / 100)) /\
  0 < sl /\ 0 < tp /\ (if long then sl < tp else tp < sl).
Proof.
  intros a. unfold validateDecision.
  cbn [Symbol Action Leverage PositionSizeUSD StopLoss TakeProfit].
  assert (Hv : default false (validActions !! a) = true).
  { apply validActions_spec. subst a. destruct long; tauto. }
  rewrite Hv. cbn [negb].
  assert (Ha : ((a =? "update_stop_loss")%string = false) /\
               ((a =? "update_take_profit")%string = false) /\
               (((a =? "open_long") || (a =? "open_short"))%string = true) /\
               ((a =? "open_long")%string = long)).
  { subst a. by destruct long. }
  destruct Ha as (-> & -> & -> & ->). cbn [andb].
  exact_arith.
  set (major := ((sym =? "BTCUSDT") || (sym =? "ETHUSDT"))%string).
  set (maxLeverage := if major then btcEthLeverage else altcoinLeverage).
  set (cap := if major then 10 else 15 / 10).
  assert (Hcapv : (if major then accountEquity * 10 else accountEquity * (15 / 10))
                  = accountEquity * cap) by (subst cap; by destruct major).
  rewrite Hcapv.
  assert (Hex : forall P : Z -> R -> Prop,
             (exists ml c,
                 ((sym = "BTCUSDT" \/ sym = "ETHUSDT") /\ ml = btcEthLeverage /\ c = 10 \/
                  ~ (sym = "BTCUSDT" \/ sym = "ETHUSDT") /\ ml = altcoinLeverage /\
                  c = 15 / 10) /\ P ml c) <-> P maxLeverage cap).
  { intros P. subst maxLeverage cap. destruct major eqn:Hm; subst major.
    - apply major_iff in Hm. split.
      + intros (ml & c & [(_ & -> & ->)|(Hn & _)] & HP); [done|tauto].
      + intros HP. exists btcEthLeverage, 10. split; [left; tauto|done].
    - assert (Hn : ~ (sym = "BTCUSDT" \/ sym = "ETHUSDT")).
      { intros Hs. apply major_iff in Hs. congruence. }
      split.
      + intros (ml & c & [(Hs & _)|(_ & -> & ->)] & HP); [tauto|done].
      + intros HP. exists altcoinLeverage, (15 / 10). split; [right; tauto|done]. }
  rewrite (Hex (fun ml c => (1 <= lev <= ml)%Z /\ 0 < size <= accountEquity * c * (101 / 100))).
  clear Hex Hcapv Hv.
  destruct (Z.leb_spec lev 0); cbn [orb]; [split; [discriminate|lia]|].
  destruct (Z.ltb_spec maxLeverage lev); [split; [discriminate|lia]|].
  unfold R_leb at 1. destruct (Rle_dec size 0); [split; [discriminate|lra]|].
  unfold R_ltb at 1.
  destruct (Rlt_dec (accountEquity * cap + accountEquity * cap * (1 / 100)) size).
  { split; [by destruct major|lra]. }
  unfold R_leb at 1. destruct (Rle_dec sl 0); cbn [orb]; [split; [discriminate|lra]|].
  unfold R_leb at 1. destruct (Rle_dec tp 0); [split; [discriminate|lra]|].
  destruct long; cbn [negb andb].
  - unfold R_leb at 1. destruct (Rle_dec tp sl); [split; [discriminate|lra]|].
    destruct (ratio_long sl tp) as [Hr1 Hr2]; [lra|lra|]. cbv zeta in Hr1, Hr2.
    rewrite (proj2 (R_ltb_iff _ _) Hr1), Hr2.
    rewrite R_ltb_false by lra.
    split; [intros _|done]. split; [split; [lia|lra]|]. lra.
  - unfold R_leb at 1. destruct (Rle_dec sl tp); [split; [discriminate|lra]|].
    destruct (ratio_short sl tp) as [Hr1 Hr2]; [lra|lra|]. cbv zeta in Hr1, Hr2.
    rewrite (proj2 (R_ltb_iff _ _) Hr1), Hr2.
    rewrite R_ltb_false by lra.
    split; [intros _|done]. split; [split; [lia|lra]|]. lra.
Qed.


End ValidationFacts.

Section ValidateAll.
Import Validation.
Context {F : Type} `{Float64 F}.
Variable fmt_f : nat -> F -> string.

Lemma validate_loop_spec (accountEquity : F) (btcEthLeverage altcoinLeverage : Z)
      (decisions : list (Decision F)) :
  forall i : Z,
    match validate_loop fmt_f i decisions accountEquity btcEthLeverage altcoinLeverage with
    | None =>
        Forall (fun d => validateDecision fmt_f d accountEquity btcEthLeverage
                                          altcoinLeverage = None) decisions
    | Some msg =>
        exists (k : nat) (d : Decision F) (err : string),
          decisions !! k = Some d /\
          validateDecision fmt_f d accountEquity btcEthLeverage altcoinLeverage = Some err /\
          Forall (fun d' => validateDecision fmt_f d' accountEquity btcEthLeverage
                                             altcoinLeverage = None) (take k decisions) /\
          msg = ("決策 #" ++ pretty (i + Z.of_nat k + 1)%Z ++ " 驗證失敗: " ++ err)%string
    end.
Proof.
  induction decisions as [|d rest IH]; intros i; cbn [validate_loop]; [done|].
  destruct (validateDecision fmt_f d accountEquity btcEthLeverage altcoinLeverage)
    as [err|] eqn:Hd.
  - exists 0%nat, d, err. split; [done|]. split; [done|]. split; [constructor|].
    do 3 f_equal. lia.
  - specialize (IH (i + 1)%Z).
    destruct (validate_loop fmt_f (i + 1) rest accountEquity btcEthLeverage altcoinLeverage)
      as [msg|].
    + destruct IH as (k & d' & err & Hk & Hd' & Hall & ->).
      exists (S k), d', err. split; [done|]. split; [done|].
      split; [by constructor|]. do 3 f_equal. lia.
    + by constructor.
Qed.

Lemma validateDecisions_first_failure_lemma (decisions : list (Decision F)) (accountEquity : F)
        (btcEthLeverage altcoinLeverage : Z) :
  match validateDecisions fmt_f decisions accountEquity btcEthLeverage altcoinLeverage with
  | None =>
      Forall (fun d => validateDecision fmt_f d accountEquity btcEthLeverage
                                        altcoinLeverage = None) decisions
  | Some msg =>
      exists (k : nat) (d : Decision F) (err : string),
        decisions !! k = Some d /\
        validateDecision fmt_f d accountEquity btcEthLeverage altcoinLeverage = Some err /\
        Forall (fun d' => validateDecision fmt_f d' accountEquity btcEthLeverage
                                           altcoinLeverage = None) (take k decisions) /\
        msg = ("決策 #" ++ pretty (Z.of_nat k + 1)%Z ++ " 驗證失敗: " ++ err)%string
  end.
Proof. apply (validate_loop_spec accountEquity btcEthLeverage altcoinLeverage decisions 0). Qed.

(** X8: [validateDecisions] returns [nil] exactly when every decision of the
    batch passes [validateDecision]; otherwise its error is that of the
    first decision that fails, under its position counted from 1. *)
Theorem validateDecisions_first_failure (decisions : list (Decision F)) (accountEquity : F)
        (btcEthLeverage altcoinLeverage : Z) :
  match validateDecisions fmt_f decisions accountEquity btcEthLeverage altcoinLeverage with
  | None =>
      Forall (fun d => validateDecision fmt_f d accountEquity btcEthLeverage
                                        altcoinLeverage = None) decisions
  | Some msg =>
      exists (k : nat) (d : Decision F) (err : string),
        decisions !! k = Some d /\
        validateDecision fmt_f d accountEquity btcEthLeverage altcoinLeverage = Some err /\
        Forall (fun d' => validateDecision fmt_f d' accountEquity btcEthLeverage
                                           altcoinLeverage = None) (take k decisions) /\
        msg = ("決策 #" ++ pretty (Z.of_nat k + 1)%Z ++ " 驗證失敗: " ++ err)%string
  end.
Proof. apply validateDecisions_first_failure_lemma. Qed.

End ValidateAll.

(** ** Extracting the decisions *)

Section ExtractionFacts.
Import Extraction_ Precision.
Local Arguments String.append : simpl nomatch.
Context {F : Type} `{Float64 F}.
Variable TrimFunc_IsSpace TrimRightFunc_IsSpace : string -> string.
Variable json_Unmarshal : string -> string + list (Validation.Decision F).
Variable fmt_f : nat -> F -> string.

Lemma strings_Index_byte (c : ascii) (s : string) :
  (strings_Index s (String c EmptyString) = -1 /\ without c s)%Z \/
  exists pre rest,
    s = (pre ++ String c rest)%string /\ without c pre /\
    strings_Index s (String c EmptyString) = Z.of_nat (String.length pre).
Proof.
  induction s as [|x s IH].
  - left. done.
  - cbn [strings_Index String.prefix].
    destruct (Ascii.ascii_dec c x) as [->|Hne].
    + right. exists EmptyString, s. split; [done|]. split; [done|]. by destruct s.
    + destruct IH as [[Hi Hw]|(pre & rest & -> & Hw & Hi)].
      * left. rewrite Hi. simpl. split; [done|]. split; [congruence|done].
      * right. exists (String x pre), rest. split; [done|]. split; [split; [congruence|done]|].
        rewrite Hi. cbn [String.length].
        destruct (Z.of_nat (String.length pre) <? 0)%Z eqn:E; [apply Z.ltb_lt in E; lia|].
        lia.
Qed.

Lemma substring_0_app (a b : string) :
  String.substring 0 (String.length a) (a ++ b) = a.
Proof.
  induction a as [|x a IH]; simpl; [by destruct b|by rewrite IH].
Qed.

Lemma last_byte_cons_snoc (x : ascii) (body : string) (c : ascii) :
  last_byte (String x (body ++ String c EmptyString)) = Some c.
Proof.
  change (String x (body ++ String c EmptyString))%string
    with (String x body ++ String c EmptyString)%string.
  induction (String x body) as [|y t IH]; [done|].
  simpl. destruct (t ++ String c EmptyString)%string eqn:E; [by destruct t|done].
Qed.

(** A slice from an opening to a closing bracket has no white space to cut. *)
Lemma TrimSpace_bracketed (body : string) :
  TrimSpace TrimFunc_IsSpace TrimRightFunc_IsSpace
            (String "[" (body ++ String "]" EmptyString))
  = String "[" (body ++ String "]" EmptyString).
Proof.
  unfold TrimSpace, strings_TrimSpace. cbn [trim_start].
  change (RuneSelf "[") with false. change (asciiSpace "[") with false. cbv iota.
  cbn [String.length trim_stop]. rewrite last_byte_cons_snoc.
  change (RuneSelf "]") with false. change (asciiSpace "]") with false. done.
Qed.

Lemma extractDecisions_spec (response : string) :
  (without "[" response /\
   extractDecisions TrimFunc_IsSpace TrimRightFunc_IsSpace json_Unmarshal response
   = Err "無法找到JSON數組起始") \/
  exists pre rest,
    response = (pre ++ String "[" rest)%string /\ without "[" pre /\
    (((forall k : nat, (0 < k <= S (String.length rest))%nat ->
                       (0 < depth_of (String.substring 0 k (String "[" rest)))%Z) /\
      extractDecisions TrimFunc_IsSpace TrimRightFunc_IsSpace json_Unmarshal response
      = Err "無法找到JSON數組結束") \/
     exists body post,
       rest = (body ++ String "]" post)%string /\
       let slice := String "[" (body ++ String "]" EmptyString) in
       depth_of slice = 0%Z /\
       (forall k : nat, (0 < k < String.length slice)%nat ->
                        (0 < depth_of (String.substring 0 k slice))%Z) /\
       extractDecisions TrimFunc_IsSpace TrimRightFunc_IsSpace json_Unmarshal response
       = match json_Unmarshal (fixMissingQuotes slice) with
         | inl err => Err ("JSON解析失敗: " ++ err ++ "
JSON內容: " ++ fixMissingQuotes slice)%string
         | inr decisions => Ok decisions
         end).
Proof.
  destruct (strings_Index_byte "[" response) as [[Hi Hw]|(pre & rest & -> & Hw & Hi)].
  { left. split; [done|]. unfold extractDecisions. by rewrite Hi. }
  right. exists pre, rest. split; [done|]. split; [done|].
  unfold extractDecisions. rewrite Hi.
  replace (Z.of_nat (String.length pre) =? -1)%Z with false
    by (symmetry; apply Z.eqb_neq; lia).
  pose proof (findMatchingBracket_spec (pre ++ String "[" rest) (Z.of_nat (String.length pre)))
    as Hb.
  rewrite Nat2Z.id in Hb |- *.
  pose proof (get_app_pre pre (String "[" rest) 0) as Hg. rewrite Nat.add_0_r in Hg.
  destruct (Engine.findMatchingBracket (pre ++ String "[" rest) (Z.of_nat (String.length pre)))
    as [e|msg|]; [|done|lia].
  destruct Hb as [[-> Hb]|(He & Hlen & _ & Hge & Hd & Hall)].
  - left. split; [|done].
    destruct Hb as [Hb|[Hb|Hb]].
    + rewrite length_app_s in Hb. simpl in Hb. lia.
    + rewrite Hg in Hb. done.
    + intros k Hk. rewrite <- (substring_app_pre pre). apply Hb.
      rewrite length_app_s. simpl. lia.
  - right.
    replace (e =? -1)%Z with false by (symmetry; apply Z.eqb_neq; lia).
    rewrite length_app_s in Hlen. cbn [String.length] in Hlen.
    destruct (split_at rest (Z.to_nat e - String.length pre - 1)) as (body & c & post & -> & Hbody);
      [lia|].
    assert (Ee : Z.to_nat e = (String.length pre + S (String.length body))%nat) by lia.
    rewrite Ee, get_app_pre in Hge. cbn [String.get] in Hge.
    pose proof (get_app_pre body (String c post) 0) as Hg'. rewrite Nat.add_0_r in Hg'.
    rewrite Hg' in Hge. cbn [String.get] in Hge. injection Hge as ->.
    exists body, post. split; [done|].
    assert (Hslice : forall k, (k <= S (S (String.length body)))%nat ->
              String.substring (String.length pre) k
                               (pre ++ String "[" (body ++ String "]" post))
              = String.substring 0 k (String "[" (body ++ String "]" EmptyString))).
    { intros k Hk. rewrite substring_app_pre.
      destruct k as [|k]; [done|]. cbn [String.substring]. f_equal.
      clear -Hk. revert k Hk. induction body as [|x body IH]; intros k Hk.
      - simpl in *. destruct k as [|[|k]]; [by destruct post|by destruct post|lia].
      - destruct k as [|k]; [done|]. cbn [String.append String.substring]. f_equal.
        apply IH. simpl in *. lia. }
    assert (Hfull : String.substring 0 (S (S (String.length body)))
                                     (String "[" (body ++ String "]" EmptyString))
                    = String "[" (body ++ String "]" EmptyString)).
    { pose proof (substring_0_app (String "[" (body ++ String "]" EmptyString)) EmptyString)
        as Hs.
      rewrite app_nil_r_s in Hs. cbn [String.length] in Hs.
      rewrite length_app_s in Hs. cbn [String.length] in Hs.
      by replace (S (String.length body + 1)) with (S (S (String.length body))) in Hs by lia. }
    replace (Z.to_nat (e + 1 - Z.of_nat (String.length pre)))
      with (S (S (String.length body))) in * by lia.
    replace (Z.to_nat (e - Z.of_nat (String.length pre) + 1))
      with (S (S (String.length body))) in * by lia.
    rewrite Hslice in Hd |- * by lia. rewrite Hfull in Hd |- *.
    cbv zeta. split; [done|]. split.
    + intros k Hk. rewrite <- Hslice.
      * apply Hall. cbn [String.length] in Hk. rewrite length_app_s in Hk.
        simpl in Hk. lia.
      * cbn [String.length] in Hk. rewrite length_app_s in Hk. simpl in Hk. lia.
    + by rewrite TrimSpace_bracketed.
Qed.

(** X5: [extractDecisions] reads the array from the first opening bracket of
    the answer, wherever it stands, to the closing bracket that balances it,
    brackets inside strings counted like the others: with no opening
    bracket, or with one that is never balanced, it fails; otherwise the
    text between the two, its curly quotes replaced, goes to the JSON
    decoder, whose result or error is returned. It never panics. *)
Theorem extractDecisions_first_bracket_pair (response : string) :
  (without "[" response /\
   extractDecisions TrimFunc_IsSpace TrimRightFunc_IsSpace json_Unmarshal response
   = Err "無法找到JSON數組起始") \/
  exists pre rest,
    response = (pre ++ String "[" rest)%string /\ without "[" pre /\
    (((forall k : nat, (0 < k <= S (String.length rest))%nat ->
                       (0 < depth_of (String.substring 0 k (String "[" rest)))%Z) /\
      extractDecisions TrimFunc_IsSpace TrimRightFunc_IsSpace json_Unmarshal response
      = Err "無法找到JSON數組結束") \/
     exists body post,
       rest = (body ++ String "]" post)%string /\
       let slice := String "[" (body ++ String "]" EmptyString) in
       depth_of slice = 0%Z /\
       (forall k : nat, (0 < k < String.length slice)%nat ->
                        (0 < depth_of (String.substring 0 k slice))%Z) /\
       extractDecisions TrimFunc_IsSpace TrimRightFunc_IsSpace json_Unmarshal response
       = match json_Unmarshal (fixMissingQuotes slice) with
         | inl err => Err ("JSON解析失敗: " ++ err ++ "
JSON內容: " ++ fixMissingQuotes slice)%string
         | inr decisions => Ok decisions
         end).
Proof. apply extractDecisions_spec. Qed.

End ExtractionFacts.

(** ** The curly quotes *)

Section QuoteFacts.
Import Extraction_.
Local Arguments String.append : simpl nomatch.

Lemma prefix_three (a b c : ascii) (t : string) :
  String.prefix (three a b c) t = true <-> exists t', t = String a (String b (String c t')).
Proof.
  unfold three. split.
  - destruct t as [|x [|y [|z t']]]; simpl; try done;
      repeat (destruct (Ascii.ascii_dec _ _); try done).
    all: subst; intros _; by eexists.
  - intros [t' ->]. simpl.
    repeat (destruct (Ascii.ascii_dec _ _); try done). by destruct t'.
Qed.

Section OnePass.
Variables (q1 q2 q3 n : ascii).
Let q := three q1 q2 q3.
Let out (t : string) : string := replace_from 0 t q (String n EmptyString).

Lemma out_match (t' : string) :
  out (String q1 (String q2 (String q3 t'))) = String n (out t').
Proof.
  unfold out. cbn [replace_from].
  assert (Hp : String.prefix q (String q1 (String q2 (String q3 t'))) = true).
  { apply prefix_three. by exists t'. }
  rewrite Hp. done.
Qed.

Lemma out_other (x : ascii) (t : string) :
  String.prefix q (String x t) = false -> out (String x t) = String x (out t).
Proof. intros Hp. unfold out. cbn [replace_from]. by rewrite Hp. Qed.

(** An instance of another pattern at the head of the output stood at the
    head of the input, where no instance of [q] stood. *)
Lemma out_head (a b c : ascii) (t : string) :
  n <> a -> n <> b -> n <> c ->
  String.prefix (three a b c) (out t) = true ->
  String.prefix (three a b c) t = true /\ String.prefix q t = false.
Proof.
  intros Ha Hb Hc Hp.
  assert (Hstep : forall (y : ascii) (u r : string),
             out u = String y r -> n <> y ->
             exists u', u = String y u' /\ String.prefix q u = false /\ r = out u').
  { intros y u r Hu Hy. destruct u as [|x u']; [done|].
    destruct (String.prefix q (String x u')) eqn:Hq.
    - apply prefix_three in Hq as [t' Ht']. rewrite Ht', out_match in Hu. congruence.
    - rewrite out_other in Hu by done. injection Hu as Hx Hr. subst y r. by exists u'. }
  apply prefix_three in Hp as [r Hr].
  destruct (Hstep a t _ Hr Ha) as (t1 & -> & Hq & Hr1).
  symmetry in Hr1. destruct (Hstep b t1 _ Hr1 Hb) as (t2 & -> & _ & Hr2).
  symmetry in Hr2. destruct (Hstep c t2 _ Hr2 Hc) as (t3 & -> & _ & _).
  split; [|done]. apply prefix_three. by exists t3.
Qed.

Lemma Contains_cons (p : string) (x : ascii) (t : string) :
  strings_Contains t p = true -> strings_Contains (String x t) p = true.
Proof. intros Hc. cbn [strings_Contains]. rewrite Hc. apply orb_true_r. Qed.

(** A pass leaves no instance of another pattern that the input did not
    hold, and no instance of its own pattern. *)
Lemma out_Contains (a b c : ascii) :
  n <> a -> n <> b -> n <> c ->
  forall (m : nat) (t : string),
    (String.length t <= m)%nat ->
    strings_Contains (out t) (three a b c) = true ->
    strings_Contains t (three a b c) = true /\ three a b c <> q.
Proof.
  intros Ha Hb Hc. induction m as [|m IH]; intros t Hm Hcont.
  - destruct t; [done|simpl in Hm; lia].
  - destruct t as [|x t]; [done|].
    destruct (String.prefix q (String x t)) eqn:Hq.
    + apply prefix_three in Hq as [t' Ht']. rewrite Ht' in *.
      rewrite out_match in Hcont. cbn [strings_Contains] in Hcont.
      assert (Hn : String.prefix (three a b c) (String n (out t')) = false).
      { unfold three. simpl. destruct (Ascii.ascii_dec a n); [congruence|done]. }
      rewrite Hn in Hcont. cbn [orb] in Hcont.
      destruct (IH t') as [Ht Hne]; [simpl in Hm; lia|done|].
      split; [|done]. by do 3 apply Contains_cons.
    + pose proof Hcont as Hcont'. rewrite out_other in Hcont' by done.
      cbn [strings_Contains] in Hcont'. apply orb_true_iff in Hcont' as [Hp|Hrest].
      * rewrite <- out_other in Hp by done.
        apply out_head in Hp as [Hp Hq']; [|done..].
        split; [cbn [strings_Contains]; by rewrite Hp|].
        intros E. rewrite E in Hp. congruence.
      * destruct (IH t) as [Ht Hne]; [simpl in Hm; lia|done|].
        split; [by apply Contains_cons|done].
Qed.

End OnePass.

Lemma ReplaceAll_clears (q1 q2 q3 n : ascii) (s : string) :
  n <> q1 -> n <> q2 -> n <> q3 ->
  strings_Contains (strings_ReplaceAll s (three q1 q2 q3) (String n EmptyString))
                   (three q1 q2 q3) = false.
Proof.
  intros H1 H2 H3. apply not_true_is_false. intros Hc.
  destruct (out_Contains q1 q2 q3 n q1 q2 q3 H1 H2 H3 (String.length s) s) as [_ Hne];
    [lia|exact Hc|done].
Qed.

Lemma ReplaceAll_keeps_clear (q1 q2 q3 n a b c : ascii) (s : string) :
  n <> a -> n <> b -> n <> c ->
  strings_Contains s (three a b c) = false ->
  strings_Contains (strings_ReplaceAll s (three q1 q2 q3) (String n EmptyString))
                   (three a b c) = false.
Proof.
  intros H1 H2 H3 Hs. apply not_true_is_false. intros Hc.
  destruct (out_Contains q1 q2 q3 n a b c H1 H2 H3 (String.length s) s) as [Ht _];
    [lia|exact Hc|congruence].
Qed.

Lemma ReplaceAll_without (a : ascii) (old new s : string) :
  String.get 0 old = Some a -> without a s -> strings_ReplaceAll s old new = s.
Proof.
  intros Ha Hs. unfold strings_ReplaceAll. induction s as [|x s IH]; [done|].
  destruct Hs as [Hx Hs]. cbn [replace_from].
  assert (Hp : String.prefix old (String x s) = false).
  { destruct old as [|o old]; [done|]. simpl in Ha. injection Ha as ->. simpl.
    destruct (Ascii.ascii_dec a x); [congruence|done]. }
  rewrite Hp, IH; done.
Qed.

(** X6: After [fixMissingQuotes] the text holds none of the four curly quotes;
    a text with no byte [0xE2] is left as it is. *)
Theorem fixMissingQuotes_no_curly_quotes (s : string) :
  strings_Contains (fixMissingQuotes s) "“" = false /\
  strings_Contains (fixMissingQuotes s) "”" = false /\
  strings_Contains (fixMissingQuotes s) "‘" = false /\
  strings_Contains (fixMissingQuotes s) "’" = false /\
  (without "226" s -> fixMissingQuotes s = s).
Proof.
  unfold fixMissingQuotes.
  change "“"%string with (three "226" "128" "156").
  change "”"%string with (three "226" "128" "157").
  change "‘"%string with (three "226" "128" "152").
  change "’"%string with (three "226" "128" "153").
  change "'"%string with (String "039" EmptyString).
  split; [|split; [|split; [|split]]].
  - do 3 (apply ReplaceAll_keeps_clear; [done..|]). by apply ReplaceAll_clears.
  - do 2 (apply ReplaceAll_keeps_clear; [done..|]). by apply ReplaceAll_clears.
  - apply ReplaceAll_keeps_clear; [done..|]. by apply ReplaceAll_clears.
  - by apply ReplaceAll_clears.
  - intros Hs. by rewrite !(ReplaceAll_without "226" _ _ s) by done.
Qed.

End QuoteFacts.

(** ** Parsing the answer *)

Section ParseFacts.
Import Extraction_ Validation.
Context {F : Type} `{Float64 F}.
Variable TrimFunc_IsSpace TrimRightFunc_IsSpace : string -> string.
Variable json_Unmarshal : string -> string + list (Decision F).
Variable fmt_f : nat -> F -> string.

Lemma extractDecisions_no_panic (response : string) :
  extractDecisions TrimFunc_IsSpace TrimRightFunc_IsSpace json_Unmarshal response <> Panic.
Proof.
  destruct (extractDecisions_spec TrimFunc_IsSpace TrimRightFunc_IsSpace json_Unmarshal response)
    as [[_ ->]|(pre & rest & _ & _ & [[_ ->]|(body & post & _ & Hs)])]; try done.
  cbv zeta in Hs. destruct Hs as (_ & _ & ->). by destruct (json_Unmarshal _).
Qed.

(** X9: [parseFullDecisionResponse] never panics and always returns a decision
    record that carries the chain of thought. Its error is [nil] exactly
    when the decisions were extracted and every one of them passes
    [validateDecision]; when the extraction fails the record holds no
    decision, when the validation fails it holds the decisions extracted. *)
Theorem parseFullDecisionResponse_validated (aiResponse : string) (accountEquity : F)
        (btcEthLeverage altcoinLeverage : Z) :
  exists (fd : FullDecision F) (err : option string),
    parseFullDecisionResponse TrimFunc_IsSpace TrimRightFunc_IsSpace json_Unmarshal fmt_f
                              aiResponse accountEquity btcEthLeverage altcoinLeverage
    = Ok (fd, err) /\
    CoTTrace fd = extractCoTTrace TrimFunc_IsSpace TrimRightFunc_IsSpace aiResponse /\
    match extractDecisions TrimFunc_IsSpace TrimRightFunc_IsSpace json_Unmarshal aiResponse with
    | Ok decisions =>
        Decisions fd = decisions /\
        (err = None <->
         Forall (fun d => validateDecision fmt_f d accountEquity btcEthLeverage
                                           altcoinLeverage = None) decisions)
    | _ => Decisions fd = [] /\ err <> None
    end.
Proof.
  unfold parseFullDecisionResponse.
  pose proof (extractDecisions_no_panic aiResponse) as Hp.
  destruct (extractDecisions TrimFunc_IsSpace TrimRightFunc_IsSpace json_Unmarshal aiResponse)
    as [decisions|msg|]; [| |done].
  - pose proof (validateDecisions_first_failure_lemma fmt_f decisions accountEquity
                  btcEthLeverage altcoinLeverage) as Hv.
    destruct (validateDecisions fmt_f decisions accountEquity btcEthLeverage altcoinLeverage)
      as [e|].
    + eexists _, _. split; [done|]. split; [done|]. split; [done|].
      split; [done|]. intros Hall.
      destruct Hv as (k & d & e' & Hk & Hd & _). 
      rewrite Forall_lookup in Hall. specialize (Hall k d Hk). cbv beta in Hall. congruence.
    + eexists _, _. split; [done|]. split; [done|]. split; [done|]. done.
  - eexists _, _. split; [done|]. split; [done|]. done.
Qed.

End ParseFacts.

(** ** The positions of the [AutoTrader] *)

Section ApiFacts.
Import Auto.

Ltac sign_cases x :=
  rewrite ?FloatAxioms.ltb_spec, ?FloatAxioms.leb_spec, ?FloatAxioms.eqb_spec,
    ?FloatAxioms.opp_spec, ?b64_zero;
  unfold b64_is_nan;
  destruct (Prim2SF x) as [[]|[]| |[] ? ?];
  unfold SFltb, SFleb, SFeqb, SFcompare, SFopp; simpl; intros; congruence.

Lemma b64_pos_not_lt (x : float) :
  (b64_of_Z 0 <? x)%float = true -> (x <? b64_of_Z 0)%float = false.
Proof. sign_cases x. Qed.

Lemma b64_neg_opp_not_lt (x : float) :
  (x <? b64_of_Z 0)%float = true -> (- x <? b64_of_Z 0)%float = false.
Proof. sign_cases x. Qed.

Lemma b64_lt_not_nan (x : float) :
  (x <? b64_of_Z 0)%float = true -> b64_is_nan x = false.
Proof. sign_cases x. Qed.

Lemma b64_pos_not_neg (x : float) :
  (b64_of_Z 0 <? x)%float = true -> (x <? b64_of_Z 0)%float = false.
Proof. sign_cases x. Qed.

Lemma binance_position_typed env (pos : Binance.PositionRisk) m :
  Binance.position_map env pos = Some m -> typed_position m.
Proof.
  unfold Binance.position_map.
  destruct (_ =? _)%f64; [done|]. intros [= <-].
  repeat split; eexists; reflexivity.
Qed.

(** A typed position in the signed convention comes out reported. *)
Lemma api_position_signed (pos : gmap string value) :
  typed_position pos -> signed_position pos ->
  exists m, api_position pos = Ok m /\ reported_position m.
Proof.
  intros ((sym & Hsym) & (side' & Hside') & (e & He) & (mk & Hmk) & (a' & Ha') & (u & Hu)
          & (l & Hl)) (side & x & Hside & Hs & Hx & Hzero & Hlong).
  rewrite Hside in Hside'. injection Hside' as <-.
  rewrite Hx in Ha'. injection Ha' as <-.
  unfold api_position, must_string, must_float.
  rewrite Hsym, Hside, He, Hmk, Hx, Hu, Hl.
  eexists. split; [reflexivity|].
  change (f_ltb x (f_int 0)) with (x <? b64_of_Z 0)%float.
  change (f_eqb x (f_int 0)) with (x =? b64_of_Z 0)%float in Hzero.
  exists side. destruct (x <? b64_of_Z 0)%float eqn:Hneg.
  - exists (- x)%float. split; [reflexivity|]. split; [done|]. split; [reflexivity|].
    split; [by apply b64_neg_opp_not_le|]. intros _. by apply b64_neg_opp_pos.
  - exists x. split; [reflexivity|]. split; [done|]. split; [reflexivity|].
    split; [by apply b64_nonzero_nonneg_not_le|].
    intros Hnan. by apply b64_nonzero_nonneg_pos.
Qed.

Lemma api_positions_signed (positions : list (gmap string value)) :
  Forall (fun m => typed_position m /\ signed_position m) positions ->
  exists res, api_positions positions = Ok res /\ Forall reported_position res /\
              length res = length positions.
Proof.
  induction 1 as [|pos rest [Ht Hs] _ IH]; [by exists []|].
  destruct (api_position_signed pos Ht Hs) as (m & Hm & Hr).
  destruct IH as (res & Hres & Hall & Hlen).
  exists (m :: res). cbn [api_positions]. rewrite Hm, Hres.
  split; [done|]. split; [by constructor|]. simpl. by rewrite Hlen.
Qed.

Lemma binance_GetPositions_typed env (st st' : Binance.State) (res : list (gmap string value)) :
  cache_typed st ->
  Binance.GetPositions env st = (Ok res, st') ->
  Forall (fun m => typed_position m /\ signed_position m) res.
Proof.
  intros Hcache.
  assert (Hfresh : forall positions,
             Forall (fun m => typed_position m /\ signed_position m)
                    (omap (Binance.position_map env) positions)).
  { intros positions. apply omap_Forall. intros p m Hm.
    split; [by apply (binance_position_typed env p)|by apply (binance_position_signed env p)]. }
  unfold Binance.GetPositions, mbind, M_bind, gets, Binance.emit, Binance.set_cache, fail,
    mret, M_ret. simpl.
  destruct (Binance.cachedPositions st) as [ps|] eqn:Hc.
  - destruct (_ <? _)%Z.
    + intros [= <- <-]. by apply Hcache.
    + destruct (Binance.positionRisk env _) as [e|ps']; simpl; [done|]. intros [= <- <-].
      apply Hfresh.
  - destruct (Binance.positionRisk env _) as [e|ps']; simpl; [done|]. intros [= <- <-].
    apply Hfresh.
Qed.

(** X11: On what the Binance backend returns, signed quantities and all, the
    loop of [AutoTrader.GetPositions] does not panic and reports every
    position with its side and a quantity made positive. *)
Theorem api_positions_of_binance env (st st' : Binance.State)
        (positions : list (gmap string value)) :
  cache_typed st ->
  Binance.GetPositions env st = (Ok positions, st') ->
  exists res, api_positions positions = Ok res /\ Forall reported_position res /\
              length res = length positions.
Proof.
  intros Hcache Hrun. apply api_positions_signed.
  by apply (binance_GetPositions_typed env st st').
Qed.

(** The loop on the short position of the scenario. *)
Lemma api_positions_of_binance_short :
  exists res,
    api_positions (match (Binance.GetPositions short_half fresh_trader).1 with
                   | Ok ps => ps
                   | _ => []
                   end) = Ok res /\
    Forall reported_position res /\
    length res = length (match (Binance.GetPositions short_half fresh_trader).1 with
                         | Ok ps => ps
                         | _ => []
                         end).
Proof.
  apply (api_positions_of_binance short_half fresh_trader
           (Binance.GetPositions short_half fresh_trader).2).
  - intros ps Hps. discriminate Hps.
  - vm_compute. reflexivity.
Defined.

End ApiFacts.

Section DispatchFacts.
Import Auto.
Context {S : Type}.
Variable trader : Trader S.
Variable market_Get : string -> M S float.
Variable UnixMilli : M S Z.

(** X10: [executeDecisionWithRecord] knows the actions [validateDecision]
    knows: a valid action goes to its method (or, for hold and wait, to
    nothing at all), and any other action is answered with the
    unknown-action error, nothing done. *)
Theorem executeDecisionWithRecord_valid_actions (decision : Sequencer.Decision) :
  let run := executeDecisionWithRecord trader market_Get UnixMilli decision in
  if default false (Validation.validActions !! Sequencer.Action decision) then
    run = executeOpenLongWithRecord trader market_Get UnixMilli decision \/
    run = executeOpenShortWithRecord trader market_Get UnixMilli decision \/
    run = executeCloseLongWithRecord trader market_Get decision \/
    run = executeCloseShortWithRecord trader market_Get decision \/
    run = executeUpdateStopLossWithRecord trader decision \/
    run = executeUpdateTakeProfitWithRecord trader decision \/
    run = mret tt
  else
    run = fail ("未知的action: " ++ Sequencer.Action decision)%string.
Proof.
  intros run. subst run. unfold executeDecisionWithRecord.
  destruct (default false (Validation.validActions !! Sequencer.Action decision)) eqn:Hv.
  - apply validActions_spec in Hv.
    destruct Hv as [->|[->|[->|[->|[->|[->|[->| ->]]]]]]]; cbn; tauto.
  - assert (Hn : forall a, Sequencer.Action decision = a ->
                           default false (Validation.validActions !! a) = false)
      by (by intros a <-).
    repeat match goal with
           | |- context [(Sequencer.Action decision =? ?a)%string] =>
               destruct (String.eqb_spec (Sequencer.Action decision) a) as [E|E];
               [specialize (Hn _ E); vm_compute in Hn; discriminate Hn|clear E]
           end.
    done.
Qed.

End DispatchFacts.

(** ** The trading context *)

Section ContextFacts.
Import Auto.
Context {S P : Type}.
Variable trader : Trader S.
Variable UnixMilli : M S Z.
Variable fields : Fields.
Variable GetMergedCoinPool : Z -> M S (list string * gmap string (list string)).
Variable AnalyzePerformance : Z -> M S P.
Variable Now_Format : M S string.
Variable Since_Minutes : M S Z.

Lemma abs_not_negative (x : float) :
  ((if x <? f_int 0 then - x else x) <? f_int 0)%f64 = false.
Proof.
  change (f_ltb x (f_int 0)) with (x <? b64_of_Z 0)%float.
  destruct (x <? b64_of_Z 0)%float eqn:Hneg; [|done].
  by apply b64_neg_opp_not_lt.
Qed.

Lemma outside_firstSeen {A} (m : M S A) (s : State S) :
  positionFirstSeenTime (outside m s).2 = positionFirstSeenTime s.
Proof. unfold outside. by destruct (m (world s)). Qed.

(** The loop over the positions only adds keys to [positionFirstSeenTime],
    one for each position that had none, and reads the time of each
    position off the map. *)
Lemma context_positions_spec (positions : list (gmap string value)) :
  forall (infos : list PositionInfo) (tm : float) (keys : gset string) (s s' : State S) r,
    context_positions UnixMilli positions infos tm keys s = (r, s') ->
    (forall k t, positionFirstSeenTime s !! k = Some t ->
                 positionFirstSeenTime s' !! k = Some t) /\
    match r with
    | Ok (infos', tm', keys') =>
        exists new,
          infos' = infos ++ new /\
          keys' = list_to_set (posKey <$> new) ∪ keys /\
          dom (positionFirstSeenTime s')
          = dom (positionFirstSeenTime s) ∪ list_to_set (posKey <$> new) /\
          Forall (fun pi => positionFirstSeenTime s' !! posKey pi = Some (pi_UpdateTime pi)) new /\
          Forall (fun pi => (pi_Quantity pi <? f_int 0)%f64 = false) new /\
          length new = length positions
    | _ => True
    end.
Proof.
  induction positions as [|pos rest IH]; intros infos tm keys s s' r.
  - cbn [context_positions]. intros [= <- <-]. split; [done|].
    exists []. rewrite app_nil_r. cbn [fmap list_fmap list_to_set].
    split; [done|]. split; [set_solver|]. split; [set_solver|]. done.
  - cbn [context_positions]. unfold mbind at 1, M_bind at 1, lift_result at 1.
    destruct (must_string pos "symbol") as [symbol| |]; [|by intros [= <- <-]..].
    unfold mbind at 1, M_bind at 1, lift_result at 1.
    destruct (must_string pos "side") as [side| |]; [|by intros [= <- <-]..].
    unfold mbind at 1, M_bind at 1, lift_result at 1.
    destruct (must_float pos "entryPrice") as [entryPrice| |]; [|by intros [= <- <-]..].
    unfold mbind at 1, M_bind at 1, lift_result at 1.
    destruct (must_float pos "markPrice") as [markPrice| |]; [|by intros [= <- <-]..].
    unfold mbind at 1, M_bind at 1, lift_result at 1.
    destruct (must_float pos "positionAmt") as [amt| |]; [|by intros [= <- <-]..].
    unfold mbind at 1, M_bind at 1, lift_result at 1.
    destruct (must_float pos "unRealizedProfit") as [unrealizedPnl| |]; [|by intros [= <- <-]..].
    unfold mbind at 1, M_bind at 1, lift_result at 1.
    destruct (must_float pos "liquidationPrice") as [liquidationPrice| |];
      [|by intros [= <- <-]..].
    set (quantity := (if amt <? f_int 0 then - amt else amt)%f64).
    set (key := (symbol ++ "_" ++ side)%string).
    unfold mbind at 1, M_bind at 1, gets at 1.
    unfold mbind at 1, M_bind at 1.
    (* the insertion of a key that is not there *)
    assert (Hstep : (exists s1,
      (match positionFirstSeenTime s !! key with
       | Some _ => mret ()
       | None => now ← outside UnixMilli; set_firstSeen (insert key now)
       end) s = (Ok tt, s1) /\
      (forall k t, positionFirstSeenTime s !! k = Some t ->
                   positionFirstSeenTime s1 !! k = Some t) /\
      is_Some (positionFirstSeenTime s1 !! key) /\
      dom (positionFirstSeenTime s1) = dom (positionFirstSeenTime s) ∪ {[key]})
      \/ exists r1 s1,
        (match positionFirstSeenTime s !! key with
         | Some _ => mret ()
         | None => now ← outside UnixMilli; set_firstSeen (insert key now)
         end) s = (r1, s1) /\ r1 <> Ok tt /\
        positionFirstSeenTime s1 = positionFirstSeenTime s).
    { destruct (positionFirstSeenTime s !! key) as [t0|] eqn:Hk.
      - left. exists s. split; [done|]. split; [done|]. split; [by rewrite Hk|].
        apply elem_of_dom_2 in Hk. set_solver.
      - unfold mbind, M_bind.
        pose proof (outside_firstSeen UnixMilli s) as Ho.
        destruct (outside UnixMilli s) as [[now| |] s0] eqn:Hout; simpl in Ho.
        + left. eexists. split; [reflexivity|]. simpl. rewrite Ho.
          split.
          { intros k t Hkt. rewrite lookup_insert_ne; [done|]. intros <-. congruence. }
          split; [by rewrite lookup_insert_eq|]. rewrite dom_insert_L. set_solver.
        + right. eexists _, _. split; [reflexivity|]. done.
        + right. eexists _, _. split; [reflexivity|]. done. }
    destruct Hstep as [(s1 & -> & Hmono & Hsome & Hdom)|(r1 & s1 & -> & Hr1 & Hsame)].
    2:{ destruct r1 as [[]| |]; [done| |].
        - intros [= <- <-]. split; [|done]. intros k t. by rewrite Hsame.
        - intros [= <- <-]. split; [|done]. intros k t. by rewrite Hsame. }
    unfold mbind at 1, M_bind at 1, gets at 1.
    destruct Hsome as [t1 Ht1]. rewrite Ht1. cbn [default].
    intros Hrun. apply IH in Hrun as [Hmono' Hrest].
    split; [intros k t Hkt; by apply Hmono', Hmono|].
    destruct r as [[[infos' tm'] keys']| |]; [|done..].
    destruct Hrest as (new & -> & -> & Hdom' & Hupd & Hq & Hlen).
    exists (mkPositionInfo symbol side entryPrice markPrice quantity (leverage_of pos)
              unrealizedPnl
              (if (side =? "long")%string
               then ((markPrice - entryPrice) / entryPrice * f_int (leverage_of pos)
                     * f_int 100)%f64
               else ((entryPrice - markPrice) / entryPrice * f_int (leverage_of pos)
                     * f_int 100)%f64)
              liquidationPrice (quantity * markPrice / f_int (leverage_of pos))%f64 t1 :: new).
    split; [by rewrite <- app_assoc|].
    cbn [fmap list_fmap list_to_set]. change (posKey (mkPositionInfo _ _ _ _ _ _ _ _ _ _ _))
      with key.
    split; [set_solver|]. split; [rewrite Hdom', Hdom; set_solver|].
    split; [constructor; [by apply Hmono'|done]|].
    split; [constructor; [apply abs_not_negative|done]|].
    simpl. by rewrite Hlen.
Qed.

Lemma try_outside_firstSeen {A} (m : M S A) (s : State S) :
  positionFirstSeenTime (try (outside m) s).2 = positionFirstSeenTime s.
Proof.
  unfold try. pose proof (outside_firstSeen m s) as Ho.
  by destruct (outside m s) as [[a| |] s0].
Qed.

(** X12: When [buildTradingContext] returns a context, [positionFirstSeenTime]
    holds exactly the keys [symbol_side] of the positions of the context,
    each position carries the time the map holds for it, a key that was in
    the map before and is still there has kept its time, no position has
    a negative quantity, and the position count is the length of the list. *)
Theorem buildTradingContext_first_seen (s s' : State S) (ctx : Context P) :
  buildTradingContext trader UnixMilli fields GetMergedCoinPool AnalyzePerformance
                      Now_Format Since_Minutes s = (Ok ctx, s') ->
  dom (positionFirstSeenTime s') = list_to_set (posKey <$> Positions ctx) /\
  Forall (fun pi => positionFirstSeenTime s' !! posKey pi = Some (pi_UpdateTime pi))
         (Positions ctx) /\
  (forall k t, positionFirstSeenTime s !! k = Some t ->
               k ∈ dom (positionFirstSeenTime s') ->
               positionFirstSeenTime s' !! k = Some t) /\
  Forall (fun pi => (pi_Quantity pi <? f_int 0)%f64 = false) (Positions ctx) /\
  PositionCount (Account ctx) = Z.of_nat (length (Positions ctx)).
Proof.
  unfold buildTradingContext.
  unfold mbind at 1, M_bind at 1.
  pose proof (try_outside_firstSeen (GetBalance trader) s) as H1.
  destruct (try (outside (GetBalance trader)) s) as [[[err|balance]| |] s1];
    simpl in H1; [done| |done..].
  unfold mbind at 1, M_bind at 1.
  pose proof (try_outside_firstSeen (GetPositions trader) s1) as H2.
  destruct (try (outside (GetPositions trader)) s1) as [[[err|positions]| |] s2];
    simpl in H2; [done| |done..].
  unfold mbind at 1, M_bind at 1.
  destruct (context_positions UnixMilli positions [] (f_int 0) ∅ s2)
    as [r3 s3] eqn:Hloop.
  apply context_positions_spec in Hloop as [Hmono Hloop].
  destruct r3 as [[[infos tm] keys]| |]; [|done..].
  destruct Hloop as (new & -> & -> & Hdom & Hupd & Hq & Hlen).
  cbn [app].
  unfold mbind at 1, M_bind at 1, set_firstSeen at 1.
  set (keys := list_to_set (posKey <$> new) ∪ ∅ : gset string).
  set (m4 := filter (fun kv : string * Z => kv.1 ∈ keys) (positionFirstSeenTime s3)).
  set (s4 := mkState (world s3) m4 (actionRecord s3)).
  unfold mbind at 1, M_bind at 1.
  pose proof (try_outside_firstSeen (GetMergedCoinPool 20) s4) as H5.
  destruct (try (outside (GetMergedCoinPool 20)) s4) as [[[err|[allSymbols symbolSources]]| |] s5];
    simpl in H5; [done| |done..].
  unfold mbind at 1, M_bind at 1.
  pose proof (try_outside_firstSeen (AnalyzePerformance 100) s5) as H6.
  destruct (try (outside (AnalyzePerformance 100)) s5) as [[perf| |] s6];
    simpl in H6; [|done..].
  unfold mbind at 1, M_bind at 1.
  pose proof (outside_firstSeen Now_Format s6) as H7.
  destruct (outside Now_Format s6) as [[currentTime| |] s7]; simpl in H7; [|done..].
  unfold mbind at 1, M_bind at 1.
  pose proof (outside_firstSeen Since_Minutes s7) as H8.
  destruct (outside Since_Minutes s7) as [[runtimeMinutes| |] s8]; simpl in H8; [|done..].
  intros [= <- <-]. cbn [Positions Account PositionCount].
  rewrite H8, H7, H6, H5. cbn [positionFirstSeenTime].
  assert (Hkeys : forall k, k ∈ keys <-> k ∈ (list_to_set (posKey <$> new) : gset string))
    by (intros k; subst keys; set_solver).
  assert (Hin : forall k, k ∈ keys -> m4 !! k = positionFirstSeenTime s3 !! k).
  { intros k Hk. subst m4. destruct (positionFirstSeenTime s3 !! k) as [t|] eqn:Ek.
    - apply map_lookup_filter_Some. done.
    - apply map_lookup_filter_None. left. done. }
  assert (Hdom4 : dom m4 = keys).
  { apply set_eq. intros k. rewrite elem_of_dom. split.
    - intros [t Ht]. subst m4. apply map_lookup_filter_Some in Ht as [_ Ht]. done.
    - intros Hk. rewrite (Hin k Hk). apply elem_of_dom. rewrite Hdom. set_solver. }
  split; [rewrite Hdom4; subst keys; set_solver|].
  split.
  { apply Forall_forall. intros pi Hpi. rewrite Forall_forall in Hupd.
    rewrite Hin; [by apply Hupd|]. apply Hkeys. set_solver. }
  split.
  { intros k t Hk Hd. rewrite Hdom4 in Hd. rewrite (Hin k Hd). apply Hmono.
    by rewrite H2, H1. }
  split; [done|done].
Qed.

End ContextFacts.

(** The context of the trader on paper. *)
Lemma buildTradingContext_first_seen_on_paper :
  let build :=
    Auto.buildTradingContext (P := unit) on_paper (mret 1700000000000%Z)
      (Auto.mkFields 1000 1 5 3) (fun _ => mret (["BTCUSDT"], ∅)) (fun _ => mret tt)
      (mret "2025-01-01 00:00:00") (mret 0%Z) in
  exists ctx s',
    build seen_before = (Ok ctx, s') /\
    dom (Auto.positionFirstSeenTime s') = list_to_set (posKey <$> Auto.Positions ctx) /\
    Forall (fun pi => Auto.positionFirstSeenTime s' !! posKey pi
                      = Some (Auto.pi_UpdateTime pi)) (Auto.Positions ctx) /\
    (forall k t, Auto.positionFirstSeenTime seen_before !! k = Some t ->
                 k ∈ dom (Auto.positionFirstSeenTime s') ->
                 Auto.positionFirstSeenTime s' !! k = Some t) /\
    Forall (fun pi => (Auto.pi_Quantity pi <? f_int 0)%f64 = false) (Auto.Positions ctx) /\
    Auto.PositionCount (Auto.Account ctx) = Z.of_nat (length (Auto.Positions ctx)).
Proof.
  intros build. eexists _, _. split; [vm_compute; reflexivity|].
  apply (buildTradingContext_first_seen on_paper (mret 1700000000000%Z)
           (Auto.mkFields 1000 1 5 3) (fun _ => mret (["BTCUSDT"], ∅)) (fun _ => mret tt)
           (mret "2025-01-01 00:00:00") (mret 0%Z) seen_before).
  vm_compute. reflexivity.
Defined.

(** ** The precision cache and the formatters of the Aster trader *)

Section PrecisionCache.
Import Aster.
Variable env : Env.

Lemma getPrecision_spec (symbol : string) (st : State) :
  exists r st',
    getPrecision env symbol st = (r, st') /\
    heap st' = heap st /\
    (trace st' = trace st /\ st' = st /\ is_Some (symbolPrecision st !! symbol) \/
     trace st' = trace st ++ [HttpGet (baseURL ++ "/fapi/v3/exchangeInfo")] /\
     symbolPrecision st !! symbol = None) /\
    match r with
    | Ok prec =>
        symbolPrecision st' !! symbol = Some prec /\
        getPrecision env symbol st' = (Ok prec, st')
    | Err _ => symbolPrecision st !! symbol = None
    | Panic => False
    end.
Proof.
  unfold getPrecision at 1, mbind, M_bind, gets.
  destruct (symbolPrecision st !! symbol) as [prec|] eqn:Hc.
  - exists (Ok prec), st. split; [done|]. split; [done|]. split; [left; eauto|].
    split; [done|]. by apply getPrecision_cached.
  - unfold client_Get, mbind, M_bind, emit, gets. cbn [trace symbolPrecision heap].
    set (tr := trace st ++ [HttpGet (baseURL ++ "/fapi/v3/exchangeInfo")]).
    destruct (venue env tr) as [e|status body].
    + eexists _, _. split; [reflexivity|]. cbn. split; [done|]. split; [right; done|done].
    + destruct (decode_exchangeInfo env body) as [e|info].
      * eexists _, _. split; [reflexivity|]. cbn. split; [done|]. split; [right; done|done].
      * unfold set_symbolPrecision. cbn.
        destruct (foldl (cache_symbol env) (symbolPrecision st) info !! symbol) as [prec|] eqn:Hf.
        -- eexists _, _. split; [reflexivity|]. cbn. split; [done|]. split; [right; done|].
           split; [done|]. by apply getPrecision_cached.
        -- eexists _, _. split; [reflexivity|]. cbn. split; [done|]. split; [right; done|done].
Qed.

(** X13: [getPrecision] asks the venue at most once, and only on a miss; the
    precision it returns is in the cache afterwards, so that the next call
    for the symbol is a hit; and it fails on a hit never. *)
Theorem getPrecision_caches (symbol : string) (st : State) :
  exists r st',
    getPrecision env symbol st = (r, st') /\
    heap st' = heap st /\
    (trace st' = trace st /\ st' = st /\ is_Some (symbolPrecision st !! symbol) \/
     trace st' = trace st ++ [HttpGet (baseURL ++ "/fapi/v3/exchangeInfo")] /\
     symbolPrecision st !! symbol = None) /\
    match r with
    | Ok prec =>
        symbolPrecision st' !! symbol = Some prec /\
        getPrecision env symbol st' = (Ok prec, st')
    | Err _ => symbolPrecision st !! symbol = None
    | Panic => False
    end.
Proof. apply getPrecision_spec. Qed.

End PrecisionCache.

Section TrimRightFacts.
Import Precision.
Local Arguments String.append : simpl nomatch.

Lemma copies_snoc (c : ascii) (k : nat) : copies c (S k) = (copies c k ++ String c EmptyString)%string.
Proof. induction k as [|k IH]; [done|]. simpl in *. by rewrite <- IH. Qed.

Lemma length_copies (c : ascii) (k : nat) : String.length (copies c k) = k.
Proof. induction k as [|k IH]; simpl; [done|by rewrite IH]. Qed.

Lemma trim_right_copies (c : ascii) (s : string) (k fuel : nat) :
  last_byte s <> Some c -> (k <= fuel)%nat ->
  trim_right fuel (s ++ copies c k) (String c EmptyString) = s.
Proof.
  revert fuel. induction k as [|k IH]; intros fuel Hs Hk.
  - simpl. rewrite app_nil_r_s. destruct fuel as [|fuel]; [done|]. simpl.
    destruct (last_byte s) as [c'|]; [|done].
    destruct (Ascii.eqb_spec c' c) as [->|Hne]; [done|done].
  - destruct fuel as [|fuel]; [lia|].
    rewrite copies_snoc, <- app_assoc_s. simpl.
    rewrite last_byte_snoc, drop_last_snoc, Ascii.eqb_refl. simpl. apply IH; [done|lia].
Qed.

Lemma zeros_copies (k : nat) : zeros k = copies "0" k.
Proof. induction k as [|k IH]; simpl; [done|by rewrite IH]. Qed.

Lemma TrimRight_copies (c : ascii) (s : string) (k : nat) :
  last_byte s <> Some c -> strings_TrimRight (s ++ copies c k) (String c EmptyString) = s.
Proof.
  intros Hs. unfold strings_TrimRight. apply trim_right_copies; [done|].
  rewrite length_app_s, length_copies. lia.
Qed.

End TrimRightFacts.

Section AsterOrderFacts.
Import Aster AsterOrders.
Variable env : Env.
Variable FormatFloat : float -> Z -> string.
Variable Sprintf_8f : float -> string.
Variable ParseFloat_error : string -> option string.
Variable decode_object : string -> string + gmap string value.

(** X14: [FormatQuantity] never falls back on the eight decimals of its error
    branch: once [formatQuantity] has returned, the precision of the symbol
    is in the cache, and the quantity is rendered with it. *)
Theorem FormatQuantity_never_defaults (symbol : string) (quantity : float) (st : State) :
  match FormatQuantity env FormatFloat Sprintf_8f symbol quantity st with
  | (Ok str, st') =>
      exists formatted prec,
        formatQuantity env symbol quantity st = (Ok formatted, st') /\
        symbolPrecision st' !! symbol = Some prec /\
        str = formatFloatWithPrecision FormatFloat formatted (QuantityPrecision prec)
  | (Err e, st') => formatQuantity env symbol quantity st = (Err e, st')
  | (Panic, _) => False
  end.
Proof.
  unfold FormatQuantity, formatQuantity, mbind, M_bind, try.
  destruct (getPrecision_spec env symbol st) as (r & st' & Hrun & _ & _ & Hr).
  rewrite Hrun. destruct r as [prec|e|]; [|done|done].
  destruct Hr as [Hc Hhit].
  destruct (StepSize prec >? f_int 0)%f64; cbn; rewrite Hhit; cbn.
  all: eexists _, _; split; [reflexivity|]; split; [exact Hc|reflexivity].
Qed.

(** X15: [formatFloatWithPrecision] cuts the zeros that end the rendering and
    then the points that end it, whether or not the rendering has a point:
    with decimals, [10.50] becomes [10.5] and [10.00] becomes [10]; with
    none (a precision of 0), the zeros of the integer are cut as well, so
    that [100] becomes [1]. *)
Theorem formatFloatWithPrecision_cuts (value : float) (precision : Z) :
  (forall d k,
      FormatFloat value precision = (d ++ zeros k)%string ->
      Precision.last_byte d <> Some "0"%char -> Precision.last_byte d <> Some "."%char ->
      formatFloatWithPrecision FormatFloat value precision = d) /\
  (forall ip k,
      FormatFloat value precision = (ip ++ "." ++ zeros k)%string ->
      Precision.last_byte ip <> Some "."%char ->
      formatFloatWithPrecision FormatFloat value precision = ip).
Proof.
  unfold formatFloatWithPrecision. split.
  - intros d k -> H0 Hp. rewrite zeros_copies, TrimRight_copies by done.
    rewrite <- (app_nil_r_s d) at 1.
    apply (TrimRight_copies "." d 0 Hp).
  - intros ip k -> Hp. rewrite zeros_copies.
    replace (ip ++ "." ++ copies "0" k)%string
      with ((ip ++ String "." EmptyString) ++ copies "0" k)%string
      by (by rewrite app_assoc_s).
    rewrite TrimRight_copies by (by rewrite last_byte_snoc).
    apply (TrimRight_copies "." ip 1 Hp).
Qed.

End AsterOrderFacts.

(** ** The sizes of the Hyperliquid trader *)

Section SizesFacts.
Import Sizes.
Local Open Scope R_scope.

Lemma apply_sigfigs_exact (n : nat) (m : R) : apply_sigfigs n m = m * 10 ^ n.
Proof.
  revert m. induction n as [|n IH]; intros m; simpl; [lra|].
  rewrite IH. change (f_int 10) with 10. change (f_mul m 10) with (m * 10). ring.
Qed.

Lemma Int_part_floor (x : R) : IZR (Int_part x) <= x < IZR (Int_part x) + 1.
Proof.
  pose proof (base_Int_part x) as [H1 H2]. lra.
Qed.


End SizesFacts.

(** ** The symbols of the Hyperliquid trader *)

Section SymbolFacts.
Import Hyperliquid.
Local Arguments String.append : simpl nomatch.

Lemma substring_split (s : string) (k : nat) :
  (k <= String.length s)%nat ->
  (String.substring 0 k s ++ String.substring k (String.length s - k) s)%string = s.
Proof.
  revert k. induction s as [|c s IH]; intros k Hk.
  - by destruct k.
  - destruct k as [|k]; simpl.
    + clear. f_equal. induction s as [|x s IH]; simpl; [done|by rewrite IH].
    + rewrite IH; [done|simpl in Hk; lia].
Qed.

Lemma substring_all (s : string) : String.substring 0 (String.length s) s = s.
Proof. induction s as [|c s IH]; simpl; [done|by rewrite IH]. Qed.

Lemma convertSymbolToHyperliquid_spec :
  (forall coin, coin <> EmptyString -> convertSymbolToHyperliquid (coin ++ "USDT") = coin) /\
  convertSymbolToHyperliquid "USDT" = "USDT"%string /\
  (forall symbol,
      convertSymbolToHyperliquid symbol = symbol \/
      symbol = (convertSymbolToHyperliquid symbol ++ "USDT")%string /\
      convertSymbolToHyperliquid symbol <> EmptyString).
Proof.
  split; [|split; [done|]].
  - intros coin Hne. unfold convertSymbolToHyperliquid.
    rewrite length_app_s. cbn [String.length].
    replace (String.length coin + 4 - 4)%nat with (String.length coin) by lia.
    replace (4 <? String.length coin + 4)%nat with true
      by (symmetry; apply Nat.ltb_lt; destruct coin; [done|simpl; lia]).
    rewrite substring_app_pre, substring_0_app. done.
  - intros symbol. unfold convertSymbolToHyperliquid.
    set (n := String.length symbol).
    destruct (4 <? n)%nat eqn:Hn; [|by left]. apply Nat.ltb_lt in Hn.
    destruct (String.eqb_spec (String.substring (n - 4) 4 symbol) "USDT") as [E|_]; [|by left].
    right. cbn [andb]. split.
    + pose proof (substring_split symbol (n - 4)) as Hs. fold n in Hs.
      replace (n - (n - 4))%nat with 4%nat in Hs by lia.
      rewrite E in Hs. symmetry. apply Hs. lia.
    + subst n. destruct symbol as [|c symbol]; [simpl in Hn; lia|].
      replace (String.length (String c symbol) - 4)%nat
        with (S (String.length symbol - 4)) by (simpl in *; lia).
      done.
Qed.

(** X19: The symbol under which [GetPositions] reports a position on a coin is
    the coin followed by USDT, and [convertSymbolToHyperliquid] takes it
    back to the coin; a symbol is left as it is unless it ends in USDT with
    something before it, so that USDT alone stays USDT. *)
Theorem convertSymbolToHyperliquid_round_trip :
  (forall coin, coin <> EmptyString -> convertSymbolToHyperliquid (coin ++ "USDT") = coin) /\
  convertSymbolToHyperliquid "USDT" = "USDT"%string /\
  (forall symbol,
      convertSymbolToHyperliquid symbol = symbol \/
      symbol = (convertSymbolToHyperliquid symbol ++ "USDT")%string /\
      convertSymbolToHyperliquid symbol <> EmptyString) /\
  (forall env position m,
      position_map env position = Some m -> Coin position <> EmptyString ->
      exists symbol,
        m !! "symbol" = Some (VStr symbol) /\
        convertSymbolToHyperliquid symbol = Coin position).
Proof.
  destruct convertSymbolToHyperliquid_spec as (Hback & Husdt & Hany).
  split; [done|]. split; [done|]. split; [done|].
  intros env position m Hm Hne. unfold position_map in Hm.
  destruct (f_eqb _ _); [done|]. injection Hm as <-.
  exists (Coin position ++ "USDT")%string. split; [done|]. by apply Hback.
Qed.

End SymbolFacts.

(** ** Opening a position twice *)

Section OpeningFacts.
Import Auto.
Context {S : Type}.
Variable trader : Trader S.
Variable market_Get : string -> M S float.
Variable UnixMilli : M S Z.

Lemma holds_spec (pos : gmap string value) (key s : string) :
  holds pos key s = true <-> pos !! key = Some (VStr s).
Proof.
  unfold holds. destruct (pos !! key) as [[s'| | | |]|]; try (split; [done|congruence]).
  destruct (String.eqb_spec s' s) as [->|Hne]; [done|]. split; [done|congruence].
Qed.

Lemma already_open_spec (symbol side : string) (positions : list (gmap string value)) :
  already_open symbol side (inr positions) = true <-> position_on symbol side positions.
Proof.
  unfold already_open, position_on. rewrite existsb_exists, Exists_exists.
  split; intros (pos & Hin & Hp); exists pos.
  - apply list_elem_of_In in Hin. split; [done|].
    apply andb_true_iff in Hp. by rewrite <- !holds_spec.
  - rewrite list_elem_of_In in Hin. split; [done|].
    apply andb_true_iff. by rewrite !holds_spec.
Qed.

(** X20: With a position of the symbol on the side already open, an opening is
    refused before anything else is done: after the query of the
    positions, the market data is not read, no order is placed, and the
    trader's own records are left as they were. *)
Theorem executeOpen_refuses_second_position (decision : Sequencer.Decision) (s : State S)
        (positions : list (gmap string value)) (w : S) :
  GetPositions trader (world s) = (Ok positions, w) ->
  let symbol := Sequencer.Symbol decision in
  let queried := mkState w (positionFirstSeenTime s) (actionRecord s) in
  (position_on symbol "long" positions ->
   executeOpenLongWithRecord trader market_Get UnixMilli decision s
   = (Err ("❌ " ++ symbol
           ++ " 已有多倉，拒絕開倉以防止倉位疊加超限。如需換倉，請先給出 close_long 決策"), queried)) /\
  (position_on symbol "short" positions ->
   executeOpenShortWithRecord trader market_Get UnixMilli decision s
   = (Err ("❌ " ++ symbol
           ++ " 已有空倉，拒絕開倉以防止倉位疊加超限。如需換倉，請先給出 close_short 決策"), queried)).
Proof.
  intros Hget symbol queried.
  split; intros Hon; apply already_open_spec in Hon.
  - unfold executeOpenLongWithRecord, mbind, M_bind, try, outside.
    rewrite Hget. fold symbol. by rewrite Hon.
  - unfold executeOpenShortWithRecord, mbind, M_bind, try, outside.
    rewrite Hget. fold symbol. by rewrite Hon.
Qed.

End OpeningFacts.

(** The trader on paper, long on BTCUSDT, asked to open BTCUSDT again. *)
Lemma executeOpen_refuses_second_position_on_paper :
  Auto.GetPositions on_paper (Auto.world seen_before) = (Ok [one_long], tt) /\
  position_on "BTCUSDT" "long" [one_long] /\
  Auto.executeOpenLongWithRecord on_paper (fun _ => mret 50000%float) (mret 0%Z)
                                 (Sequencer.intent "open_long" "BTCUSDT") seen_before
  = (Err "❌ BTCUSDT 已有多倉，拒絕開倉以防止倉位疊加超限。如需換倉，請先給出 close_long 決策",
     seen_before).
Proof.
  assert (Hon : position_on "BTCUSDT" "long" [one_long]).
  { apply Exists_cons_hd. split; reflexivity. }
  split; [reflexivity|]. split; [exact Hon|].
  apply (executeOpen_refuses_second_position on_paper (fun _ => mret 50000%float) (mret 0%Z)
           (Sequencer.intent "open_long" "BTCUSDT") seen_before [one_long] tt);
    [reflexivity|exact Hon].
Defined.

(** ** What a computation preserves *)

Section PreservesFacts.
Context {St : Type} (R : St -> St -> Prop).
Hypothesis R_refl : forall s, R s s.
Hypothesis R_trans : forall s1 s2 s3, R s1 s2 -> R s2 s3 -> R s1 s3.

Lemma preserves_ret {A} (a : A) : preserves R (mret a : M St A).
Proof. intros s. apply R_refl. Qed.

Lemma preserves_fail {A} (e : string) : preserves R (fail e : M St A).
Proof. intros s. apply R_refl. Qed.

Lemma preserves_gets {A} (f : St -> A) : preserves R (gets f).
Proof. intros s. apply R_refl. Qed.

Lemma preserves_lift_result {A} (r : result A) : preserves R (lift_result r : M St A).
Proof. intros s. apply R_refl. Qed.

Lemma preserves_bind {A B} (m : M St A) (f : A -> M St B) :
  preserves R m -> (forall a, preserves R (f a)) -> preserves R (m ≫= f).
Proof.
  intros Hm Hf s. unfold mbind, M_bind. specialize (Hm s).
  destruct (m s) as [[a|e|] s1]; simpl in *; [|done|done].
  apply (R_trans _ s1); [done|apply Hf].
Qed.

Lemma preserves_try {A} (m : M St A) : preserves R m -> preserves R (try m).
Proof.
  intros Hm s. unfold try. specialize (Hm s). by destruct (m s) as [[a|e|] s1].
Qed.

End PreservesFacts.

(** ** The precision cache across the signed calls *)

Section KeepsFacts.
Import Aster.
Variable env : Env.

Lemma keeps_ret {A} (a : A) : keeps_cache (mret a : M State A).
Proof. by apply preserves_ret. Qed.

Lemma keeps_fail {A} (e : string) : keeps_cache (fail e : M State A).
Proof. by apply preserves_fail. Qed.

Lemma keeps_gets {A} (f : State -> A) : keeps_cache (gets f).
Proof. by apply preserves_gets. Qed.

Lemma keeps_bind {A B} (m : M State A) (f : A -> M State B) :
  keeps_cache m -> (forall a, keeps_cache (f a)) -> keeps_cache (m ≫= f).
Proof. apply preserves_bind. intros s1 s2 s3 H1 H2. by rewrite H2. Qed.

Lemma keeps_try {A} (m : M State A) : keeps_cache m -> keeps_cache (try m).
Proof. by apply preserves_try. Qed.

Lemma keeps_emit (ev : Event) : keeps_cache (emit env ev).
Proof. done. Qed.

Lemma keeps_new_map (content : gmap string value) : keeps_cache (new_map content).
Proof. done. Qed.

Lemma keeps_map_set (l : ref) (k : string) (v : value) : keeps_cache (map_set l k v).
Proof. intros s. unfold map_set. by destruct (heap s !! l). Qed.

Lemma keeps_sign (params : ref) (nonce : Z) : keeps_cache (sign env params nonce).
Proof.
  unfold sign, read_map.
  repeat first [apply keeps_bind; [|intros ?] | apply keeps_gets | apply keeps_emit
               | apply keeps_map_set | apply keeps_fail | case_match].
Qed.

Lemma keeps_exchange (method url : string) (payload : gmap string string) :
  keeps_cache (exchange env method url payload).
Proof.
  unfold exchange, client_Do.
  repeat first [apply keeps_bind; [|intros ?] | apply keeps_gets | apply keeps_emit
               | apply keeps_fail | apply keeps_ret | case_match].
Qed.

Lemma keeps_doRequest (method endpoint : string) (params : ref) :
  keeps_cache (doRequest env method endpoint params).
Proof.
  unfold doRequest, read_map. cbv zeta.
  repeat first [apply keeps_exchange | apply keeps_bind; [|intros ?] | apply keeps_gets
               | apply keeps_fail | case_match].
Qed.

Lemma keeps_copy (paramsCopy : ref) (original : gmap string value) :
  keeps_cache (map_fold (fun k v (copy : M State unit) => copy;; map_set paramsCopy k v)
                        (mret tt) original).
Proof.
  apply (map_fold_weak_ind (fun (r : M State unit) (_ : gmap string value) => keeps_cache r)).
  - apply keeps_ret.
  - intros k v m r _ Hr. apply keeps_bind; [done|]. intros _. apply keeps_map_set.
Qed.

Lemma keeps_request_loop (method endpoint : string) (params : ref) (n : nat) :
  forall (attempt : Z) (lastErr : string),
    keeps_cache (request_loop env n attempt method endpoint params lastErr).
Proof.
  induction n as [|n IH]; intros attempt lastErr; [apply keeps_fail|].
  cbn [request_loop]. unfold genNonce, read_map, time_Sleep.
  apply keeps_bind; [apply keeps_gets|]. intros nonce.
  apply keeps_bind; [apply keeps_gets|]. intros original.
  apply keeps_bind; [apply keeps_new_map|]. intros paramsCopy.
  apply keeps_bind; [apply keeps_copy|]. intros _.
  apply keeps_bind; [apply keeps_sign|]. intros _.
  apply keeps_bind; [apply keeps_try, keeps_doRequest|]. intros [err|body].
  - repeat case_match; try apply keeps_fail.
    apply keeps_bind; [apply keeps_emit|]. intros _. apply IH.
  - apply keeps_ret.
Qed.

Lemma keeps_request (method endpoint : string) (params : ref) :
  keeps_cache (request env method endpoint params).
Proof.
  unfold request, read_map.
  apply keeps_bind; [apply keeps_gets|]. intros content.
  apply keeps_bind; [apply keeps_emit|]. intros _. apply keeps_request_loop.
Qed.

(** A signed call on a new map of parameters. *)
Lemma call_spec (method endpoint : string) (content : gmap string value) (st : State) :
  exists l s1 r st',
    new_map content st = (Ok l, s1) /\
    request env method endpoint l s1 = (r, st') /\
    r <> Panic /\
    calls (trace st') = calls (trace st) ++ [(method, endpoint, content)] /\
    symbolPrecision st' = symbolPrecision st.
Proof.
  set (l := fresh (dom (heap st))).
  set (s1 := {| symbolPrecision := symbolPrecision st; heap := <[l:=content]> (heap st);
                now := now st; trace := trace st |}).
  assert (Hl : heap s1 !! l = Some content) by (simpl; apply lookup_insert_eq).
  destruct (request_spec env method endpoint l s1 _ Hl)
    as (s2 & r & new & ts & Hrun & Htr & _ & _ & _ & Hcalls & _ & _ & Hr & _).
  exists l, s1, r, s2. split; [done|]. split; [done|]. split; [done|]. split.
  - rewrite Htr.
    change (Call method endpoint content :: new) with ([Call method endpoint content] ++ new).
    rewrite !calls_app, Hcalls. by rewrite app_nil_r.
  - pose proof (keeps_request method endpoint l s1) as Hk. by rewrite Hrun in Hk.
Qed.

End KeepsFacts.

(** ** The orders of the Aster trader *)

Section AsterOrderCalls.
Import Aster AsterOrders.
Variable env : Env.
Variable FormatFloat : float -> Z -> string.
Variable ParseFloat_error : string -> option string.
Variable decode_object : string -> string + gmap string value.


Lemma CancelAllOrders_spec (symbol : string) (st : State) :
  exists r st',
    try (CancelAllOrders env symbol) st = (Ok r, st') /\
    calls (trace st') = calls (trace st) ++ [cancel_all_call symbol] /\
    symbolPrecision st' = symbolPrecision st.
Proof.
  destruct (call_spec env "DELETE" "/fapi/v3/allOpenOrders"
              (list_to_map [("symbol", VStr symbol)]) st)
    as (l & s1 & r & st' & Hnew & Hrun & Hr & Hcalls & Hcache).
  unfold try, CancelAllOrders, mbind, M_bind. rewrite Hnew, Hrun.
  destruct r as [body|e|]; [| |done]; eexists _, _; (split; [reflexivity|done]).
Qed.

Lemma SetLeverage_calls (symbol : string) (leverage : Z) (st : State) :
  exists r st',
    try (SetLeverage env symbol leverage) st = (Ok r, st') /\
    calls (trace st') = calls (trace st) ++ [leverage_call symbol leverage] /\
    symbolPrecision st' = symbolPrecision st.
Proof.
  destruct (call_spec env "POST" "/fapi/v3/leverage"
              (list_to_map [("symbol", VStr symbol); ("leverage", VInt leverage)]) st)
    as (l & s1 & r & st' & Hnew & Hrun & Hr & Hcalls & Hcache).
  unfold try, SetLeverage, mbind, M_bind. rewrite Hnew, Hrun.
  destruct r as [body|e|]; [| |done]; eexists _, _; (split; [reflexivity|done]).
Qed.

Lemma GetMarketPrice_calls (symbol : string) (st : State) :
  exists r st',
    GetMarketPrice env ParseFloat_error decode_object symbol st = (r, st') /\
    r <> Panic /\
    calls (trace st') = calls (trace st) /\
    symbolPrecision st' = symbolPrecision st.
Proof.
  unfold GetMarketPrice, client_Get, mbind, M_bind, emit, gets. cbn [trace].
  set (tr := trace st ++ _).
  assert (Hc : calls tr = calls (trace st)).
  { unfold tr. rewrite calls_app. simpl. by rewrite app_nil_r. }
  destruct (venue env tr) as [e|status body].
  { eexists _, _. split; [reflexivity|]. done. }
  destruct (negb (status =? 200)%Z).
  { eexists _, _. split; [reflexivity|]. done. }
  destruct (decode_object body) as [e|result].
  { eexists _, _. split; [reflexivity|]. done. }
  destruct (result !! "price") as [[priceStr| | | |]|];
    try (eexists _, _; split; [reflexivity|done]).
  destruct (ParseFloat_error priceStr); eexists _, _; (split; [reflexivity|done]).
Qed.

Lemma getPrecision_calls (symbol : string) (st : State) :
  exists r st',
    getPrecision env symbol st = (r, st') /\
    r <> Panic /\
    calls (trace st') = calls (trace st) /\
    forall prec, r = Ok prec -> symbolPrecision st' !! symbol = Some prec.
Proof.
  destruct (getPrecision_spec env symbol st) as (r & st' & Hrun & _ & Htr & Hr).
  exists r, st'. split; [done|]. split; [by destruct r|]. split.
  - destruct Htr as [(-> & _)|(-> & _)]; [done|].
    rewrite calls_app. simpl. by rewrite app_nil_r.
  - intros prec ->. by destruct Hr.
Qed.

Lemma post_order_spec (symbol side : string) (limitPrice quantity : float) (st : State) :
  exists r st',
    post_order env FormatFloat decode_object symbol side limitPrice quantity st = (r, st') /\
    r <> Panic /\
    (calls (trace st') = calls (trace st) /\ failed r \/
     exists prec,
       symbolPrecision st' !! symbol = Some prec /\
       calls (trace st') = calls (trace st) ++ [order_of FormatFloat symbol side prec limitPrice quantity]).
Proof.
  destruct (getPrecision_calls symbol st) as (r & s1 & Hrun & Hr & Hcalls & Hprec).
  unfold post_order.
  destruct r as [prec|e|]; [| |done].
  2:{ unfold mbind, M_bind, formatPrice. unfold mbind, M_bind. rewrite Hrun.
      eexists _, _. split; [reflexivity|]. split; [done|]. left. split; [done|by eexists]. }
  specialize (Hprec prec eq_refl).
  pose proof (getPrecision_cached env symbol s1 prec Hprec) as Hhit.
  unfold mbind at 1, M_bind at 1.
  rewrite (formatPrice_by_precision env symbol limitPrice st prec s1 Hrun).
  unfold mbind at 1, M_bind at 1.
  rewrite (formatQuantity_by_precision env symbol quantity s1 prec s1 Hhit).
  unfold mbind at 1, M_bind at 1. rewrite Hhit.
  match goal with |- context [new_map ?c] =>
    destruct (call_spec env "POST" "/fapi/v3/order" c s1)
      as (l & s2 & r2 & s3 & Hnew & Hreq & Hr2 & Hcalls2 & Hcache2)
  end.
  unfold mbind, M_bind. rewrite Hnew, Hreq.
  assert (Hres : symbolPrecision s3 !! symbol = Some prec) by (by rewrite Hcache2).
  assert (Hc3 : calls (trace s3)
                = calls (trace st) ++ [order_of FormatFloat symbol side prec limitPrice quantity]).
  { by rewrite Hcalls2, Hcalls. }
  destruct r2 as [body|e|]; [| |done].
  - destruct (decode_object body) as [e|result];
      eexists _, _; (split; [reflexivity|]); (split; [done|]); right; by exists prec.
  - eexists _, _. split; [reflexivity|]. split; [done|]. right. by exists prec.
Qed.

Lemma open_rest_spec (symbol side : string) (factor quantity : float) (st : State) :
  exists r st',
    (price ← GetMarketPrice env ParseFloat_error decode_object symbol;
     post_order env FormatFloat decode_object symbol side (price * factor)%f64 quantity) st
    = (r, st') /\
    r <> Panic /\
    (calls (trace st') = calls (trace st) /\ failed r \/
     exists prec price,
       symbolPrecision st' !! symbol = Some prec /\
       calls (trace st')
       = calls (trace st) ++ [order_of FormatFloat symbol side prec (price * factor)%f64 quantity]).
Proof.
  destruct (GetMarketPrice_calls symbol st) as (r & s1 & Hrun & Hr & Hcalls & _).
  unfold mbind, M_bind. rewrite Hrun. destruct r as [price|e|]; [| |done].
  - destruct (post_order_spec symbol side (price * factor)%f64 quantity s1)
      as (r2 & s2 & Hpost & Hr2 & Hc2).
    exists r2, s2. split; [done|]. split; [done|]. rewrite <- Hcalls.
    destruct Hc2 as [?|(prec & ? & ?)]; [by left|]. right. by exists prec, price.
  - eexists _, _. split; [reflexivity|]. split; [done|]. left. split; [done|by eexists].
Qed.

Lemma open_spec (symbol side : string) (factor quantity : float) (leverage : Z) (st : State) :
  let before := calls (trace st) ++ [cancel_all_call symbol; leverage_call symbol leverage] in
  exists r st',
    (try (CancelAllOrders env symbol);;
     r ← try (SetLeverage env symbol leverage);
     match r with
     | inl e => fail ("設置杠杆失敗: " ++ e)%string
     | inr _ =>
         price ← GetMarketPrice env ParseFloat_error decode_object symbol;
         post_order env FormatFloat decode_object symbol side (price * factor)%f64 quantity
     end) st = (r, st') /\
    r <> Panic /\
    (calls (trace st') = before /\ failed r \/
     exists prec price,
       symbolPrecision st' !! symbol = Some prec /\
       calls (trace st')
       = before ++ [order_of FormatFloat symbol side prec (price * factor)%f64 quantity]).
Proof.
  intros before.
  destruct (CancelAllOrders_spec symbol st) as (r1 & s1 & Hrun1 & Hc1 & _).
  destruct (SetLeverage_calls symbol leverage s1) as (r2 & s2 & Hrun2 & Hc2 & _).
  assert (Hb : calls (trace s2) = before).
  { rewrite Hc2, Hc1. unfold before. by rewrite <- app_assoc. }
  unfold mbind at 1, M_bind at 1. rewrite Hrun1.
  unfold mbind at 1, M_bind at 1. rewrite Hrun2.
  destruct r2 as [e|[]].
  - eexists _, _. split; [reflexivity|]. split; [done|]. left. split; [done|by eexists].
  - destruct (open_rest_spec symbol side factor quantity s2) as (r & st' & Hrun & Hr & Hc).
    exists r, st'. split; [done|]. split; [done|]. by rewrite <- Hb.
Qed.


Lemma GetPositions_calls (st : State) :
  exists r st',
    GetPositions env st = (r, st') /\
    calls (trace st') = calls (trace st) ++ [positions_call].
Proof.
  destruct (call_spec env "GET" "/fapi/v3/positionRisk" ∅ st)
    as (l & s1 & r & st' & Hnew & Hrun & Hr & Hcalls & Hcache).
  unfold GetPositions, mbind, M_bind. rewrite Hnew, Hrun.
  destruct r as [body|e|]; [| |done].
  - destruct (decode_objects env body) as [e|positions];
      eexists _, _; (split; [reflexivity|done]).
  - eexists _, _. split; [reflexivity|done].
Qed.

Lemma close_quantity_spec (symbol side msg : string) (quantity : float) (st : State) :
  let asked := if (quantity =? f_int 0)%f64 then [positions_call] else [] in
  exists r st',
    (if (quantity =? f_int 0)%f64 then
       positions ← GetPositions env;
       quantity ← lift (position_quantity symbol side positions);
       if (quantity =? f_int 0)%f64 then fail msg else mret quantity
     else mret quantity) st = (r, st') /\
    calls (trace st') = calls (trace st) ++ asked /\
    forall q, r = Ok q -> closing_quantity env symbol side quantity st q.
Proof.
  intros asked. unfold closing_quantity. subst asked.
  destruct (quantity =? f_int 0)%f64.
  2:{ exists (Ok quantity), st. split; [done|]. split; [by rewrite app_nil_r|].
      by intros q [= <-]. }
  destruct (GetPositions_calls st) as (r & s1 & Hrun & Hcalls).
  unfold mbind, M_bind, lift. rewrite Hrun.
  destruct r as [positions|e|]; [| |].
  - destruct (position_quantity symbol side positions) as [q|e|] eqn:Hq.
    + destruct (q =? f_int 0)%f64 eqn:Hz.
      * eexists _, _. split; [reflexivity|]. done.
      * eexists _, _. split; [reflexivity|]. split; [done|].
        intros q' [= <-]. by exists positions, s1.
    + eexists _, _. split; [reflexivity|]. done.
    + eexists _, _. split; [reflexivity|]. done.
  - eexists _, _. split; [reflexivity|]. done.
  - eexists _, _. split; [reflexivity|]. done.
Qed.

Lemma close_spec (symbol side closing msg : string) (factor quantity : float) (st : State) :
  let asked := if (quantity =? f_int 0)%f64 then [positions_call] else [] in
  exists r st',
    (quantity ←
       (if (quantity =? f_int 0)%f64 then
          positions ← GetPositions env;
          quantity ← lift (position_quantity symbol side positions);
          if (quantity =? f_int 0)%f64 then fail msg else mret quantity
        else mret quantity);
     price ← GetMarketPrice env ParseFloat_error decode_object symbol;
     result ← post_order env FormatFloat decode_object symbol closing
                         (price * factor)%f64 quantity;
     try (CancelAllOrders env symbol);;
     mret result) st = (r, st') /\
    (calls (trace st') = calls (trace st) ++ asked /\ (forall result, r <> Ok result) \/
     exists prec price q,
       closing_quantity env symbol side quantity st q /\
       symbolPrecision st' !! symbol = Some prec /\
       let order := order_of FormatFloat symbol closing prec (price * factor)%f64 q in
       (calls (trace st') = calls (trace st) ++ asked ++ [order] /\ failed r \/
        calls (trace st') = calls (trace st) ++ asked ++ [order; cancel_all_call symbol] /\
        exists result, r = Ok result)).
Proof.
  intros asked.
  destruct (close_quantity_spec symbol side msg quantity st) as (r1 & s1 & Hrun1 & Hc1 & Hq).
  fold asked in Hc1.
  unfold mbind at 1, M_bind at 1. rewrite Hrun1.
  destruct r1 as [q|e|]; [|eexists _, _; split; [reflexivity|]; left; by split..].
  specialize (Hq q eq_refl).
  destruct (GetMarketPrice_calls symbol s1) as (r2 & s2 & Hrun2 & Hr2 & Hc2 & _).
  unfold mbind at 1, M_bind at 1. rewrite Hrun2.
  destruct r2 as [price|e|]; [| |done].
  2:{ eexists _, _. split; [reflexivity|]. left. split; [by rewrite Hc2|done]. }
  destruct (post_order_spec symbol closing (price * factor)%f64 q s2)
    as (r3 & s3 & Hrun3 & Hr3 & Hc3).
  unfold mbind at 1, M_bind at 1. rewrite Hrun3.
  destruct r3 as [result|e|]; [| |done].
  - destruct Hc3 as [[_ [e He]]|(prec & Hprec & Hc3)]; [done|].
    destruct (CancelAllOrders_spec symbol s3) as (r4 & s4 & Hrun4 & Hc4 & Hcache4).
    unfold mbind, M_bind. rewrite Hrun4.
    eexists _, _. split; [reflexivity|]. right. exists prec, price, q.
    split; [done|]. split; [by rewrite Hcache4|]. right. split; [|by eexists].
    rewrite Hc4, Hc3, Hc2, Hc1. by rewrite <- !app_assoc.
  - eexists _, _. split; [reflexivity|].
    destruct Hc3 as [[Hc3 _]|(prec & Hprec & Hc3)].
    + left. split; [by rewrite Hc3, Hc2|done].
    + right. exists prec, price, q. split; [done|]. split; [done|]. left.
      split; [|by eexists]. rewrite Hc3, Hc2, Hc1. by rewrite <- !app_assoc.
Qed.


End AsterOrderCalls.

(** ** The retries of the client of the model *)

Section McpFacts.
Import Mcp.
Variable env : Env.

(** X23: [CallWithMessages] calls the API at most three times, always with the
    same prompts, waiting 2 s after the first failure and 4 s after the
    second. It returns the first answer; an error that is not retryable is
    returned as it is, at once; and after three retryable errors it returns
    the aggregated error that names the last of them. Every retry follows
    a retryable error. Without an API key nothing is called. *)
Theorem CallWithMessages_retries (APIKey systemPrompt userPrompt : string) (st : State) :
  let c := CallOnce systemPrompt userPrompt in
  exists r st' new,
    CallWithMessages env APIKey systemPrompt userPrompt st = (r, st') /\
    trace st' = trace st ++ new /\
    if (APIKey =? "")%string then new = [] /\ exists e, r = Err e
    else
      (new = [c] \/ new = [c; Sleep 2000000; c] \/
       new = [c; Sleep 2000000; c; Sleep 4000000; c]) /\
      (forall before d after,
          new = before ++ Sleep d :: after ->
          exists e, answer env (trace st ++ before) = inl e /\ isRetryableError e = true) /\
      match r with
      | Ok result => answer env (trace st') = inr result
      | Err msg =>
          exists e,
            answer env (trace st') = inl e /\
            if isRetryableError e
            then length new = 5%nat /\ msg = ("重試3次後仍然失敗: " ++ e)%string
            else msg = e
      | Panic => False
      end.
Proof.
  intros c. unfold CallWithMessages.
  destruct (APIKey =? "")%string.
  { exists (Err "AI API密鑰未設置，請先調用 SetDeepSeekAPIKey()、SetQwenAPIKey() 或 SetOpenAIAPIKey()"),
      st, []. split; [done|]. split; [by rewrite app_nil_r|]. split; [done|by eexists]. }
  change (Z.to_nat maxRetries) with 3%nat.
  cbn [call_loop]. unfold callOnce, try, mbind, M_bind, emit, gets, fail, mret, M_ret.
  cbn [trace]. fold c.
  destruct (answer env (trace st ++ [c])) as [e1|result] eqn:H1.
  2:{ eexists _, _, [c]. split; [reflexivity|]. split; [done|]. split; [by left|].
      split; [|done]. intros [|x [|y before]] d after Heq; done. }
  destruct (isRetryableError e1) eqn:R1; cbn [negb].
  2:{ eexists _, _, [c]. split; [reflexivity|]. split; [done|]. split; [by left|].
      split; [intros [|x [|y before]] d after Heq; done|].
      exists e1. split; [done|]. by rewrite R1. }
  change (1 <? maxRetries)%Z with true. cbn [trace].
  rewrite <- !app_assoc. cbn [app].
  assert (Hsecond : forall before d after,
             [c; Sleep 2000000; c] = before ++ Sleep d :: after ->
             exists e, answer env (trace st ++ before) = inl e /\ isRetryableError e = true).
  { intros [|x [|y [|z before]]] d after Heq; try done.
    - injection Heq as <- _ _. by exists e1.
    - injection Heq as _ _ Heq. by destruct before. }
  destruct (answer env (trace st ++ [c; Sleep (1 * 2 * 1000000); c])) as [e2|result] eqn:H2.
  2:{ eexists _, _, [c; Sleep 2000000; c]. split; [reflexivity|]. split; [done|].
      split; [by right; left|]. split; [done|done]. }
  destruct (isRetryableError e2) eqn:R2; cbn [negb].
  2:{ eexists _, _, [c; Sleep 2000000; c]. split; [reflexivity|]. split; [done|].
      split; [by right; left|]. split; [done|].
      exists e2. split; [done|]. by rewrite R2. }
  change (1 + 1 <? maxRetries)%Z with true. cbn [trace].
  rewrite <- !app_assoc. cbn [app].
  assert (Hthird : forall before d after,
             [c; Sleep 2000000; c; Sleep 4000000; c] = before ++ Sleep d :: after ->
             exists e, answer env (trace st ++ before) = inl e /\ isRetryableError e = true).
  { intros [|x [|y [|z [|u [|v before]]]]] d after Heq; try done.
    - injection Heq as <- _ _. by exists e1.
    - injection Heq as <- <- <- _ _. by exists e2.
    - injection Heq as _ _ _ _ Heq. by destruct before. }
  destruct (answer env (trace st ++ [c; Sleep (1 * 2 * 1000000); c;
                                     Sleep ((1 + 1) * 2 * 1000000); c]))
    as [e3|result] eqn:H3.
  2:{ eexists _, _, [c; Sleep 2000000; c; Sleep 4000000; c].
      split; [reflexivity|]. split; [done|]. split; [by right; right|]. split; [done|done]. }
  destruct (isRetryableError e3) eqn:R3; cbn [negb].
  2:{ eexists _, _, [c; Sleep 2000000; c; Sleep 4000000; c].
      split; [reflexivity|]. split; [done|]. split; [by right; right|]. split; [done|].
      exists e3. split; [done|]. by rewrite R3. }
  change (1 + 1 + 1 <? maxRetries)%Z with false.
  eexists _, _, [c; Sleep 2000000; c; Sleep 4000000; c].
  split; [reflexivity|]. split; [done|]. split; [by right; right|]. split; [done|].
  exists e3. split; [done|]. rewrite R3. done.
Qed.

End McpFacts.

(** ** The position cache of the Binance trader *)

Section BinanceCacheFacts.
Import Binance.
Variable env : Env.

(** X22: The position cache of the Binance trader holds a list only when the
    list has a position: after a call of [GetPositions] that returned
    positions, the next call returns them again with no remote call; after
    a call that returned none, the next call asks the venue again. *)
Theorem binance_GetPositions_again (st st1 : State) (ps : list (gmap string value)) :
  cachedPositions st <> Some [] ->
  (0 < cacheDuration st)%Z ->
  GetPositions env st = (Ok ps, st1) ->
  cachedPositions st1 <> Some [] /\ cacheDuration st1 = cacheDuration st /\
  match ps with
  | [] => exists r st2, GetPositions env st1 = (r, st2) /\
                        trace st2 = trace st1 ++ [GetPositionRisk]
  | _ => GetPositions env st1 = (Ok ps, st1)
  end.
Proof.
  intros Hinv Httl.
  unfold GetPositions at 1, mbind, M_bind, gets, emit, set_cache, fail, mret, M_ret. simpl.
  pose (fetched := fun (_ : unit) =>
    ltac:(exact (forall positions : list PositionRisk,
      let res := omap (position_map env) positions in
      let s1 := {| cachedPositions := match res with [] => None | _ => Some res end;
                   positionsCacheTime := now st + 0 + elapse env (trace st ++ [GetPositionRisk]);
                   cacheDuration := cacheDuration st;
                   now := now st + 0 + elapse env (trace st ++ [GetPositionRisk]);
                   trace := trace st ++ [GetPositionRisk] |} in
      cachedPositions s1 <> Some [] /\ cacheDuration s1 = cacheDuration st /\
      match res with
      | [] => exists r st2, GetPositions env s1 = (r, st2) /\
                            trace st2 = trace s1 ++ [GetPositionRisk]
      | _ => GetPositions env s1 = (Ok res, s1)
      end))).
  assert (Hfetch : fetched tt).
  { intros positions res s1. subst s1 res. simpl.
    destruct (omap (position_map env) positions) as [|p ps'] eqn:Hps;
      (split; [done|]); (split; [done|]).
    - unfold GetPositions, mbind, M_bind, gets, emit, set_cache, fail, mret, M_ret. simpl.
      destruct (positionRisk env _) as [e|positions']; eexists _, _; (split; [reflexivity|done]).
    - unfold GetPositions, mbind, M_bind, gets. simpl.
      replace (_ <? _)%Z with true by (symmetry; apply Z.ltb_lt; lia). done. }
  unfold fetched in Hfetch. clear fetched.
  destruct (cachedPositions st) as [cached|] eqn:Hc.
  - destruct (now st - positionsCacheTime st <? cacheDuration st)%Z eqn:Hage.
    + intros [= <- <-]. split; [by rewrite Hc|]. split; [done|].
      destruct cached as [|p cached]; [done|].
      unfold GetPositions, mbind, M_bind, gets. by rewrite Hc, Hage.
    + destruct (positionRisk env _) as [e|positions]; [done|]. intros [= <- <-].
      apply (Hfetch positions).
  - destruct (positionRisk env _) as [e|positions]; [done|]. intros [= <- <-].
    apply (Hfetch positions).
Qed.

End BinanceCacheFacts.

(** The account that holds 0.1 BTCUSDT, asked twice. *)
Lemma binance_GetPositions_again_long_at_3 :
  let first := Binance.GetPositions long_at_3 fresh_trader in
  exists ps, first.1 = Ok ps /\ ps <> [] /\
             Binance.GetPositions long_at_3 first.2 = (Ok ps, first.2).
Proof.
  intros first.
  destruct (Binance.GetPositions long_at_3 fresh_trader) as [r st1] eqn:Hrun.
  assert (Hr : exists p, r = Ok [p]) by (vm_compute in Hrun; injection Hrun as <- _; by eexists).
  destruct Hr as [p ->]. exists [p]. split; [done|]. split; [done|].
  apply (binance_GetPositions_again long_at_3 fresh_trader st1 [p]); [done|done|exact Hrun].
Defined.

(** ** The executing loop of [runCycle] *)

Section CycleFacts.
Import Auto Cycle.
Context {S : Type}.
Variable trader : Trader S.
Variable market_Get : string -> M S float.
Variable UnixMilli : M S Z.
Variable time_Now : S -> Z.
Variable time_Sleep : Z -> S -> S.

Lemma same_entry_refl (s : State S) : same_entry s s.
Proof. by repeat split. Qed.

Lemma same_entry_trans (s1 s2 s3 : State S) :
  same_entry s1 s2 -> same_entry s2 s3 -> same_entry s1 s3.
Proof.
  unfold same_entry. cbv zeta. intros (? & ? & ? & ? & ? & ?) (? & ? & ? & ? & ? & ?).
  repeat split; congruence.
Qed.

Lemma same_outside {A} (m : M S A) : preserves same_entry (outside m).
Proof. intros s. unfold outside. destruct (m (world s)). by repeat split. Qed.

Lemma same_firstSeen (f : gmap string Z -> gmap string Z) :
  preserves same_entry (set_firstSeen (S := S) f).
Proof. intros s. by repeat split. Qed.

Lemma same_record_price (x : float) : preserves same_entry (record_price (S := S) x).
Proof. intros s. by repeat split. Qed.

Lemma same_record_quantity (x : float) : preserves same_entry (record_quantity (S := S) x).
Proof. intros s. by repeat split. Qed.

Lemma same_record_orderID (order : gmap string any) :
  preserves same_entry (record_orderID (S := S) order).
Proof.
  intros s. unfold record_orderID. destruct (order !! "orderId") as [[]|]; by repeat split.
Qed.

Ltac same_tac :=
  repeat first
    [ apply same_outside | apply same_firstSeen | apply same_record_price
    | apply same_record_quantity | apply same_record_orderID
    | apply (preserves_ret same_entry same_entry_refl)
    | apply (preserves_fail same_entry same_entry_refl)
    | apply (preserves_lift_result same_entry same_entry_refl)
    | apply (preserves_try same_entry)
    | apply (preserves_bind same_entry same_entry_trans); [|intros ?]
    | case_match ].

Lemma same_executeDecisionWithRecord (d : Sequencer.Decision) :
  preserves same_entry (executeDecisionWithRecord trader market_Get UnixMilli d).
Proof.
  unfold executeDecisionWithRecord, executeOpenLongWithRecord, executeOpenShortWithRecord,
    executeCloseLongWithRecord, executeCloseShortWithRecord,
    executeUpdateStopLossWithRecord, executeUpdateTakeProfitWithRecord.
  cbv zeta. same_tac.
Qed.

Lemma execute_one_spec (d : Sequencer.Decision) (record : list DecisionAction * list string)
      (s : State S) :
  match execute_one trader market_Get UnixMilli time_Now time_Sleep d record s with
  | (Ok (actions, lines), _) =>
      exists a line, actions = record.1 ++ [a] /\ lines = record.2 ++ [line] /\ entry_of d a line
  | (Err _, _) => False
  | (Panic, _) => True
  end.
Proof.
  unfold execute_one.
  unfold mbind at 1, M_bind at 1, gets at 1.
  unfold mbind at 1, M_bind at 1, set_actionRecord at 1.
  set (s0 := {| world := world s; positionFirstSeenTime := positionFirstSeenTime s;
                actionRecord := _ |}).
  pose proof (same_executeDecisionWithRecord d s0) as Hsame.
  unfold mbind at 1, M_bind at 1, try.
  destruct (executeDecisionWithRecord trader market_Get UnixMilli d s0) as [[[]|err|] s1];
    [| |done]; destruct Hsame as (Ha & Hs & Hl & _ & Hok & Herr); simpl in *.
  - eexists _, _. split; [reflexivity|]. split; [reflexivity|].
    split; [done|]. split; [done|]. split; [done|]. left. done.
  - eexists _, _. split; [reflexivity|]. split; [reflexivity|].
    split; [done|]. split; [done|]. split; [done|]. right. done.
Qed.

Lemma execute_loop_spec (ds : list Sequencer.Decision) :
  forall (record : list DecisionAction * list string) (s : State S),
    match execute_loop trader market_Get UnixMilli time_Now time_Sleep ds record s with
    | (Ok (actions, lines), _) =>
        exists new_actions new_lines,
          actions = record.1 ++ new_actions /\ lines = record.2 ++ new_lines /\
          Forall3 entry_of ds new_actions new_lines
    | (Err _, _) => False
    | (Panic, _) => True
    end.
Proof.
  induction ds as [|d ds IH]; intros record s.
  - simpl. destruct record as [actions lines]. exists [], []. simpl.
    rewrite !app_nil_r. split; [done|]. split; [done|]. constructor.
  - cbn [execute_loop]. unfold mbind, M_bind.
    pose proof (execute_one_spec d record s) as H1.
    destruct (execute_one trader market_Get UnixMilli time_Now time_Sleep d record s)
      as [[[actions lines]|e|] s1]; [|done|done].
    destruct H1 as (a & line & -> & -> & Hentry).
    specialize (IH (record.1 ++ [a], record.2 ++ [line]) s1).
    destruct (execute_loop trader market_Get UnixMilli time_Now time_Sleep ds _ s1)
      as [[[actions' lines']|e|] s2]; [|done|done].
    destruct IH as (na & nl & -> & -> & Hall). simpl.
    exists (a :: na), (line :: nl). rewrite <- !app_assoc. simpl.
    split; [done|]. split; [done|]. by constructor.
Qed.

(** X21: The loop of [runCycle] attempts every decision of the batch, the
    closings first: whatever fails, the decisions after it are still
    executed, and the record gets one entry and one line of log for each
    decision, in the order of execution, with the symbol and the action of
    the decision and the outcome of its execution. The loop itself returns
    no error. *)
Theorem execute_decisions_attempts_all (decisions : list Sequencer.Decision) (s : State S) :
  let sorted := Sequencer.sortDecisionsByPriority decisions in
  match execute_decisions trader market_Get UnixMilli time_Now time_Sleep decisions s with
  | (Ok (actions, lines), _) =>
      sorted ≡ₚ decisions /\
      Sequencer.in_priority_order sorted /\
      Forall3 entry_of sorted actions lines
  | (Err _, _) => False
  | (Panic, _) => True
  end.
Proof.
  intros sorted. unfold execute_decisions. fold sorted.
  pose proof (execute_loop_spec sorted ([], []) s) as H.
  destruct (execute_loop trader market_Get UnixMilli time_Now time_Sleep sorted ([], []) s)
    as [[[actions lines]|e|] s1]; [|done|done].
  destruct H as (na & nl & -> & -> & Hall). simpl.
  split; [|split; [|done]].
  - subst sorted. rewrite sortDecisionsByPriority_passes.
    apply selection_passes_perm.
  - apply in_priority_order_sorted. subst sorted.
    rewrite sortDecisionsByPriority_passes. by apply selection_passes_sorted.
Qed.

End CycleFacts.

(** ** The order id in the action record *)

Section OrderIdFacts.
Import Auto.
Context {S : Type}.

(** X24: The order id reaches the action record only from the Binance backend:
    the assertion [order["orderId"].(int64)] holds for the [int64] of the
    SDK, and fails for the [float64] of an answer decoded from JSON (Aster)
    and for the [int] constant [0] (Hyperliquid), which leave the record as
    it was. *)
Theorem record_orderID_by_backend (s : State S) :
  (forall OrderID Symbol Status,
      record_orderID (binance_order_result OrderID Symbol Status) s
      = (Ok tt, mkState (world s) (positionFirstSeenTime s)
                        (let r := actionRecord s in
                         mkDecisionAction (da_Action r) (da_Symbol r) (da_Quantity r)
                                          (da_Leverage r) (da_Price r) OrderID
                                          (da_Timestamp r) (da_Success r) (da_Error r)))) /\
  (forall result, record_orderID (aster_order_result result) s = (Ok tt, s)) /\
  (forall symbol, record_orderID (hyperliquid_order_result symbol) s = (Ok tt, s)).
Proof.
  split; [done|]. split; [|done].
  intros result. unfold record_orderID, aster_order_result.
  rewrite lookup_fmap. by destruct (result !! "orderId") as [[]|].
Qed.

End OrderIdFacts.

(** ** Updating the stop loss on the Aster backend *)

Section ProtectiveFacts.
Import Aster AsterOrders.
Variable env : Env.
Variable FormatFloat : float -> Z -> string.
Variable Sprintf_8f : float -> string.
Variable ParseFloat_error : string -> option string.
Variable decode_object : string -> string + gmap string value.

Lemma protective_order_spec (symbol positionSide type_ : string) (quantity price : float)
      (st : State) :
  exists r st',
    protective_order env FormatFloat symbol positionSide type_ quantity price st = (r, st') /\
    r <> Panic /\
    (calls (trace st') = calls (trace st) /\ failed r \/
     exists prec,
       symbolPrecision st' !! symbol = Some prec /\
       calls (trace st')
       = calls (trace st)
         ++ [protective_call FormatFloat symbol positionSide type_ prec quantity price]).
Proof.
  destruct (getPrecision_calls env symbol st) as (r & s1 & Hrun & Hr & Hcalls & Hprec).
  unfold protective_order. cbv zeta.
  destruct r as [prec|e|]; [| |done].
  2:{ unfold mbind, M_bind, formatPrice. unfold mbind, M_bind. rewrite Hrun.
      eexists _, _. split; [reflexivity|]. split; [done|]. left. split; [done|by eexists]. }
  specialize (Hprec prec eq_refl).
  pose proof (getPrecision_cached env symbol s1 prec Hprec) as Hhit.
  unfold mbind at 1, M_bind at 1.
  rewrite (formatPrice_by_precision env symbol price st prec s1 Hrun).
  unfold mbind at 1, M_bind at 1.
  rewrite (formatQuantity_by_precision env symbol quantity s1 prec s1 Hhit).
  unfold mbind at 1, M_bind at 1. rewrite Hhit.
  match goal with |- context [new_map ?c] =>
    destruct (call_spec env "POST" "/fapi/v3/order" c s1)
      as (l & s2 & r2 & s3 & Hnew & Hreq & Hr2 & Hcalls2 & Hcache2)
  end.
  unfold mbind, M_bind. rewrite Hnew, Hreq.
  assert (Hres : symbolPrecision s3 !! symbol = Some prec) by (by rewrite Hcache2).
  assert (Hc3 : calls (trace s3)
                = calls (trace st)
                  ++ [protective_call FormatFloat symbol positionSide type_ prec quantity price]).
  { by rewrite Hcalls2, Hcalls. }
  destruct r2 as [body|e|]; [| |done];
    eexists _, _; (split; [reflexivity|]); (split; [done|]); right; by exists prec.
Qed.

(** X25: On the Aster backend, updating the stop loss of a position removes its
    take-profit order and does not put it back: after the query of the
    positions and the listing of the open orders of the symbol, every
    order of the types STOP_MARKET, TAKE_PROFIT_MARKET, STOP and
    TAKE_PROFIT is cancelled, and then at most one order is placed, the
    new STOP_MARKET order on the side opposite to the position. *)
Theorem aster_update_stop_loss_cancels_take_profit
        (decision : Sequencer.Decision) (s : Auto.State State)
        (positions orders : list (gmap string value)) (s1 : State)
        (positionSide : string) (quantity : float) :
  let symbol := Sequencer.Symbol decision in
  GetPositions env (Auto.world s) = (Ok positions, s1) ->
  Auto.side_and_quantity symbol positions = Ok (positionSide, quantity) ->
  (quantity =? f_int 0)%f64 = false ->
  open_orders_listed env symbol s1 = Some orders ->
  exists r s' placed,
    Auto.executeUpdateStopLossWithRecord
      (AsterTrader env FormatFloat Sprintf_8f ParseFloat_error decode_object) decision s
    = (r, s') /\
    r <> Panic /\
    calls (trace (Auto.world s'))
    = calls (trace (Auto.world s))
      ++ [positions_call; listing_call symbol]
      ++ (cancel_call symbol <$> filter is_stop_order orders) ++ placed /\
    (placed = [] /\ failed r \/
     exists prec,
       placed = [protective_call FormatFloat symbol positionSide "STOP_MARKET" prec quantity
                                 (Sequencer.StopLoss decision)]) /\
    (forall order,
        orderType_of order = "TAKE_PROFIT_MARKET" \/ orderType_of order = "TAKE_PROFIT" ->
        is_stop_order order).
Proof.
  intros symbol Hget Hside Hq Hlist.
  destruct (GetPositions_calls env (Auto.world s)) as (r0 & s0 & Hrun0 & Hc0).
  rewrite Hget in Hrun0. injection Hrun0 as <- <-.
  destruct (aster_CancelStopOrders_spec env symbol s1 orders Hlist) as (s2 & Hcancel & Hc2).
  destruct (protective_order_spec symbol positionSide "STOP_MARKET" quantity
              (Sequencer.StopLoss decision) s2) as (r3 & s3 & Hrun3 & Hr3 & Hc3).
  assert (Hpre : calls (trace s2)
                 = calls (trace (Auto.world s)) ++ [positions_call; listing_call symbol]
                   ++ (cancel_call symbol <$> filter is_stop_order orders)).
  { rewrite Hc2, Hc0. by rewrite <- app_assoc. }
  unfold Auto.executeUpdateStopLossWithRecord. fold symbol.
  unfold mbind at 1, M_bind at 1, Auto.outside at 1. cbn [Auto.GetPositions AsterTrader].
  rewrite Hget. cbn [Auto.world].
  unfold mbind at 1, M_bind at 1, lift_result. rewrite Hside. rewrite Hq.
  unfold mbind at 1, M_bind at 1, try at 1, Auto.outside at 1.
  cbn [Auto.CancelStopOrders AsterTrader Auto.world]. rewrite Hcancel.
  unfold mbind at 1, M_bind at 1, try at 1, Auto.outside at 1.
  cbn [Auto.SetStopLoss AsterTrader Auto.world]. unfold SetStopLoss. rewrite Hrun3.
  assert (Hstop : forall order,
             orderType_of order = "TAKE_PROFIT_MARKET" \/ orderType_of order = "TAKE_PROFIT" ->
             is_stop_order order).
  { intros order [H|H]; unfold is_stop_order; by rewrite H. }
  destruct r3 as [[]|e|]; [| |done].
  - destruct Hc3 as [[_ [e He]]|(prec & _ & Hc3)]; [done|].
    eexists _, _, _. split; [reflexivity|]. split; [done|]. cbn [Auto.world].
    split; [by rewrite Hc3, Hpre, <- !app_assoc|]. split; [|done]. right. by exists prec.
  - destruct Hc3 as [[Hc3 _]|(prec & _ & Hc3)].
    + eexists _, _, []. split; [reflexivity|]. split; [done|]. cbn [Auto.world].
      split; [by rewrite Hc3, Hpre, app_nil_r|]. split; [|done]. left. split; [done|by eexists].
    + eexists _, _, _. split; [reflexivity|]. split; [done|]. cbn [Auto.world].
      split; [by rewrite Hc3, Hpre, <- !app_assoc|]. split; [|done]. right. by exists prec.
Qed.

End ProtectiveFacts.

(** The update on the account of the scenario: the stop order and the
    take-profit order are cancelled, the limit order is not. *)
Lemma aster_update_stop_loss_cancels_take_profit_protected_long :
  let decision := Sequencer.mkDecision "BTCUSDT" "update_stop_loss" 0 0 49000 0 0 0 "" in
  let s := Auto.mkState no_maps ∅ (Auto.mkDecisionAction "" "" 0 0 0 0 0 false "") in
  let run :=
    Auto.executeUpdateStopLossWithRecord
      (AsterOrders.AsterTrader protected_long (fun _ _ => "1") (fun _ => "1")
                                (fun _ => None) (fun _ => inr ∅)) decision s in
  Aster.cancels (Aster.trace (Auto.world run.2)) = [1; 2]%Z /\
  exists r s' placed,
    run = (r, s') /\ r <> Panic /\
    Aster.calls (Aster.trace (Auto.world s'))
    = [positions_call; listing_call "BTCUSDT"]
      ++ (Aster.cancel_call "BTCUSDT" <$>
            filter Aster.is_stop_order
              [list_to_map [("type", VStr "STOP_MARKET"); ("orderId", VNum 1)];
               list_to_map [("type", VStr "TAKE_PROFIT_MARKET"); ("orderId", VNum 2)];
               list_to_map [("type", VStr "LIMIT"); ("orderId", VNum 3)]]) ++ placed.
Proof.
  intros decision s run. split; [vm_compute; reflexivity|].
  destruct (aster_update_stop_loss_cancels_take_profit
              protected_long (fun _ _ => "1") (fun _ => "1") (fun _ => None) (fun _ => inr ∅)
              decision s
              (match (Aster.GetPositions protected_long no_maps).1 with Ok ps => ps | _ => [] end)
              [list_to_map [("type", VStr "STOP_MARKET"); ("orderId", VNum 1)];
               list_to_map [("type", VStr "TAKE_PROFIT_MARKET"); ("orderId", VNum 2)];
               list_to_map [("type", VStr "LIMIT"); ("orderId", VNum 3)]]
              (Aster.GetPositions protected_long no_maps).2 "LONG" 0.1%float)
    as (r & s' & placed & Hrun & Hr & Hcalls & _).
  - vm_compute. reflexivity.
  - vm_compute. reflexivity.
  - vm_compute. reflexivity.
  - vm_compute. reflexivity.
  - exists r, s', placed. split; [exact Hrun|]. split; [exact Hr|]. exact Hcalls.
Defined.
